(** * App_Facturas: classification of invoices by CIF

    Shallow embedding of [src/app.py]: the CIF matcher
    ([buscar_cif_en_pdf]), the classifier and the file organizer
    ([procesar_y_clasificar]) and the ZIP packaging step, together with
    the properties of the specification that concern them.

    Conventions of the model.
    - A Python [str] is a [list ascii]; a character stands for the code
      point of the same number (0..255).  On these code points [\s],
      [\d], [str.strip] and [str.lower] behave as written below;
      [str.upper] is applied to matches only, which are made of ASCII
      letters and digits.
    - The PDF library (pdfplumber) is outside the program: a PDF is given
      by what opening it and extracting each page yields.
    - [list(set(...))] iterates in an order the language leaves open: the
      order is a parameter [set_order] of the development.
    - The working directory is a tree of named entries; paths are lists
      of components relative to [base_dir]. *)

From Stdlib Require Import List Bool Arith Lia Ascii Permutation.
From Stdlib Require String.
Import ListNotations.
Import String.StringSyntax.
Open Scope string_scope.
Open Scope list_scope.

Set Implicit Arguments.
Set Warnings "-register-all".

(* ------------------------------------------------------------------ *)
(** ** Characters and strings *)

Definition str := list ascii.

Definition str_of (s : String.string) : str := String.list_ascii_of_string s.

Definition str_eq_dec : forall a b : str, {a = b} + {a <> b} :=
  list_eq_dec ascii_dec.

Definition str_eqb (a b : str) : bool :=
  if str_eq_dec a b then true else false.

Definition in_list (x : str) (l : list str) : bool :=
  existsb (str_eqb x) l.

Definition code (c : ascii) : nat := nat_of_ascii c.

Definition between (lo hi : nat) (c : ascii) : bool :=
  (lo <=? code c) && (code c <=? hi).

(** [\s] and [str.isspace]: TAB..CR, FS..US, space, NEL, NBSP. *)
Definition is_space (c : ascii) : bool :=
  between 9 13 c || between 28 32 c || (code c =? 133) || (code c =? 160).

(** [\d]: the decimal digits. *)
Definition is_digit (c : ascii) : bool := between 48 57 c.

(** The class [[\s._-]] of the cleaning substitution. *)
Definition is_noise (c : ascii) : bool :=
  is_space c || (code c =? 46) || (code c =? 95) || (code c =? 45).

(** The class [[ABG]] under [re.IGNORECASE]. *)
Definition is_ABG (c : ascii) : bool :=
  (code c =? 65) || (code c =? 66) || (code c =? 71) ||
  (code c =? 97) || (code c =? 98) || (code c =? 103).

(** [str.upper] on the characters of a match, which are ASCII. *)
Definition upper_char (c : ascii) : ascii :=
  if between 97 122 c then ascii_of_nat (code c - 32) else c.

Definition lower_char (c : ascii) : ascii :=
  if between 65 90 c || between 192 214 c || between 216 222 c
  then ascii_of_nat (code c + 32) else c.

Definition upper (s : str) : str := map upper_char s.
Definition lower (s : str) : str := map lower_char s.

(** [s.endswith(suffix)] *)
Definition endswith (s suffix : str) : bool :=
  (length suffix <=? length s) &&
  str_eqb (skipn (length s - length suffix) s) suffix.

(** [s.startswith(prefix)] *)
Definition startswith (s prefix : str) : bool :=
  str_eqb (firstn (length prefix) s) prefix.

(** [s.strip()]: leading and trailing whitespace removed. *)
Fixpoint lstrip (s : str) : str :=
  match s with
  | c :: r => if is_space c then lstrip r else s
  | [] => []
  end.

Definition rstrip (s : str) : str := rev (lstrip (rev s)).

Definition strip (s : str) : str := rstrip (lstrip s).

(* ------------------------------------------------------------------ *)
(** ** Configuration *)

Definition CIFS_LIST : list str :=
  map str_of
    [ "B85536134"; "A80652928"; "B84425131"; "A81989360";
      "B81500043"; "A79492286"; "G83844316"; "A81944720";
      "B60924131"; "B47384649"; "A31604903" ].

Definition UNIDENTIFIED_FOLDER_NAME : str := str_of "Sin identificar".

Definition ZIP_NAME : str := str_of "facturas_clasificadas.zip".

(* ------------------------------------------------------------------ *)
(** ** Exceptions *)

Inductive exn : Type :=
| FileNotFoundError
| FileExistsError
| IsADirectoryError
| NotADirectoryError
| OSError
| ShutilError
| PdfError.

Inductive result (A : Type) : Type :=
| Ok (a : A)
| Raise (e : exn).

Arguments Ok {A} a.
Arguments Raise {A} e.

(* ------------------------------------------------------------------ *)
(** ** The matcher: [buscar_cif_en_pdf] *)

(** What pdfplumber yields for one page: [extract_text()] returns a text,
    returns [None], or raises. *)
Inductive page : Type :=
| PageText (texto_pagina : option str)
| PageRaises.

(** What [pdfplumber.open] yields: it raises, or gives the pages. *)
Inductive pdf : Type :=
| OpenRaises
| Pages (pages : list page).

(** The loop over [pdf.pages] accumulating [texto_completo]. *)
Fixpoint leer_paginas (pages : list page) (texto_completo : str)
  : result str :=
  match pages with
  | [] => Ok texto_completo
  | PageRaises :: _ => Raise PdfError
  | PageText None :: rest => leer_paginas rest texto_completo
  | PageText (Some texto_pagina) :: rest =>
      match texto_pagina with
      | [] => leer_paginas rest texto_completo
      | _ => leer_paginas rest (texto_completo ++ texto_pagina)
      end
  end.

Definition extraer_texto (doc : pdf) : result str :=
  match doc with
  | OpenRaises => Raise PdfError
  | Pages pages => leer_paginas pages []
  end.

(** [re.sub(r'[\s._-]', '', texto)] *)
Definition limpiar (texto : str) : str :=
  filter (fun c => negb (is_noise c)) texto.

(** The pattern [[ABG]\d{8}] matches at the head of [s]. *)
Definition match_at (s : str) : bool :=
  match s with
  | c :: r => is_ABG c && (8 <=? length r) && forallb is_digit (firstn 8 r)
  | [] => false
  end.

(** [patron_cif.findall]: leftmost matches, scanning on after each one.
    [skip] counts the characters of the last match still to be passed. *)
Fixpoint findall_from (skip : nat) (s : str) : list str :=
  match s with
  | [] => []
  | _ :: r =>
      match skip with
      | S k => findall_from k r
      | O => if match_at s then firstn 9 s :: findall_from 8 r
             else findall_from 0 r
      end
  end.

Definition findall (s : str) : list str := findall_from 0 s.

Section Matcher.

(** Iteration order of a Python [set] built from a sequence. *)
Variable set_order : list str -> list str.

Definition set_order_spec : Prop :=
  forall l, NoDup (set_order l) /\ forall x, In x (set_order l) <-> In x l.

Definition buscar_cif_en_texto (texto_completo : str) : list str :=
  let texto_limpio := limpiar texto_completo in
  let matches := findall texto_limpio in
  set_order (map upper matches).

Definition buscar_cif_en_pdf (doc : pdf) : list str :=
  match extraer_texto doc with
  | Raise _ => []
  | Ok texto_completo => buscar_cif_en_texto texto_completo
  end.

End Matcher.

(* ------------------------------------------------------------------ *)
(** ** The classifier (lines 92-107 of [procesar_y_clasificar]) *)

Inductive destino : Type :=
| SinIdentificar
| Unico (cif_principal : str)
| Doble (cif_principal cif_secundario : str).

Definition clasificar (cifs_encontrados : list str) : destino :=
  let cifs_principales :=
    filter (fun cif => in_list cif CIFS_LIST) cifs_encontrados in
  match cifs_principales with
  | [] => SinIdentificar
  | cif_principal :: _ =>
      let otros_cifs :=
        filter (fun cif => negb (str_eqb cif cif_principal)) cifs_encontrados in
      match otros_cifs with
      | cif_secundario :: _ => Doble cif_principal cif_secundario
      | [] => Unico cif_principal
      end
  end.

(** Components of the destination below [base_dir]. *)
Definition componentes (d : destino) : list str :=
  match d with
  | SinIdentificar => [UNIDENTIFIED_FOLDER_NAME]
  | Unico cif_principal => [cif_principal]
  | Doble cif_principal cif_secundario => [cif_principal; cif_secundario]
  end.

(** [os.path.join(a, *p)] of posixpath. *)
Definition sep : str := str_of "/".

Definition join_step (path b : str) : str :=
  if startswith b sep then b
  else match path with
       | [] => path ++ b
       | _ => if endswith path sep then path ++ b else path ++ sep ++ b
       end.

Definition os_path_join (a : str) (p : list str) : str :=
  fold_left join_step p a.

(** [os.path.relpath(join(base_dir, *p), base_dir)]: the components
    below [base_dir], separated by [/]. *)
Fixpoint relpath (p : list str) : str :=
  match p with
  | [] => []
  | [n] => n
  | n :: rest => n ++ sep ++ relpath rest
  end.

Definition destination_folder (base_dir : str) (cifs_encontrados : list str)
  : str :=
  os_path_join base_dir (componentes (clasificar cifs_encontrados)).

(** [os.path.splitext] of posixpath ([genericpath._splitext]): the
    extension starts at the last dot, unless only dots precede it in the
    last component.  Indices are kept one above Python's, so that 0
    stands for "not found" (Python's -1). *)
Fixpoint rfind_from (c : ascii) (s : str) (i found : nat) : nat :=
  match s with
  | [] => found
  | x :: r => rfind_from c r (S i) (if ascii_dec x c then S i else found)
  end.

Definition rfind1 (c : ascii) (s : str) : nat := rfind_from c s 0 0.

Definition dot : ascii := "."%char.
Definition slash : ascii := "/"%char.

Definition splitext (p : str) : str * str :=
  let sepIndex := rfind1 slash p in
  let dotIndex := rfind1 dot p in
  if sepIndex <? dotIndex then
    let leading := firstn (dotIndex - 1 - sepIndex) (skipn sepIndex p) in
    if existsb (fun x => if ascii_dec x dot then false else true) leading
    then (firstn (dotIndex - 1) p, skipn (dotIndex - 1) p)
    else (p, [])
  else (p, []).

(* ------------------------------------------------------------------ *)
(** ** The working directory *)

Definition path := list str.

Section FileSystem.

(** Contents of a regular file. *)
Variable content : Type.

Inductive node : Type :=
| File (c : content)
| Dir (entries : list (str * node)).

Definition directory := list (str * node).

Definition dir_names (d : directory) : list str := map fst d.

Fixpoint dir_get (name : str) (d : directory) : option node :=
  match d with
  | [] => None
  | (n, v) :: rest => if str_eqb n name then Some v else dir_get name rest
  end.

Definition dir_remove (name : str) (d : directory) : directory :=
  filter (fun e => negb (str_eqb (fst e) name)) d.

(** The entry [name] becomes [v]: in place when present, else added. *)
Fixpoint dir_put (name : str) (v : node) (d : directory) : directory :=
  match d with
  | [] => [(name, v)]
  | (n, w) :: rest =>
      if str_eqb n name then (n, v) :: rest
      else (n, w) :: dir_put name v rest
  end.

Fixpoint lookup (p : path) (t : node) : option node :=
  match p with
  | [] => Some t
  | n :: p' =>
      match t with
      | Dir d => match dir_get n d with
                 | Some child => lookup p' child
                 | None => None
                 end
      | File _ => None
      end
  end.

(** [os.listdir]: the names in the order the directory keeps them; any
    order is possible, as the trees range over all lists of entries. *)
Definition os_listdir (p : path) (root : directory) : result (list str) :=
  match lookup p (Dir root) with
  | Some (Dir d) => Ok (dir_names d)
  | Some (File _) => Raise NotADirectoryError
  | None => Raise FileNotFoundError
  end.

(** [os.path.isfile] *)
Definition os_path_isfile (p : path) (root : directory) : bool :=
  match lookup p (Dir root) with
  | Some (File _) => true
  | _ => false
  end.

(** [os.makedirs(p, exist_ok=True)] *)
Fixpoint makedirs (p : path) (t : node) : result node :=
  match p with
  | [] => match t with
          | Dir _ => Ok t
          | File _ => Raise FileExistsError
          end
  | n :: p' =>
      match t with
      | File _ => Raise NotADirectoryError
      | Dir d =>
          match makedirs p' (match dir_get n d with
                             | Some child => child
                             | None => Dir []
                             end) with
          | Ok child' => Ok (Dir (dir_put n child' d))
          | Raise e => Raise e
          end
      end
  end.

Definition os_makedirs (p : path) (root : directory) : result directory :=
  match makedirs p (Dir root) with
  | Ok (Dir d) => Ok d
  | Ok (File _) => Raise NotADirectoryError
  | Raise e => Raise e
  end.

(** The node [v] is stored under the path [p], whose parent must be a
    directory. *)
Fixpoint store (p : path) (v : node) (t : node) : result node :=
  match t with
  | File _ => Raise NotADirectoryError
  | Dir d =>
      match p with
      | [] => Raise IsADirectoryError
      | [n] => Ok (Dir (dir_put n v d))
      | n :: p' =>
          match dir_get n d with
          | None => Raise FileNotFoundError
          | Some child =>
              match store p' v child with
              | Ok child' => Ok (Dir (dir_put n child' d))
              | Raise e => Raise e
              end
          end
      end
  end.

(** The entry under the path [p] is taken out of its directory. *)
Fixpoint unlink (p : path) (t : node) : result node :=
  match t with
  | File _ => Raise NotADirectoryError
  | Dir d =>
      match p with
      | [] => Raise IsADirectoryError
      | [n] => match dir_get n d with
               | Some _ => Ok (Dir (dir_remove n d))
               | None => Raise FileNotFoundError
               end
      | n :: p' =>
          match dir_get n d with
          | None => Raise FileNotFoundError
          | Some child =>
              match unlink p' child with
              | Ok child' => Ok (Dir (dir_put n child' d))
              | Raise e => Raise e
              end
          end
      end
  end.

Definition as_directory (r : result node) : result directory :=
  match r with
  | Ok (Dir d) => Ok d
  | Ok (File _) => Raise NotADirectoryError
  | Raise e => Raise e
  end.

(** [os.rmdir]: only an empty directory is removed. *)
Definition os_rmdir (p : path) (root : directory) : result directory :=
  match lookup p (Dir root) with
  | Some (Dir []) => as_directory (unlink p (Dir root))
  | Some (Dir _) => Raise OSError
  | Some (File _) => Raise NotADirectoryError
  | None => Raise FileNotFoundError
  end.

(** The names [.] and [..] denote a directory whatever the listing
    holds. *)
Definition special_name (n : str) : bool :=
  str_eqb n (str_of ".") || str_eqb n (str_of "..").

Definition rename_entry (src dst : str) (d : directory) : directory :=
  map (fun e => if str_eqb (fst e) src then (dst, snd e) else e) d.

(** [os.rename(join(base_dir, src), join(base_dir, dst))] on POSIX: an
    existing file [dst] is replaced by a file [src] without notice; a
    directory is not replaced by a file, nor a file by a directory, nor a
    directory that is not empty by anything.  An empty [dst] makes the
    target [base_dir/]. *)
Definition os_rename (src dst : str) (root : directory) : result directory :=
  match dir_get src root with
  | None => Raise FileNotFoundError
  | Some v =>
      if str_eqb src dst then Ok root
      else if str_eqb dst [] then Raise NotADirectoryError
      else if special_name dst then Raise OSError
      else match v, dir_get dst root with
           | File _, Some (Dir _) => Raise IsADirectoryError
           | Dir _, Some (File _) => Raise NotADirectoryError
           | Dir _, Some (Dir (_ :: _)) => Raise OSError
           | _, _ => Ok (rename_entry src dst (dir_remove dst root))
           end
  end.

(** [shutil.move(join(base_dir, name), join(base_dir, *dest, name))] for
    a regular file [name]: when the target is an existing directory the
    file goes inside it, else [os.rename] puts it at the target. *)
Definition shutil_move (name : str) (dest : path) (root : directory)
  : result directory :=
  match dir_get name root with
  | None => Raise FileNotFoundError
  | Some src =>
      let dst := dest ++ [name] in
      let real_dst :=
        match lookup dst (Dir root) with
        | Some (Dir _) => dst ++ [name]
        | _ => dst
        end in
      match lookup dst (Dir root), lookup real_dst (Dir root) with
      | Some (Dir _), Some _ => Raise ShutilError
      | _, _ => as_directory (store real_dst src (Dir (dir_remove name root)))
      end
  end.

End FileSystem.

Arguments File {content} c.
Arguments Dir {content} entries.

(* ------------------------------------------------------------------ *)
(** ** The log *)

Inductive log_entry : Type :=
| LogRenombrado (filename clean_filename : str)
| LogSinCif (filename : str)
| LogMultiples (filename cif_principal cif_secundario : str)
| LogUnico (filename cif_principal : str)
| LogEliminada (basename : str).

Definition log_de (filename : str) (d : destino) : log_entry :=
  match d with
  | SinIdentificar => LogSinCif filename
  | Unico cif_principal => LogUnico filename cif_principal
  | Doble cif_principal cif_secundario =>
      LogMultiples filename cif_principal cif_secundario
  end.

(* ------------------------------------------------------------------ *)
(** ** The organizer: [procesar_y_clasificar] *)

Section Organizer.

Variable content : Type.

(** What pdfplumber makes of the bytes of a file. *)
Variable pdfplumber_open : content -> pdf.

Variable set_order : list str -> list str.

Local Abbreviation directory := (directory content).

(** The state a run threads: the tree below [base_dir] and the log. *)
Record estado : Type := Estado {
  fs : directory;
  log_messages : list log_entry
}.

(** State over exceptions. *)
Definition M (A : Type) : Type := estado -> result (A * estado).

Definition ret {A} (a : A) : M A := fun st => Ok (a, st).

Definition bind {A B} (m : M A) (k : A -> M B) : M B :=
  fun st => match m st with
            | Ok (a, st') => k a st'
            | Raise e => Raise e
            end.

Notation "x <- m ;; k" := (bind m (fun x => k))
  (at level 61, m at next level, right associativity).
Notation "m ;; k" := (bind m (fun _ => k))
  (at level 61, right associativity).

Definition read {A} (f : directory -> A) : M A :=
  fun st => Ok (f (fs st), st).

Definition try_read {A} (f : directory -> result A) : M A :=
  fun st => match f (fs st) with
            | Ok a => Ok (a, st)
            | Raise e => Raise e
            end.

Definition update (f : directory -> result directory) : M unit :=
  fun st => match f (fs st) with
            | Ok d => Ok (tt, Estado d (log_messages st))
            | Raise e => Raise e
            end.

Definition append (e : log_entry) : M unit :=
  fun st => Ok (tt, Estado (fs st) (log_messages st ++ [e])).

Fixpoint for_each {X} (l : list X) (body : X -> M unit) : M unit :=
  match l with
  | [] => ret tt
  | x :: rest => body x ;; for_each rest body
  end.

(** [pdfplumber.open(join(base_dir, filename))]: a missing entry or a
    directory makes it raise. *)
Definition abrir (filename : str) (root : directory) : pdf :=
  match dir_get filename root with
  | Some (File c) => pdfplumber_open c
  | _ => OpenRaises
  end.

(** Setup: the destination folders. *)
Definition crear_carpetas : M unit :=
  for_each (CIFS_LIST ++ [UNIDENTIFIED_FOLDER_NAME])
    (fun folder_name => update (os_makedirs [folder_name])).

(** Normalize: file names without surrounding whitespace. *)
Definition limpiar_nombres : M unit :=
  listing <- try_read (os_listdir []) ;;
  for_each listing (fun filename =>
    isfile <- read (os_path_isfile [filename]) ;;
    if isfile then
      let clean_filename := strip filename in
      if str_eqb filename clean_filename then ret tt
      else update (os_rename filename clean_filename) ;;
           append (LogRenombrado filename clean_filename)
    else ret tt).

(** The PDF and the files of its base name go to the destination. *)
Definition mover_asociados (pdf_basename : str) (destination : path)
  : M unit :=
  listing <- try_read (os_listdir []) ;;
  for_each listing (fun file_to_move =>
    if str_eqb (fst (splitext file_to_move)) pdf_basename then
      isfile <- read (os_path_isfile [file_to_move]) ;;
      if isfile then update (shutil_move file_to_move destination)
      else ret tt
    else ret tt).

(** Classify&Move *)
Definition procesar_pdfs : M unit :=
  listing <- try_read (os_listdir []) ;;
  for_each listing (fun filename =>
    if endswith (lower filename) (str_of ".pdf") then
      doc <- read (abrir filename) ;;
      let cifs_encontrados := buscar_cif_en_pdf set_order doc in
      let destino := clasificar cifs_encontrados in
      append (log_de filename destino) ;;
      update (os_makedirs (componentes destino)) ;;
      mover_asociados (fst (splitext filename)) (componentes destino)
    else ret tt).

(** [os.walk(base_dir, topdown=False)]: the directories of the tree,
    each one after those below it.  The generator lists a directory when
    it reaches it, before any directory below it is visited or removed,
    and the loop removes nothing but the directory just yielded: the
    paths are those of the tree as Prune finds it.  Entries come in the
    order of the listing. *)
Fixpoint walk_bottomup (t : node content) : list path :=
  match t with
  | File _ => []
  | Dir d =>
      flat_map (fun e => map (cons (fst e)) (walk_bottomup (snd e))) d
      ++ [[]]
  end.

(** The directories strictly below a directory, in that order. *)
Definition walk_below (d : directory) : list path :=
  flat_map (fun e => map (cons (fst e)) (walk_bottomup (snd e))) d.

Definition podar_paso (dirpath : path) : M unit :=
  match dirpath with
  | [] => ret tt
  | _ =>
      listing <- try_read (os_listdir dirpath) ;;
      match listing with
      | [] => update (os_rmdir dirpath) ;;
              append (LogEliminada (last dirpath []))
      | _ => ret tt
      end
  end.

(** Prune: the empty folders are removed, the deepest first. *)
Definition podar : M unit :=
  dirpaths <- read (fun root => walk_bottomup (Dir root)) ;;
  for_each dirpaths podar_paso.

Definition procesar_y_clasificar : M unit :=
  crear_carpetas ;;
  limpiar_nombres ;;
  procesar_pdfs ;;
  podar.

End Organizer.

(* ------------------------------------------------------------------ *)
(** ** The archive (module top level, lines 136-156) *)

Section Archive.

Variable content : Type.
Variable pdfplumber_open : content -> pdf.
Variable set_order : list str -> list str.

(** The bytes of a ZIP file with the given entries. *)
Variable zip_bytes : list (str * content) -> content.

Local Abbreviation directory := (directory content).

(** The files [os.walk] lists for one directory, the archive's name
    left out (line 154). *)
Definition files_of (root : path) (d : directory) : list (str * content) :=
  flat_map (fun e => match snd e with
                     | File c =>
                         if str_eqb (fst e) ZIP_NAME then []
                         else [(relpath (root ++ [fst e]), c)]
                     | Dir _ => []
                     end) d.

(** [os.walk(temp_dir)], top down, with the body of the loop. *)
Fixpoint zip_walk (root : path) (t : node content) : list (str * content) :=
  match t with
  | File _ => []
  | Dir d =>
      files_of root d
      ++ flat_map (fun e => zip_walk (root ++ [fst e]) (snd e)) d
  end.

(** [zipfile.ZipFile(zip_path, 'w')] creates or truncates the archive
    file; then the tree is walked. *)
Definition crear_zip (root : directory)
  : result (list (str * content) * directory) :=
  match dir_get ZIP_NAME root with
  | Some (Dir _) => Raise IsADirectoryError
  | _ =>
      let root' := dir_put ZIP_NAME (File (zip_bytes [])) root in
      let entries := zip_walk [] (Dir root') in
      Ok (entries, dir_put ZIP_NAME (File (zip_bytes entries)) root')
  end.

(** An uploaded file is written under its name, a base name, into
    the temporary directory. *)
Definition guardar (root : directory) (uploaded_file : str * content)
  : directory :=
  dir_put (fst uploaded_file) (File (snd uploaded_file)) root.

Record salida : Type := Salida {
  zip_entries : list (str * content);
  final_tree : directory;
  registro : list log_entry
}.

Definition main (uploaded_files : list (str * content)) : result salida :=
  let temp_dir := fold_left guardar uploaded_files [] in
  match procesar_y_clasificar pdfplumber_open set_order
          (Estado temp_dir []) with
  | Raise e => Raise e
  | Ok (_, st) =>
      match crear_zip (fs st) with
      | Raise e => Raise e
      | Ok (entries, root) => Ok (Salida entries root (log_messages st))
      end
  end.

End Archive.

(* ------------------------------------------------------------------ *)
(** ** Vocabulary of the properties *)

(** A code in the canonical format, in either case: one letter of
    [A], [B], [G] and exactly eight digits. *)
Definition is_cif (s : str) : bool :=
  match_at s && (length s =? 9).

(** The same in upper case, as the matcher returns it. *)
Definition is_codigo (s : str) : bool :=
  match s with
  | c :: r =>
      ((code c =? 65) || (code c =? 66) || (code c =? 71))
      && (length r =? 8) && forallb is_digit r
  | [] => false
  end.

(** [interspersed s t]: [t] is [s] with whitespace and the characters
    [.], [_], [-] put anywhere between, before or after its characters. *)
Inductive interspersed : str -> str -> Prop :=
| isp_nil : interspersed [] []
| isp_noise (c : ascii) (s t : str) :
    is_noise c = true -> interspersed s t -> interspersed s (c :: t)
| isp_char (c : ascii) (s t : str) :
    interspersed s t -> interspersed (c :: s) (c :: t).

Ltac interspersed_tac :=
  repeat first
    [ apply isp_nil
    | apply isp_noise; [reflexivity|]
    | apply isp_char ].

(** The file cannot be opened, or some page cannot be parsed. *)
Definition unreadable (doc : pdf) : Prop :=
  doc = OpenRaises \/ exists pages, doc = Pages pages /\ In PageRaises pages.

(** A path component that names an entry of the directory it is looked
    up in: not empty, not [.] or [..], without separator. *)
Definition safe_component (n : str) : bool :=
  negb (str_eqb n []) && negb (str_eqb n (str_of "."))
  && negb (str_eqb n (str_of "..")) && forallb (fun c => negb (code c =? 47)) n.

(** [base_dir] as the prefix of the paths below it. *)
Definition dir_prefix (base_dir : str) : str :=
  match base_dir with
  | [] => []
  | _ => if endswith base_dir sep then base_dir else base_dir ++ sep
  end.

(** [p] names something strictly below [base_dir]: at least one safe
    component under it. *)
Definition strictly_inside (base_dir p : str) : Prop :=
  exists comps,
    comps <> [] /\ Forall (fun n => safe_component n = true) comps /\
    p = dir_prefix base_dir ++ relpath comps.

(** One admissible iteration order of a set: first occurrences, in the
    order of the sequence. *)
Definition dedup : list str -> list str := nodup str_eq_dec.

Section Trees.

Variable content : Type.

Local Abbreviation node := (node content).
Local Abbreviation directory := (directory content).

(** Induction on trees, with the hypothesis for every entry of a
    directory. *)
Section NodeInduction.

Variable P : node -> Prop.
Hypothesis P_File : forall c, P (File c).
Hypothesis P_Dir : forall d, Forall (fun e => P (snd e)) d -> P (Dir d).

Fixpoint node_induction (t : node) : P t :=
  match t with
  | File c => P_File c
  | Dir d =>
      P_Dir ((fix entries (d : directory) : Forall (fun e => P (snd e)) d :=
                match d with
                | [] => Forall_nil _
                | e :: rest =>
                    Forall_cons e (node_induction (snd e)) (entries rest)
                end) d)
  end.

End NodeInduction.

Fixpoint unique (names : list str) : bool :=
  match names with
  | [] => true
  | n :: rest => negb (in_list n rest) && unique rest
  end.

(** A directory holds no two entries of one name. *)
Fixpoint well_formed (t : node) : bool :=
  match t with
  | File _ => true
  | Dir d => unique (dir_names d) && forallb (fun e => well_formed (snd e)) d
  end.

(** The tree without the directories that hold no file at any depth:
    what Prune leaves of the tree below the working directory. *)
Fixpoint podado (t : node) : node :=
  match t with
  | File c => File c
  | Dir d =>
      Dir (flat_map (fun e => match podado (snd e) with
                              | Dir [] => []
                              | t' => [(fst e, t')]
                              end) d)
  end.

(** The removals Prune logs, in its order. *)
Fixpoint podado_log (t : node) : list log_entry :=
  match t with
  | File _ => []
  | Dir d =>
      flat_map (fun e => podado_log (snd e)
                         ++ match podado (snd e) with
                            | Dir [] => [LogEliminada (fst e)]
                            | _ => []
                            end) d
  end.

Definition podado_entries (d : directory) : directory :=
  match podado (Dir d) with
  | Dir d' => d'
  | File _ => []
  end.

End Trees.

(** Run on the entries of a directory, the steps of Prune for the
    directories below it succeed and leave [podado_entries] of them. *)
Definition pruned_as_specified {content : Type} (t : node content) : Prop :=
  well_formed t = true ->
  match t with
  | File _ => True
  | Dir d =>
      forall log,
        for_each (walk_below d) (@podar_paso content) (Estado d log)
        = Ok (tt, Estado (podado_entries d) (log ++ podado_log (Dir d)))
  end.

(** The archive holds every file of the tree but the archive file
    itself, under its relative path. *)
Definition archive_complete {content : Type}
  (entries : list (str * content)) (root : directory content) : Prop :=
  forall p c,
    lookup p (Dir root) = Some (File c) -> p <> [ZIP_NAME] ->
    In (relpath p, c) entries.

(** A PDF reader for the examples: a file that starts with [%PDF] has
    one page, whose text is the rest of the file; any other file cannot
    be opened. *)
Definition lector (bytes : str) : pdf :=
  if startswith bytes (str_of "%PDF")
  then Pages [PageText (Some (skipn 4 bytes))]
  else OpenRaises.

Definition empty_zip (entries : list (str * str)) : str := [].

(* ------------------------------------------------------------------ *)
(** ** The access gate (lines 11-26) *)

(** The process environment after [load_dotenv()]. *)
Definition environ := list (str * str).

(** [os.getenv(key)]: [None] when the variable is not set. *)
Fixpoint os_getenv (env : environ) (key : str) : option str :=
  match env with
  | [] => None
  | (k, v) :: rest => if str_eqb k key then Some v else os_getenv rest key
  end.

(** [check_password]: [password] is what [st.text_input] returns, the
    empty string as long as nothing was typed.  The result comes with
    the flag of the [st.error] message. *)
Definition check_password (PASSWORD : option str) (password : str)
  : bool * bool :=
  if match PASSWORD with
     | Some p => str_eqb password p
     | None => false
     end
  then (true, false)
  else match password with
       | [] => (false, false)
       | _ => (false, true)
       end.

Section Script.

Variable content : Type.
Variable pdfplumber_open : content -> pdf.
Variable set_order : list str -> list str.
Variable zip_bytes : list (str * content) -> content.

(** What one run of the script shows. *)
Inductive pagina : Type :=
| Detenido (error : bool)
| Formulario
| Resultado (r : result (salida content)).

(** [st.button(..., disabled=...)]: a disabled button is never pressed. *)
Definition st_button (disabled pressed : bool) : bool :=
  pressed && negb disabled.

(** The script from top to bottom: the gate, then the form and, when
    the button is pressed, the run. *)
Definition script (env : environ) (password : str)
  (uploaded_files : list (str * content)) (pressed : bool) : pagina :=
  let PASSWORD := os_getenv env (str_of "APP_PASSWORD") in
  let (ok, error) := check_password PASSWORD password in
  if negb ok then Detenido error
  else
    let not_uploaded := match uploaded_files with [] => true | _ => false end in
    if st_button not_uploaded pressed
    then Resultado (main pdfplumber_open set_order zip_bytes uploaded_files)
    else Formulario.

End Script.

(* ------------------------------------------------------------------ *)
(** ** Vocabulary of further properties *)

(** [m] stands in [s]. *)
Definition occurs (m s : str) : Prop :=
  exists pre post, s = pre ++ m ++ post.

(** The text a page adds to [texto_completo]. *)
Definition page_text (pg : page) : str :=
  match pg with
  | PageText (Some texto_pagina) => texto_pagina
  | _ => []
  end.

(** The folders Setup makes. *)
Definition carpetas : list str := CIFS_LIST ++ [UNIDENTIFIED_FOLDER_NAME].

(** The primary code of a destination. *)
Definition principal (d : destino) : option str :=
  match d with
  | SinIdentificar => None
  | Unico cif_principal => Some cif_principal
  | Doble cif_principal _ => Some cif_principal
  end.


(** A computation relates the state it starts in, when that state
    satisfies [P], to the state it returns. *)
Definition keeps {content A : Type}
  (P : estado content -> Prop)
  (R : estado content -> estado content -> Prop)
  (m : M content A) : Prop :=
  forall st a st', P st -> m st = Ok (a, st') -> R st st'.

(** The contents of the files of a tree. *)
Fixpoint contents {content : Type} (t : node content) : list content :=
  match t with
  | File c => [c]
  | Dir d => flat_map (fun e => contents (snd e)) d
  end.

Definition always {content : Type} (st : estado content) : Prop := True.


(** The folders of the working directory are among those Setup and
    Classify&Move make there. *)
Definition solo_carpetas {content : Type} (root : directory content) : Prop :=
  forall n d, dir_get n root = Some (Dir d) -> In n carpetas.


(** The entries of a directory that holds, under each of the names,
    the node [f] gives for it. *)
Definition entradas {content : Type} (f : str -> node content)
  (names : list str) : directory content :=
  map (fun k => (k, f k)) names.

(** The folder [h] holding [v], every other one empty. *)
Definition solo_en {content : Type} (h : str) (v : node content)
  : str -> node content :=
  fun k => if str_eqb k h then v else Dir [].

(** What the destination folder of the working directory holds once
    the file [n] is classified as [d]. *)
Definition clasificado {content : Type} (d : destino) (n : str) (c : content)
  : node content :=
  match d with
  | Doble _ cif_secundario => Dir [(cif_secundario, Dir [(n, File c)])]
  | _ => Dir [(n, File c)]
  end.

(** The destination folder as Classify&Move makes it, before the move. *)
Definition preparado {content : Type} (d : destino) : node content :=
  match d with
  | Doble _ cif_secundario => Dir [(cif_secundario, Dir [])]
  | _ => Dir []
  end.


(* ------------------------------------------------------------------ *)
(** * Properties *)

Unset Implicit Arguments.

(** ** Strings *)

Lemma str_eqb_eq (a b : str) : str_eqb a b = true <-> a = b.
Proof.
  unfold str_eqb. destruct (str_eq_dec a b); split; congruence.
Qed.

Lemma str_eqb_refl (a : str) : str_eqb a a = true.
Proof. now apply str_eqb_eq. Qed.

Lemma str_eqb_neq (a b : str) : str_eqb a b = false <-> a <> b.
Proof.
  unfold str_eqb. destruct (str_eq_dec a b); split; congruence.
Qed.

Lemma in_list_In (x : str) (l : list str) : in_list x l = true <-> In x l.
Proof.
  unfold in_list. rewrite existsb_exists. split.
  - intros [y [Hy E]]. apply str_eqb_eq in E. now subst.
  - intros H. exists x. split; [assumption | apply str_eqb_refl].
Qed.

(** ** The classifier *)

(** The classifier in one statement: the first recognized code found is
    the primary one, the first other code found the secondary one. *)
Lemma clasificar_cases (l : list str) :
  match filter (fun cif => in_list cif CIFS_LIST) l with
  | [] => clasificar l = SinIdentificar
  | p :: _ =>
      match filter (fun cif => negb (str_eqb cif p)) l with
      | [] => clasificar l = Unico p
      | s :: _ => clasificar l = Doble p s
      end
  end.
Proof.
  unfold clasificar.
  destruct (filter (fun cif => in_list cif CIFS_LIST) l) as [|p ps]; [reflexivity|].
  destruct (filter (fun cif => negb (str_eqb cif p)) l); reflexivity.
Qed.

Lemma filter_nil_iff {A} (f : A -> bool) (l : list A) :
  filter f l = [] <-> forall x, In x l -> f x = false.
Proof.
  induction l as [|a l IH]; simpl.
  - split; [intros _ x []| reflexivity].
  - destruct (f a) eqn:E; split.
    + discriminate.
    + intros H. rewrite (H a) in E; [discriminate | now left].
    + intros H x [<-|Hx]; [assumption | now apply IH].
    + intros H. apply IH. intros x Hx. apply H. now right.
Qed.

Lemma filter_head_In {A} (f : A -> bool) (l : list A) (x : A) (r : list A) :
  filter f l = x :: r -> In x l /\ f x = true.
Proof.
  intros E. apply filter_In. rewrite E. now left.
Qed.

(** C5: no recognized code among the codes found, however many were
    found: the destination is the unidentified folder. *)
Theorem C5_no_recognized_goes_unidentified
  (base_dir : str) (cifs_encontrados : list str) :
  (forall cif, In cif cifs_encontrados -> ~ In cif CIFS_LIST) ->
  clasificar cifs_encontrados = SinIdentificar /\
  destination_folder base_dir cifs_encontrados
  = os_path_join base_dir [UNIDENTIFIED_FOLDER_NAME].
Proof.
  intros H.
  assert (E : clasificar cifs_encontrados = SinIdentificar).
  { pose proof (clasificar_cases cifs_encontrados) as C.
    destruct (filter (fun cif => in_list cif CIFS_LIST) cifs_encontrados)
      as [|p ps] eqn:F; [exact C|].
    apply filter_head_In in F. destruct F as [Hin Hrec].
    apply in_list_In in Hrec. now elim (H p). }
  split; [exact E|]. unfold destination_folder. now rewrite E.
Qed.

Lemma C5_witness :
  clasificar [str_of "B12345678"; str_of "G00000000"] = SinIdentificar /\
  destination_folder (str_of "/tmp/w") [str_of "B12345678"; str_of "G00000000"]
  = os_path_join (str_of "/tmp/w") [UNIDENTIFIED_FOLDER_NAME].
Proof.
  apply C5_no_recognized_goes_unidentified.
  intros cif Hin Hrec. apply in_list_In in Hrec.
  destruct Hin as [<-|[<-|[]]]; vm_compute in Hrec; discriminate.
Defined.

(** C6: exactly one recognized code and no other code found: the
    destination is the folder of that code, without a sub-folder. *)
Theorem C6_single_code_alone
  (base_dir : str) (cifs_encontrados : list str) (cif : str) :
  In cif cifs_encontrados ->
  In cif CIFS_LIST ->
  (forall other, In other cifs_encontrados -> other = cif) ->
  clasificar cifs_encontrados = Unico cif /\
  destination_folder base_dir cifs_encontrados = os_path_join base_dir [cif].
Proof.
  intros Hin Hrec Honly.
  assert (E : clasificar cifs_encontrados = Unico cif).
  { pose proof (clasificar_cases cifs_encontrados) as C.
    destruct (filter (fun c => in_list c CIFS_LIST) cifs_encontrados)
      as [|p ps] eqn:F.
    - rewrite filter_nil_iff in F. apply in_list_In in Hrec.
      rewrite (F cif Hin) in Hrec. discriminate.
    - apply filter_head_In in F. destruct F as [Hp _].
      apply Honly in Hp. subst p.
      destruct (filter (fun c => negb (str_eqb c cif)) cifs_encontrados)
        as [|s ss] eqn:G; [exact C|].
      apply filter_head_In in G. destruct G as [Hs Hne].
      apply Honly in Hs. subst s. now rewrite str_eqb_refl in Hne. }
  split; [exact E|]. unfold destination_folder. now rewrite E.
Qed.

Lemma C6_witness :
  clasificar [str_of "B85536134"] = Unico (str_of "B85536134") /\
  destination_folder (str_of "/tmp/w") [str_of "B85536134"]
  = os_path_join (str_of "/tmp/w") [str_of "B85536134"].
Proof.
  apply C6_single_code_alone.
  - now left.
  - apply in_list_In. vm_compute. reflexivity.
  - intros other [<-|[]]. reflexivity.
Defined.

(** C1: one recognized code and at least one other code found: the
    recognized code is the primary one, the first of the remaining codes
    found is the secondary one (recognized or not), and the destination
    is the folder of the secondary code inside that of the primary. *)
Theorem C1_recognized_plus_other
  (base_dir : str) (cifs_encontrados : list str) (recognized : str) :
  In recognized cifs_encontrados ->
  In recognized CIFS_LIST ->
  (forall cif, In cif cifs_encontrados -> In cif CIFS_LIST -> cif = recognized) ->
  (exists other, In other cifs_encontrados /\ other <> recognized) ->
  exists secondary rest,
    filter (fun cif => negb (str_eqb cif recognized)) cifs_encontrados
    = secondary :: rest /\
    clasificar cifs_encontrados = Doble recognized secondary /\
    destination_folder base_dir cifs_encontrados
    = os_path_join base_dir [recognized; secondary].
Proof.
  intros Hin Hrec Hone [other [Hother Hne]].
  pose proof (clasificar_cases cifs_encontrados) as C.
  destruct (filter (fun c => in_list c CIFS_LIST) cifs_encontrados)
    as [|p ps] eqn:F.
  - rewrite filter_nil_iff in F. apply in_list_In in Hrec.
    rewrite (F recognized Hin) in Hrec. discriminate.
  - apply filter_head_In in F. destruct F as [Hp Hprec].
    apply in_list_In in Hprec. specialize (Hone p Hp Hprec). subst p.
    destruct (filter (fun c => negb (str_eqb c recognized)) cifs_encontrados)
      as [|s ss] eqn:G.
    + rewrite filter_nil_iff in G. specialize (G other Hother).
      apply negb_false_iff, str_eqb_eq in G. contradiction.
    + exists s, ss. split; [reflexivity|]. split; [exact C|].
      unfold destination_folder. now rewrite C.
Qed.

Lemma C1_witness :
  exists secondary rest,
    filter (fun cif => negb (str_eqb cif (str_of "A80652928")))
      [str_of "B99999999"; str_of "A80652928"; str_of "G11111111"]
    = secondary :: rest /\
    clasificar [str_of "B99999999"; str_of "A80652928"; str_of "G11111111"]
    = Doble (str_of "A80652928") secondary /\
    destination_folder (str_of "/tmp/w")
      [str_of "B99999999"; str_of "A80652928"; str_of "G11111111"]
    = os_path_join (str_of "/tmp/w") [str_of "A80652928"; secondary].
Proof.
  apply C1_recognized_plus_other.
  - right. now left.
  - apply in_list_In. vm_compute. reflexivity.
  - intros cif Hin Hrec. apply in_list_In in Hrec.
    destruct Hin as [<-|[<-|[<-|[]]]];
      solve [reflexivity | vm_compute in Hrec; discriminate].
  - exists (str_of "B99999999"). split; [now left | discriminate].
Defined.

(** ** The matcher *)

Lemma ABG_not_digit (c : ascii) : is_ABG c = true -> is_digit c = false.
Proof.
  unfold is_ABG, is_digit, between. intros H.
  repeat (apply orb_prop in H; destruct H as [H|H]);
    apply Nat.eqb_eq in H; rewrite H; reflexivity.
Qed.

Lemma ABG_not_noise (c : ascii) : is_ABG c = true -> is_noise c = false.
Proof.
  unfold is_ABG, is_noise, is_space, between. intros H.
  repeat (apply orb_prop in H; destruct H as [H|H]);
    apply Nat.eqb_eq in H; rewrite H; reflexivity.
Qed.

Lemma digit_bounds (c : ascii) :
  is_digit c = true <-> 48 <= code c <= 57.
Proof.
  unfold is_digit, between.
  rewrite andb_true_iff, !Nat.leb_le. reflexivity.
Qed.

Lemma digit_not_noise (c : ascii) : is_digit c = true -> is_noise c = false.
Proof.
  rewrite digit_bounds. intros H.
  unfold is_noise, is_space, between.
  repeat match goal with
  | |- context [?a <=? ?b] =>
      let E := fresh in destruct (Nat.leb_spec a b) as [E|E]
  | |- context [?a =? ?b] =>
      let E := fresh in destruct (Nat.eqb_spec a b) as [E|E]
  end; simpl; try reflexivity; lia.
Qed.

Lemma digit_upper (c : ascii) : is_digit c = true -> upper_char c = c.
Proof.
  rewrite digit_bounds. intros H. unfold upper_char, between.
  destruct (Nat.leb_spec 97 (code c)); [lia | reflexivity].
Qed.

Lemma firstn_exact {A} (l t : list A) : firstn (length l) (l ++ t) = l.
Proof.
  rewrite firstn_app, firstn_all, Nat.sub_diag. simpl. apply app_nil_r.
Qed.

Lemma match_at_prefix (s t : str) :
  is_cif s = true -> match_at (s ++ t) = true /\ firstn 9 (s ++ t) = s.
Proof.
  unfold is_cif. rewrite andb_true_iff, Nat.eqb_eq. intros [M L].
  split; [|rewrite <- L; apply firstn_exact].
  destruct s as [|c r]; [discriminate|].
  assert (Lr : length r = 8) by (simpl in L; lia).
  unfold match_at in M. rewrite <- Lr, firstn_all in M.
  apply andb_true_iff in M. destruct M as [M D].
  apply andb_true_iff in M. destruct M as [M _].
  change ((c :: r) ++ t) with (c :: (r ++ t)). unfold match_at.
  rewrite M, <- Lr at 1. rewrite <- Lr, firstn_exact, D, length_app.
  rewrite andb_true_r. simpl. apply Nat.leb_le. lia.
Qed.

Lemma match_at_digits (c : ascii) (r : str) :
  match_at (c :: r) = true ->
  is_ABG c = true /\ 8 <= length r /\ Forall (fun x => is_digit x = true) (firstn 8 r).
Proof.
  unfold match_at.
  rewrite !andb_true_iff, Nat.leb_le, forallb_forall, Forall_forall.
  tauto.
Qed.

Lemma findall_from_O (c : ascii) (r : str) :
  findall_from 0 (c :: r)
  = if match_at (c :: r) then firstn 9 (c :: r) :: findall_from 8 r
    else findall_from 0 r.
Proof. reflexivity. Qed.

Lemma findall_from_S (k : nat) (c : ascii) (r : str) :
  findall_from (S k) (c :: r) = findall_from k r.
Proof. reflexivity. Qed.

(** [findall] misses no occurrence: an occurrence cannot begin inside
    an earlier match, whose characters after the first are digits. *)
Lemma findall_from_complete (cif post : str) :
  is_cif cif = true ->
  forall (pre : str) (skip : nat),
    Forall (fun x => is_digit x = true) (firstn skip (pre ++ cif ++ post)) ->
    In cif (findall_from skip (pre ++ cif ++ post)).
Proof.
  intros Hc. induction pre as [|a pre IH]; intros skip Hd.
  - rewrite app_nil_l in *.
    destruct (match_at_prefix cif post Hc) as [M F].
    destruct (cif ++ post) as [|c r] eqn:E; [discriminate|].
    destruct skip as [|k].
    + rewrite findall_from_O, M, F. now left.
    + rewrite firstn_cons in Hd. inversion Hd as [|? ? Hdc _]; subst.
      apply match_at_digits in M. destruct M as [M _].
      apply ABG_not_digit in M. congruence.
  - rewrite <- app_comm_cons in *. destruct skip as [|k].
    + rewrite findall_from_O.
      destruct (match_at (a :: pre ++ cif ++ post)) eqn:M.
      * right. apply IH. now apply match_at_digits in M.
      * apply IH. constructor.
    + rewrite findall_from_S. apply IH.
      rewrite firstn_cons in Hd. now inversion Hd.
Qed.

Lemma findall_complete (pre cif post : str) :
  is_cif cif = true -> In cif (findall (pre ++ cif ++ post)).
Proof.
  intros H. apply findall_from_complete; [assumption | constructor].
Qed.

Lemma is_cif_clean (s : str) : is_cif s = true -> limpiar s = s.
Proof.
  unfold is_cif. rewrite andb_true_iff, Nat.eqb_eq. intros [M L].
  destruct s as [|c r]; [discriminate|].
  apply match_at_digits in M. destruct M as [A [_ D]].
  assert (Lr : length r = 8) by (simpl in L; lia).
  rewrite <- Lr, firstn_all in D.
  unfold limpiar. simpl. rewrite (ABG_not_noise _ A). simpl. f_equal.
  clear -D. induction D as [|x r Hx _ IH]; [reflexivity|].
  simpl. rewrite (digit_not_noise _ Hx). simpl. now f_equal.
Qed.

Lemma limpiar_app (s t : str) : limpiar (s ++ t) = limpiar s ++ limpiar t.
Proof. apply filter_app. Qed.

Lemma interspersed_clean (s t : str) :
  interspersed s t -> limpiar t = limpiar s.
Proof.
  induction 1 as [|c s t N _ IH|c s t _ IH]; simpl.
  - reflexivity.
  - rewrite N. exact IH.
  - destruct (is_noise c); simpl; now rewrite IH.
Qed.

(** C3: a code in the canonical format, in either case and with
    whitespace, dots, underscores or hyphens between its characters, is
    found wherever it stands in the text: the matcher returns it in
    upper case. *)
Theorem C3_matcher_finds_spaced_code
  (set_order : list str -> list str) (pre mid post cif : str) :
  set_order_spec set_order ->
  is_cif cif = true ->
  interspersed cif mid ->
  In (upper cif) (buscar_cif_en_texto set_order (pre ++ mid ++ post)).
Proof.
  intros Hset Hc Hmid. unfold buscar_cif_en_texto.
  apply Hset. apply in_map.
  rewrite !limpiar_app, (interspersed_clean _ _ Hmid), (is_cif_clean _ Hc).
  now apply findall_complete.
Qed.

Lemma dedup_spec : set_order_spec dedup.
Proof.
  intros l. split; [apply NoDup_nodup | apply nodup_In].
Qed.

Lemma C3_witness :
  In (upper (str_of "b85536134"))
     (buscar_cif_en_texto dedup
        (str_of "Factura n. 17 CIF: " ++ str_of "b 8553-61.34" ++ str_of " Total")).
Proof.
  apply C3_matcher_finds_spaced_code.
  - exact dedup_spec.
  - reflexivity.
  - unfold str_of; simpl. interspersed_tac.
Defined.

Lemma leer_paginas_raises (pages : list page) :
  In PageRaises pages ->
  forall texto_completo, leer_paginas pages texto_completo = Raise PdfError.
Proof.
  induction pages as [|pg rest IH]; intros Hin acc; [destruct Hin|].
  destruct Hin as [->|Hin]; [reflexivity|].
  destruct pg as [[[|c t]|]|]; simpl; auto.
Qed.

(** C4: a file that cannot be opened, or one of whose pages cannot be
    parsed, makes the extraction return the empty list instead of
    raising, and the document is classified as unidentified. *)
Theorem C4_unreadable_pdf_yields_no_match
  (set_order : list str -> list str) (base_dir : str) (doc : pdf) :
  unreadable doc ->
  buscar_cif_en_pdf set_order doc = [] /\
  clasificar (buscar_cif_en_pdf set_order doc) = SinIdentificar /\
  destination_folder base_dir (buscar_cif_en_pdf set_order doc)
  = os_path_join base_dir [UNIDENTIFIED_FOLDER_NAME].
Proof.
  intros H.
  assert (E : buscar_cif_en_pdf set_order doc = []).
  { unfold buscar_cif_en_pdf.
    destruct H as [->|[pages [-> Hin]]]; [reflexivity|].
    simpl. now rewrite leer_paginas_raises. }
  rewrite E. repeat split.
Qed.

Lemma C4_witness :
  buscar_cif_en_pdf dedup
    (Pages [PageText (Some (str_of "B85536134")); PageRaises]) = [] /\
  clasificar (buscar_cif_en_pdf dedup
    (Pages [PageText (Some (str_of "B85536134")); PageRaises])) = SinIdentificar /\
  destination_folder (str_of "/tmp/w") (buscar_cif_en_pdf dedup
    (Pages [PageText (Some (str_of "B85536134")); PageRaises]))
  = os_path_join (str_of "/tmp/w") [UNIDENTIFIED_FOLDER_NAME].
Proof.
  apply C4_unreadable_pdf_yields_no_match.
  right. eexists. split; [reflexivity | right; now left].
Defined.

(** ** Destinations stay below the working directory *)

Lemma findall_from_sound (s : str) :
  forall skip m, In m (findall_from skip s) -> is_cif m = true.
Proof.
  induction s as [|c r IH]; intros skip m Hin; [destruct Hin|].
  destruct skip as [|k].
  - rewrite findall_from_O in Hin.
    destruct (match_at (c :: r)) eqn:M; [|now apply IH in Hin].
    destruct Hin as [<-|Hin]; [|now apply IH in Hin].
    apply match_at_digits in M. destruct M as [A [L D]].
    rewrite firstn_cons. unfold is_cif, match_at.
    rewrite firstn_firstn, Nat.min_id, A.
    change (length (c :: firstn 8 r)) with (S (length (firstn 8 r))).
    rewrite length_firstn, Nat.min_l by assumption.
    simpl. apply andb_true_iff. split; [|reflexivity].
    apply forallb_forall. now apply Forall_forall.
  - rewrite findall_from_S in Hin. now apply IH in Hin.
Qed.

Lemma code_inj (c : ascii) (n : nat) : code c = n -> c = ascii_of_nat n.
Proof.
  intros <-. unfold code. symmetry. apply ascii_nat_embedding.
Qed.

Lemma upper_is_codigo (m : str) : is_cif m = true -> is_codigo (upper m) = true.
Proof.
  unfold is_cif. rewrite andb_true_iff, Nat.eqb_eq. intros [M L].
  destruct m as [|c r]; [discriminate|].
  apply match_at_digits in M. destruct M as [A [_ D]].
  assert (Lr : length r = 8) by (simpl in L; lia).
  rewrite <- Lr, firstn_all in D.
  unfold upper, is_codigo. rewrite map_cons, length_map, Lr.
  assert (U : map upper_char r = r).
  { clear -D. induction D as [|x r Hx _ IH]; [reflexivity|].
    simpl. now rewrite (digit_upper _ Hx), IH. }
  rewrite U.
  assert (Dr : forallb is_digit r = true)
    by (apply forallb_forall; now apply Forall_forall).
  rewrite Dr, andb_true_r. simpl Nat.eqb. rewrite andb_true_r.
  unfold is_ABG in A.
  repeat (apply orb_prop in A; destruct A as [A|A]);
    apply Nat.eqb_eq, code_inj in A; subst c; reflexivity.
Qed.

Lemma buscar_gives_codigos (set_order : list str -> list str) (doc : pdf) :
  set_order_spec set_order ->
  forall cif, In cif (buscar_cif_en_pdf set_order doc) -> is_codigo cif = true.
Proof.
  intros Hset cif. unfold buscar_cif_en_pdf.
  destruct (extraer_texto doc) as [texto|e]; [|intros []].
  unfold buscar_cif_en_texto. intros Hin.
  destruct (Hset (map upper (findall (limpiar texto)))) as [_ Hiff].
  apply Hiff in Hin. apply in_map_iff in Hin. destruct Hin as [m [<- Hm]].
  apply upper_is_codigo. unfold findall in Hm.
  now apply findall_from_sound in Hm.
Qed.

Lemma componentes_from_found (l : list str) :
  Forall (fun n => In n l \/ n = UNIDENTIFIED_FOLDER_NAME)
         (componentes (clasificar l)).
Proof.
  pose proof (clasificar_cases l) as C.
  destruct (filter (fun cif => in_list cif CIFS_LIST) l) as [|p ps] eqn:F.
  - rewrite C. apply Forall_cons; [now right | apply Forall_nil].
  - apply filter_head_In in F. destruct F as [Hp _].
    destruct (filter (fun cif => negb (str_eqb cif p)) l) as [|s ss] eqn:G;
      rewrite C.
    + apply Forall_cons; [now left | apply Forall_nil].
    + apply filter_head_In in G. destruct G as [Hs _].
      apply Forall_cons; [now left|].
      apply Forall_cons; [now left | apply Forall_nil].
Qed.

Lemma codigo_safe (n : str) : is_codigo n = true -> safe_component n = true.
Proof.
  destruct n as [|c r]; [discriminate|]. unfold is_codigo.
  rewrite !andb_true_iff, Nat.eqb_eq. intros [[A L] D].
  unfold safe_component. rewrite !andb_true_iff.
  split; [split; [split|]|].
  - apply negb_true_iff, str_eqb_neq. discriminate.
  - apply negb_true_iff, str_eqb_neq. intros E.
    apply (f_equal (@length ascii)) in E. simpl in E. lia.
  - apply negb_true_iff, str_eqb_neq. intros E.
    apply (f_equal (@length ascii)) in E. simpl in E. lia.
  - simpl. apply andb_true_iff. split.
    + repeat (apply orb_prop in A; destruct A as [A|A]);
        apply Nat.eqb_eq in A; rewrite A; reflexivity.
    + apply forallb_forall. intros x Hx.
      rewrite forallb_forall in D. specialize (D x Hx).
      apply digit_bounds in D. apply negb_true_iff, Nat.eqb_neq. lia.
Qed.

Lemma safe_not_empty (n : str) : safe_component n = true -> n <> [].
Proof.
  unfold safe_component. rewrite !andb_true_iff.
  intros [[[E _] _] _]. now apply negb_true_iff, str_eqb_neq in E.
Qed.

Lemma safe_no_slash (n : str) (c : ascii) :
  safe_component n = true -> In c n -> c <> slash.
Proof.
  unfold safe_component. rewrite !andb_true_iff, forallb_forall.
  intros [_ H] Hin ->. specialize (H _ Hin). discriminate.
Qed.

Lemma safe_not_absolute (n : str) :
  safe_component n = true -> startswith n sep = false.
Proof.
  intros H. destruct n as [|c r]; [reflexivity|].
  unfold startswith. apply str_eqb_neq. simpl. intros E.
  injection E as E. apply (safe_no_slash _ c H (or_introl eq_refl)). exact E.
Qed.

Lemma endswith_sep_app (x n : str) :
  safe_component n = true -> endswith (x ++ n) sep = false.
Proof.
  intros H. destruct (exists_last (safe_not_empty _ H)) as [n' [c ->]].
  unfold endswith. apply andb_false_iff. right. apply str_eqb_neq.
  rewrite app_assoc, length_app. simpl length.
  replace (length (x ++ n') + 1 - 1) with (length (x ++ n') + 0) by lia.
  rewrite skipn_app, Nat.add_0_r, skipn_all, Nat.sub_diag. simpl.
  intros E. injection E as E.
  apply (safe_no_slash _ c H); [|exact E].
  apply in_or_app. right. now left.
Qed.

Lemma join_step_safe (base_dir n : str) :
  safe_component n = true -> join_step base_dir n = dir_prefix base_dir ++ n.
Proof.
  intros H. unfold join_step, dir_prefix.
  rewrite (safe_not_absolute _ H).
  destruct base_dir as [|c r]; [reflexivity|].
  destruct (endswith (c :: r) sep); [reflexivity|].
  now rewrite <- app_assoc.
Qed.

Lemma dir_prefix_app (x n : str) :
  safe_component n = true -> dir_prefix (x ++ n) = x ++ n ++ sep.
Proof.
  intros H. unfold dir_prefix. rewrite (endswith_sep_app x _ H).
  destruct (x ++ n) eqn:E.
  - apply app_eq_nil in E. destruct E as [_ E].
    now elim (safe_not_empty _ H).
  - rewrite <- E. now rewrite app_assoc.
Qed.

(** [os.path.join] of safe components only appends. *)
Lemma os_path_join_safe (comps : list str) :
  Forall (fun n => safe_component n = true) comps -> comps <> [] ->
  forall base_dir,
    os_path_join base_dir comps = dir_prefix base_dir ++ relpath comps.
Proof.
  induction 1 as [|n rest Hn Hrest IH]; intros Hne base_dir; [congruence|].
  unfold os_path_join in *. simpl fold_left.
  rewrite (join_step_safe _ _ Hn).
  destruct rest as [|n' rest']; [reflexivity|].
  rewrite IH by discriminate. rewrite (dir_prefix_app _ _ Hn).
  change (relpath (n :: n' :: rest'))
    with (n ++ sep ++ relpath (n' :: rest')).
  now rewrite <- !app_assoc.
Qed.

(** C10: whatever the PDF holds, the destination is made of one or two
    components, each a code (a letter of A, B, G and eight digits) or the
    unidentified folder's name; the destination folder and the target of
    every move therefore lie strictly below the working directory. *)
Theorem C10_destination_inside_base_dir
  (set_order : list str -> list str) (base_dir : str) (doc : pdf)
  (file_to_move : str) :
  set_order_spec set_order ->
  safe_component file_to_move = true ->
  let cifs_encontrados := buscar_cif_en_pdf set_order doc in
  let destination := destination_folder base_dir cifs_encontrados in
  Forall (fun n => is_codigo n = true \/ n = UNIDENTIFIED_FOLDER_NAME)
         (componentes (clasificar cifs_encontrados)) /\
  strictly_inside base_dir destination /\
  strictly_inside base_dir (os_path_join destination [file_to_move]).
Proof.
  intros Hset Hfile cifs destination.
  assert (Hc : Forall (fun n => is_codigo n = true \/ n = UNIDENTIFIED_FOLDER_NAME)
                 (componentes (clasificar cifs))).
  { eapply Forall_impl; [|apply componentes_from_found].
    intros n [Hin | ->]; [left | now right].
    now apply (buscar_gives_codigos set_order doc Hset). }
  assert (Hs : Forall (fun n => safe_component n = true)
                 (componentes (clasificar cifs))).
  { eapply Forall_impl; [|exact Hc].
    intros n [H| ->]; [now apply codigo_safe | reflexivity]. }
  assert (Hne : componentes (clasificar cifs) <> [])
    by (destruct (clasificar cifs); discriminate).
  split; [exact Hc|]. split.
  - exists (componentes (clasificar cifs)). repeat split; try assumption.
    now apply os_path_join_safe.
  - exists (componentes (clasificar cifs) ++ [file_to_move]). repeat split.
    + intros E. now apply app_eq_nil in E.
    + apply Forall_app. split; [assumption | now constructor].
    + subst destination. unfold destination_folder, os_path_join.
      rewrite <- fold_left_app. apply os_path_join_safe.
      * apply Forall_app. split; [assumption | now constructor].
      * intros E. now apply app_eq_nil in E.
Qed.

Lemma C10_witness :
  let cifs_encontrados :=
    buscar_cif_en_pdf dedup
      (Pages [PageText (Some (str_of "A-806 529 28 / b99999999"))]) in
  let destination := destination_folder (str_of "/tmp/w") cifs_encontrados in
  Forall (fun n => is_codigo n = true \/ n = UNIDENTIFIED_FOLDER_NAME)
         (componentes (clasificar cifs_encontrados)) /\
  strictly_inside (str_of "/tmp/w") destination /\
  strictly_inside (str_of "/tmp/w")
    (os_path_join destination [str_of "invoice 1.xlsx"]).
Proof.
  apply C10_destination_inside_base_dir.
  - exact dedup_spec.
  - reflexivity.
Defined.

(** ** Directories *)

Section DirectoryFacts.

Variable content : Type.

Local Abbreviation node := (node content).
Local Abbreviation directory := (directory content).

Lemma dir_get_app (n : str) (done rest : directory) :
  ~ In n (dir_names done) -> dir_get n (done ++ rest) = dir_get n rest.
Proof.
  induction done as [|[m v] done IH]; intros H; [reflexivity|].
  simpl in *. destruct (str_eqb m n) eqn:E.
  - apply str_eqb_eq in E. tauto.
  - apply IH. tauto.
Qed.

Lemma dir_get_here (n : str) (v : node) (rest : directory) :
  dir_get n ((n, v) :: rest) = Some v.
Proof. simpl. now rewrite str_eqb_refl. Qed.

Lemma dir_put_app (n : str) (v w : node) (done rest : directory) :
  ~ In n (dir_names done) ->
  dir_put n v (done ++ (n, w) :: rest) = done ++ (n, v) :: rest.
Proof.
  induction done as [|[m u] done IH]; intros H; simpl in *.
  - now rewrite str_eqb_refl.
  - destruct (str_eqb m n) eqn:E.
    + apply str_eqb_eq in E. tauto.
    + f_equal. apply IH. tauto.
Qed.

Lemma dir_remove_absent (n : str) (d : directory) :
  ~ In n (dir_names d) -> dir_remove n d = d.
Proof.
  induction d as [|[m u] d IH]; intros H; simpl in *; [reflexivity|].
  destruct (str_eqb m n) eqn:E.
  - apply str_eqb_eq in E. tauto.
  - simpl. f_equal. apply IH. tauto.
Qed.

Lemma dir_remove_app (n : str) (v : node) (done rest : directory) :
  ~ In n (dir_names done) -> ~ In n (dir_names rest) ->
  dir_remove n (done ++ (n, v) :: rest) = done ++ rest.
Proof.
  intros Hd Hr. unfold dir_remove. rewrite filter_app. simpl.
  rewrite str_eqb_refl. simpl.
  fold (dir_remove n done). fold (dir_remove n rest).
  now rewrite !dir_remove_absent.
Qed.

Lemma dir_get_In (n : str) (v : node) (d : directory) :
  dir_get n d = Some v -> In (n, v) d.
Proof.
  induction d as [|[m u] d IH]; simpl; [discriminate|].
  destruct (str_eqb m n) eqn:E.
  - apply str_eqb_eq in E. intros [= ->]. subst. now left.
  - intros H. right. now apply IH.
Qed.

Lemma unique_cons (n : str) (names : list str) :
  unique (n :: names) = true <-> ~ In n names /\ unique names = true.
Proof.
  simpl. rewrite andb_true_iff, negb_true_iff.
  rewrite <- in_list_In. destruct (in_list n names); intuition congruence.
Qed.

Lemma In_dir_get (n : str) (v : node) (d : directory) :
  unique (dir_names d) = true -> In (n, v) d -> dir_get n d = Some v.
Proof.
  induction d as [|[m u] d IH]; intros U Hin; [destruct Hin|].
  simpl dir_names in U. apply unique_cons in U. destruct U as [Hm U].
  destruct Hin as [[= -> ->]|Hin]; [apply dir_get_here|].
  simpl. destruct (str_eqb m n) eqn:E; [|now apply IH].
  apply str_eqb_eq in E. subst m. elim Hm.
  change n with (fst (n, v)). now apply in_map.
Qed.

End DirectoryFacts.

(** ** Prune *)

Section PruneFacts.

Variable content : Type.

Local Abbreviation node := (node content).
Local Abbreviation directory := (directory content).
Local Abbreviation estado := (estado content).
Local Abbreviation paso := (@podar_paso content).

Lemma for_each_app {X} (l1 l2 : list X) (body : X -> M content unit)
  (st : estado) :
  for_each (l1 ++ l2) body st
  = match for_each l1 body st with
    | Ok (_, st') => for_each l2 body st'
    | Raise e => Raise e
    end.
Proof.
  revert st. induction l1 as [|x l1 IH]; intros st; [reflexivity|].
  simpl. unfold bind. destruct (body x st) as [[[] st']|e]; [apply IH | reflexivity].
Qed.

Lemma for_each_cons {X} (x : X) (l : list X) (body : X -> M content unit)
  (st : estado) :
  for_each (x :: l) body st
  = match body x st with
    | Ok (_, st') => for_each l body st'
    | Raise e => Raise e
    end.
Proof. reflexivity. Qed.

Lemma for_each_nil {X} (body : X -> M content unit) (st : estado) :
  for_each [] body st = Ok (tt, st).
Proof. reflexivity. Qed.

Lemma walk_bottomup_Dir (d : directory) :
  walk_bottomup (Dir d) = walk_below d ++ [[]].
Proof. reflexivity. Qed.

Lemma walk_below_cons (n : str) (c : node) (rest : directory) :
  walk_below ((n, c) :: rest)
  = map (cons n) (walk_bottomup c) ++ walk_below rest.
Proof. reflexivity. Qed.

Lemma unlink_gives_dir (p : path) (d : directory) (t : node) :
  unlink p (Dir d) = Ok t -> exists d', t = Dir d'.
Proof.
  destruct p as [|n [|m q]]; simpl.
  - discriminate.
  - destruct (dir_get n d); [|discriminate]. intros [= <-]. eauto.
  - destruct (dir_get n d) as [child|]; [|discriminate].
    destruct (match child with File _ => _ | Dir _ => _ end); [|discriminate].
    intros [= <-]. eauto.
Qed.

Lemma dir_put_same (n : str) (v : node) (d : directory) :
  dir_get n d = Some v -> dir_put n v d = d.
Proof.
  induction d as [|[m u] d IH]; simpl; [discriminate|].
  destruct (str_eqb m n) eqn:E.
  - intros [= ->]. reflexivity.
  - intros H. f_equal. now apply IH.
Qed.

Lemma dir_put_put (n : str) (v w : node) (d : directory) :
  dir_put n v (dir_put n w d) = dir_put n v d.
Proof.
  induction d as [|[m u] d IH]; simpl.
  - now rewrite str_eqb_refl.
  - destruct (str_eqb m n) eqn:E; simpl; rewrite E; [reflexivity | now f_equal].
Qed.

Lemma dir_get_put (n : str) (v : node) (d : directory) :
  dir_get n (dir_put n v d) = Some v.
Proof.
  induction d as [|[m u] d IH]; simpl.
  - now rewrite str_eqb_refl.
  - destruct (str_eqb m n) eqn:E; simpl; rewrite E; [reflexivity | exact IH].
Qed.

Lemma lookup_below (n : str) (q : path) (d : directory) (child : node) :
  dir_get n d = Some child -> lookup (n :: q) (Dir d) = lookup q child.
Proof. intros G. simpl. now rewrite G. Qed.

Lemma os_listdir_below (n : str) (q : path) (d cd : directory) :
  dir_get n d = Some (Dir cd) -> os_listdir (n :: q) d = os_listdir q cd.
Proof. intros G. unfold os_listdir. now rewrite (lookup_below _ _ _ _ G). Qed.

Lemma os_rmdir_below (n m : str) (q : path) (d cd : directory) :
  dir_get n d = Some (Dir cd) ->
  os_rmdir (n :: m :: q) d
  = match os_rmdir (m :: q) cd with
    | Ok cd' => Ok (dir_put n (Dir cd') d)
    | Raise e => Raise e
    end.
Proof.
  intros G. unfold os_rmdir. rewrite (lookup_below _ _ _ _ G).
  destruct (lookup (m :: q) (Dir cd)) as [[c|[|e l]]|]; try reflexivity.
  change (unlink (n :: m :: q) (Dir d))
    with (match dir_get n d with
          | None => Raise FileNotFoundError
          | Some child =>
              match unlink (m :: q) child with
              | Ok child' => Ok (Dir (dir_put n child' d))
              | Raise e => Raise e
              end
          end).
  rewrite G.
  destruct (unlink (m :: q) (Dir cd)) as [t|e] eqn:U; [|reflexivity].
  destruct (unlink_gives_dir _ _ _ U) as [d' ->]. reflexivity.
Qed.

(** A step below the entry [n] is the step inside that entry. *)
Lemma podar_paso_below (n m : str) (q : path) (d cd : directory)
  (log : list log_entry) :
  dir_get n d = Some (Dir cd) ->
  podar_paso (n :: m :: q) (Estado d log)
  = match podar_paso (m :: q) (Estado cd log) with
    | Ok (_, st) => Ok (tt, Estado (dir_put n (Dir (fs st)) d) (log_messages st))
    | Raise e => Raise e
    end.
Proof.
  intros G. unfold podar_paso, bind, try_read. cbn [fs].
  rewrite (os_listdir_below _ _ _ _ G).
  destruct (os_listdir (m :: q) cd) as [[|x l]|e]; [| |reflexivity].
  - unfold update, append. cbn [fs log_messages].
    rewrite (os_rmdir_below _ _ _ _ _ G).
    destruct (os_rmdir (m :: q) cd) as [cd'|e]; reflexivity.
  - unfold ret. cbn [fs log_messages]. now rewrite (dir_put_same _ _ _ G).
Qed.

Lemma walk_below_nonempty (d : directory) :
  Forall (fun q => q <> []) (walk_below d).
Proof.
  apply Forall_forall. intros q Hq. unfold walk_below in Hq.
  apply in_flat_map in Hq. destruct Hq as [e [_ Hq]].
  apply in_map_iff in Hq. destruct Hq as [q' [<- _]]. discriminate.
Qed.

(** The steps below the entry [n] are the steps inside that entry. *)
Lemma for_each_below (n : str) (qs : list path) :
  Forall (fun q => q <> []) qs ->
  forall (d cd : directory) (log : list log_entry),
    dir_get n d = Some (Dir cd) ->
    for_each (map (cons n) qs) paso (Estado d log)
    = match for_each qs paso (Estado cd log) with
      | Ok (_, st) =>
          Ok (tt, Estado (dir_put n (Dir (fs st)) d) (log_messages st))
      | Raise e => Raise e
      end.
Proof.
  induction 1 as [|q qs Hq _ IH]; intros d cd log G.
  - simpl map. rewrite !for_each_nil. cbn [fs log_messages].
    now rewrite (dir_put_same _ _ _ G).
  - destruct q as [|m q]; [congruence|].
    rewrite map_cons, !for_each_cons.
    rewrite (podar_paso_below _ _ _ _ _ _ G).
    destruct (podar_paso (m :: q) (Estado cd log)) as [[[] [cd1 log1]]|e];
      [|reflexivity].
    cbn [fs log_messages].
    rewrite (IH (dir_put n (Dir cd1) d) cd1 log1 (dir_get_put _ _ _)).
    match goal with
    | |- match ?run with Ok _ => _ | Raise _ => _ end = _ =>
        destruct run as [[[] st]|e]
    end; rewrite ?dir_put_put; reflexivity.
Qed.

Lemma podado_Dir (d : directory) : podado (Dir d) = Dir (podado_entries d).
Proof. reflexivity. Qed.

Lemma podado_entries_cons (n : str) (c : node) (rest : directory) :
  podado_entries ((n, c) :: rest)
  = match podado c with
    | Dir [] => []
    | t' => [(n, t')]
    end ++ podado_entries rest.
Proof. reflexivity. Qed.

Lemma podado_log_cons (n : str) (c : node) (rest : directory) :
  podado_log (Dir ((n, c) :: rest))
  = (podado_log c ++ match podado c with
                     | Dir [] => [LogEliminada n]
                     | _ => []
                     end) ++ podado_log (Dir rest).
Proof. reflexivity. Qed.

(** The step at the entry [n] itself, once the steps inside it are done. *)
Lemma podar_paso_entry (n : str) (cd : directory) (done rest : directory)
  (log : list log_entry) :
  ~ In n (dir_names done) -> ~ In n (dir_names rest) ->
  podar_paso [n] (Estado (done ++ (n, Dir cd) :: rest) log)
  = Ok (tt, Estado (done ++ match cd with
                            | [] => []
                            | _ => [(n, Dir cd)]
                            end ++ rest)
                   (log ++ match cd with
                           | [] => [LogEliminada n]
                           | _ => []
                           end)).
Proof.
  intros Hd Hr.
  assert (G : dir_get n (done ++ (n, Dir cd) :: rest) = Some (Dir cd))
    by (rewrite dir_get_app by assumption; apply dir_get_here).
  unfold podar_paso, bind, try_read, os_listdir. cbn [fs].
  rewrite (lookup_below _ _ _ _ G). cbn [lookup].
  destruct cd as [|e cd].
  - cbn [dir_names map]. unfold update, append, os_rmdir. cbn [fs log_messages].
    rewrite (lookup_below _ _ _ _ G). cbn [lookup unlink]. rewrite G.
    cbn [as_directory]. rewrite dir_remove_app by assumption. reflexivity.
  - cbn [dir_names map]. unfold ret. now rewrite app_nil_r.
Qed.

Lemma podado_entries_names (d : directory) (n : str) :
  In n (dir_names (podado_entries d)) -> In n (dir_names d).
Proof.
  induction d as [|[m c] d IH]; [intros []|].
  rewrite podado_entries_cons. unfold dir_names in *.
  rewrite map_app, in_app_iff. intros [H|H].
  - left. destruct (podado c) as [x|[|e l]]; simpl in H; tauto.
  - right. now apply IH.
Qed.

Lemma snoc_app {A} (l : list A) (x : A) (r : list A) :
  (l ++ [x]) ++ r = l ++ x :: r.
Proof. now rewrite <- app_assoc. Qed.

Lemma podar_entries (todo : directory) :
  Forall (fun e => pruned_as_specified (snd e)) todo ->
  unique (dir_names todo) = true ->
  forallb (fun e => well_formed (snd e)) todo = true ->
  forall (done : directory) (log : list log_entry),
    (forall n, In n (dir_names todo) -> ~ In n (dir_names done)) ->
    for_each (walk_below todo) paso (Estado (done ++ todo) log)
    = Ok (tt, Estado (done ++ podado_entries todo)
                     (log ++ podado_log (Dir todo))).
Proof.
  induction 1 as [|[n c] rest Hc _ IH]; intros U W done log Hdone.
  - unfold walk_below. simpl flat_map. rewrite for_each_nil.
    unfold podado_entries. simpl. now rewrite !app_nil_r.
  - simpl dir_names in U. apply unique_cons in U. destruct U as [Hn U].
    simpl forallb in W. apply andb_true_iff in W. destruct W as [Wc W].
    assert (Hnd : ~ In n (dir_names done)) by (apply Hdone; now left).
    rewrite walk_below_cons, for_each_app, podado_entries_cons, podado_log_cons.
    destruct c as [x|cd].
    + (* a regular file: nothing to visit, the entry stays *)
      cbn [map walk_bottomup]. rewrite for_each_nil.
      specialize (IH U W (done ++ [(n, File x)]) log).
      rewrite !snoc_app in IH.
      cbn [podado podado_log app]. rewrite IH; [reflexivity|].
      intros m Hm. unfold dir_names. rewrite map_app, in_app_iff.
      intros [Hin|[<-|[]]]; [|contradiction].
      apply (Hdone m); [now right | exact Hin].
    + (* a directory: the steps inside it, then the step at it *)
      assert (G : dir_get n (done ++ (n, Dir cd) :: rest) = Some (Dir cd))
        by (rewrite dir_get_app by assumption; apply dir_get_here).
      rewrite walk_bottomup_Dir, map_app, for_each_app.
      rewrite (for_each_below n _ (walk_below_nonempty cd) _ _ _ G).
      rewrite (Hc Wc log). cbn [fs log_messages].
      rewrite dir_put_app by assumption.
      cbn [map]. rewrite for_each_cons.
      rewrite podar_paso_entry by assumption.
      cbv beta iota. rewrite for_each_nil.
      rewrite podado_Dir.
      destruct (podado_entries cd) as [|e cd'] eqn:E.
      * rewrite app_nil_l. rewrite (IH U W done _).
        -- simpl app. now rewrite <- !app_assoc.
        -- intros m Hm. apply Hdone. now right.
      * specialize (IH U W (done ++ [(n, Dir (e :: cd'))])
                      ((log ++ podado_log (Dir cd)) ++ [])).
        rewrite !snoc_app in IH. cbn [app].
        rewrite IH; [now rewrite app_nil_r, <- !app_assoc|].
        intros m Hm. unfold dir_names. rewrite map_app, in_app_iff.
        intros [Hin|[<-|[]]]; [|contradiction].
        apply (Hdone m); [now right | exact Hin].
Qed.

(** Prune computes [podado]: the run of the loop over the walk, with
    its listings and removals, succeeds and leaves the tree without its
    file-less directories. *)
Lemma podar_as_specified (t : node) : pruned_as_specified t.
Proof.
  induction t as [c|d IH] using (node_induction (content := content));
    intros W; [exact I|].
  intros log. simpl in W. apply andb_true_iff in W. destruct W as [U W].
  apply (podar_entries d IH U W [] log). intros n _ [].
Qed.

Lemma podar_refines (root : directory) (log : list log_entry) :
  well_formed (Dir root) = true ->
  podar (Estado root log)
  = Ok (tt, Estado (podado_entries root) (log ++ podado_log (Dir root))).
Proof.
  intros W. unfold podar, bind, read. cbn [fs].
  rewrite walk_bottomup_Dir, for_each_app.
  rewrite (podar_as_specified (Dir root) W log). reflexivity.
Qed.

Lemma podado_entries_idem (d : directory) :
  Forall (fun e => podado (podado (snd e)) = podado (snd e)) d ->
  podado_entries (podado_entries d) = podado_entries d.
Proof.
  induction 1 as [|[n c] rest Hc _ IH]; [reflexivity|].
  rewrite podado_entries_cons. simpl snd in Hc.
  destruct (podado c) as [x|[|e l]] eqn:E.
  - cbn [app]. rewrite podado_entries_cons, Hc, IH. reflexivity.
  - exact IH.
  - cbn [app]. rewrite podado_entries_cons, Hc, IH. reflexivity.
Qed.

Lemma podado_idem (t : node) : podado (podado t) = podado t.
Proof.
  induction t as [c|d IH] using (node_induction (content := content));
    [reflexivity|].
  rewrite !podado_Dir. f_equal. now apply podado_entries_idem.
Qed.

Lemma podado_log_entries (d : directory) :
  Forall (fun e => podado_log (podado (snd e)) = []) d ->
  podado_log (Dir (podado_entries d)) = [].
Proof.
  induction 1 as [|[n c] rest Hc _ IH]; [reflexivity|].
  rewrite podado_entries_cons. simpl snd in Hc.
  pose proof (podado_idem c) as I.
  destruct (podado c) as [x|[|e l]] eqn:E.
  - cbn [app]. rewrite podado_log_cons, Hc, I, IH. reflexivity.
  - exact IH.
  - cbn [app]. rewrite podado_log_cons, Hc, I, IH. reflexivity.
Qed.

(** A pruned tree gives Prune nothing to remove. *)
Lemma podado_log_podado (t : node) : podado_log (podado t) = [].
Proof.
  induction t as [c|d IH] using (node_induction (content := content));
    [reflexivity|].
  rewrite podado_Dir. now apply podado_log_entries.
Qed.

Lemma well_formed_entries (d : directory) :
  Forall (fun e => well_formed (snd e) = true ->
                   well_formed (podado (snd e)) = true) d ->
  unique (dir_names d) = true ->
  forallb (fun e => well_formed (snd e)) d = true ->
  unique (dir_names (podado_entries d)) = true /\
  forallb (fun e => well_formed (snd e)) (podado_entries d) = true.
Proof.
  induction 1 as [|[n c] rest Hc _ IH]; intros U W; [now split|].
  simpl dir_names in U. apply unique_cons in U. destruct U as [Hn U].
  simpl forallb in W. apply andb_true_iff in W. destruct W as [Wc W].
  destruct (IH U W) as [U' W']. simpl snd in Hc. specialize (Hc Wc).
  rewrite podado_entries_cons.
  assert (Hn' : ~ In n (dir_names (podado_entries rest)))
    by (intros H; apply Hn; now apply podado_entries_names).
  destruct (podado c) as [x|[|e l]] eqn:E; cbn [app].
  - split; [apply unique_cons; now split|].
    simpl forallb. now rewrite W'.
  - now split.
  - split; [apply unique_cons; now split|].
    cbn [forallb snd]. now rewrite Hc, W'.
Qed.

Lemma well_formed_podado (t : node) :
  well_formed t = true -> well_formed (podado t) = true.
Proof.
  induction t as [c|d IH] using (node_induction (content := content));
    [reflexivity|].
  intros W. simpl in W. apply andb_true_iff in W. destruct W as [U W].
  rewrite podado_Dir. destruct (well_formed_entries d IH U W) as [U' W'].
  simpl. now rewrite U', W'.
Qed.

(** C8: Prune is idempotent.  On a tree whose directories hold no two
    entries of one name, Prune succeeds; run again on its result it
    succeeds as well, removes nothing and leaves the same tree. *)
Theorem C8_prune_idempotent (root : directory) (log : list log_entry) :
  well_formed (Dir root) = true ->
  exists st : estado,
    podar (Estado root log) = Ok (tt, st) /\
    podar st = Ok (tt, st).
Proof.
  intros W. eexists. split; [now apply podar_refines|].
  pose proof (well_formed_podado _ W) as W'. rewrite podado_Dir in W'.
  rewrite (podar_refines _ _ W').
  pose proof (podado_idem (Dir root)) as I. rewrite !podado_Dir in I.
  injection I as I. rewrite I.
  pose proof (podado_log_podado (Dir root)) as L. rewrite podado_Dir in L.
  now rewrite L, app_nil_r.
Qed.

End PruneFacts.

Lemma C8_witness :
  exists st : estado str,
    podar (Estado [ (str_of "B85536134",
                     Dir [(str_of "invoice1.pdf", File (str_of "%PDF"))]);
                    (str_of "A80652928", Dir [(str_of "G83844316", Dir [])]);
                    (str_of "Sin identificar", Dir []);
                    (str_of "notes.txt", File (str_of "n")) ] [])
    = Ok (tt, st) /\
    podar st = Ok (tt, st).
Proof.
  apply C8_prune_idempotent. reflexivity.
Defined.

(** ** The archive *)

Section ArchiveFacts.

Variable content : Type.
Variable zip_bytes : list (str * content) -> content.

Local Abbreviation node := (node content).
Local Abbreviation directory := (directory content).

Lemma zip_walk_Dir (root : path) (d : directory) :
  zip_walk root (Dir d)
  = files_of root d ++ flat_map (fun e => zip_walk (root ++ [fst e]) (snd e)) d.
Proof. reflexivity. Qed.

Lemma last_cons_cons (n m : str) (q : path) :
  last (n :: m :: q) [] = last (m :: q) [].
Proof. reflexivity. Qed.

(** Every file whose name is not the archive's is written to the
    archive. *)
Lemma zip_walk_complete (p : path) :
  forall (d : directory) (root : path) (c : content),
    lookup p (Dir d) = Some (File c) -> last p [] <> ZIP_NAME ->
    In (relpath (root ++ p), c) (zip_walk root (Dir d)).
Proof.
  induction p as [|n q IH]; intros d root c L N; [discriminate|].
  cbn [lookup] in L.
  destruct (dir_get n d) as [child|] eqn:G; [|discriminate].
  apply dir_get_In in G. rewrite zip_walk_Dir. apply in_or_app.
  destruct q as [|m q].
  - left. injection L as ->. unfold files_of. apply in_flat_map.
    exists (n, File c). split; [exact G|]. cbn [fst snd].
    apply str_eqb_neq in N. cbn [last] in N. rewrite N. now left.
  - right. destruct child as [x|d']; [discriminate|].
    apply in_flat_map. exists (n, Dir d'). split; [exact G|].
    cbn [fst snd]. rewrite <- snoc_app.
    apply IH; [exact L|]. now rewrite last_cons_cons in N.
Qed.

Lemma files_of_sound (root : path) (d : directory) (a : str) (c : content) :
  In (a, c) (files_of root d) ->
  exists n, In (n, File c) d /\ n <> ZIP_NAME /\ a = relpath (root ++ [n]).
Proof.
  unfold files_of. rewrite in_flat_map. intros [[n [x|d']] [Hin H]];
    cbn [fst snd] in H; [|destruct H].
  destruct (str_eqb n ZIP_NAME) eqn:E; [destruct H|].
  destruct H as [[= <- <-]|[]]. exists n. apply str_eqb_neq in E. auto.
Qed.

(** Every entry of the archive is a file of the tree whose name is not
    the archive's, under its relative path. *)
Lemma zip_walk_sound (t : node) :
  well_formed t = true ->
  forall (root : path) (a : str) (c : content),
    In (a, c) (zip_walk root t) ->
    exists p, p <> [] /\ a = relpath (root ++ p) /\
              lookup p t = Some (File c) /\ last p [] <> ZIP_NAME.
Proof.
  induction t as [x|d IH] using (node_induction (content := content));
    intros W root a c Hin; [destruct Hin|].
  simpl in W. apply andb_true_iff in W. destruct W as [U W].
  rewrite zip_walk_Dir in Hin. apply in_app_or in Hin.
  destruct Hin as [Hin|Hin].
  - apply files_of_sound in Hin. destruct Hin as [n [Hn [Hz ->]]].
    exists [n]. repeat split; [discriminate| |exact Hz].
    cbn [lookup]. now rewrite (In_dir_get _ _ _ _ U Hn).
  - apply in_flat_map in Hin. destruct Hin as [[n child] [He Hin]].
    cbn [fst snd] in Hin.
    rewrite Forall_forall in IH. rewrite forallb_forall in W.
    destruct (IH _ He (W _ He) _ _ _ Hin) as [p [Hp [-> [L N]]]].
    exists (n :: p). repeat split.
    + discriminate.
    + now rewrite snoc_app.
    + cbn [lookup]. now rewrite (In_dir_get _ _ _ _ U He).
    + destruct p as [|m q]; [congruence|]. now rewrite last_cons_cons.
Qed.

Lemma dir_get_put_other (n m : str) (v : node) (d : directory) :
  n <> m -> dir_get n (dir_put m v d) = dir_get n d.
Proof.
  intros H. induction d as [|[k u] d IH]; simpl.
  - apply str_eqb_neq in H. destruct (str_eqb m n) eqn:E; [|reflexivity].
    apply str_eqb_eq in E. subst. now rewrite str_eqb_refl in H.
  - destruct (str_eqb k m) eqn:E; simpl.
    + apply str_eqb_eq in E. subst k.
      destruct (str_eqb m n) eqn:E'; [|reflexivity].
      apply str_eqb_eq in E'. congruence.
    + destruct (str_eqb k n); [reflexivity | exact IH].
Qed.

Lemma dir_put_names (m n : str) (v : node) (d : directory) :
  In n (dir_names (dir_put m v d)) <-> n = m \/ In n (dir_names d).
Proof.
  induction d as [|[k u] d IH]; simpl.
  - intuition.
  - destruct (str_eqb k m) eqn:E; simpl.
    + apply str_eqb_eq in E. subst. intuition.
    + rewrite IH. intuition.
Qed.

Lemma well_formed_put (m : str) (c : content) (d : directory) :
  well_formed (Dir d) = true -> well_formed (Dir (dir_put m (File c) d)) = true.
Proof.
  simpl. rewrite !andb_true_iff. intros [U W].
  induction d as [|[k u] d IH]; [now split|].
  simpl dir_names in U. apply unique_cons in U. destruct U as [Hk U].
  simpl forallb in W. apply andb_true_iff in W. destruct W as [Wu W].
  destruct (IH U W) as [U' W']. cbn [dir_put].
  destruct (str_eqb k m) eqn:E.
  - split; [apply unique_cons; now split|]. simpl. exact W.
  - split.
    + simpl dir_names. apply unique_cons. split; [|exact U'].
      rewrite dir_put_names. intros [->|H]; [|contradiction].
      now rewrite str_eqb_refl in E.
    + cbn [forallb snd]. now rewrite Wu, W'.
Qed.

(** Creating the archive file changes no file of another name. *)
Lemma lookup_put_zip (z : content) (root : directory) (p : path) (c : content) :
  (forall d, dir_get ZIP_NAME root <> Some (Dir d)) ->
  last p [] <> ZIP_NAME ->
  lookup p (Dir (dir_put ZIP_NAME (File z) root)) = Some (File c)
  <-> lookup p (Dir root) = Some (File c).
Proof.
  intros Hz N. destruct p as [|n q]; [split; discriminate|].
  cbn [lookup]. destruct (str_eq_dec n ZIP_NAME) as [->|Hn].
  - rewrite dir_get_put.
    destruct q as [|m q]; [now elim N|]. cbn [lookup].
    destruct (dir_get ZIP_NAME root) as [[x|d]|] eqn:G;
      [| now elim (Hz d) |]; split; discriminate.
  - now rewrite dir_get_put_other.
Qed.

(** What lines 150-156 write, on any tree: the files whose name is not
    the archive's name, each under its path relative to the working
    directory, and nothing else.  The test of line 154 is on the bare
    name, at every depth of the walk. *)
Lemma archive_holds_files_not_named_like_it (root : directory) :
  well_formed (Dir root) = true ->
  (forall d, dir_get ZIP_NAME root <> Some (Dir d)) ->
  exists entries root',
    crear_zip zip_bytes root = Ok (entries, root') /\
    (forall p c, lookup p (Dir root) = Some (File c) ->
                 last p [] <> ZIP_NAME -> In (relpath p, c) entries) /\
    (forall a c, In (a, c) entries ->
                 exists p, a = relpath p /\
                           lookup p (Dir root) = Some (File c) /\
                           last p [] <> ZIP_NAME).
Proof.
  intros W Hz. unfold crear_zip.
  destruct (dir_get ZIP_NAME root) as [[x|d]|] eqn:G; [| now elim (Hz d) |].
  all: eexists; eexists; split; [reflexivity|]; split.
  all: try (intros p c L N;
            apply (zip_walk_complete p _ [] c); [|exact N];
            apply lookup_put_zip; [rewrite G; discriminate | exact N | exact L]).
  all: intros a c Hin;
       apply zip_walk_sound in Hin; [|now apply well_formed_put];
       destruct Hin as [p [_ [-> [L N]]]]; exists p;
       repeat split; [|exact N];
       apply lookup_put_zip in L; [exact L | rewrite G; discriminate | exact N].
Qed.

End ArchiveFacts.

Lemma archive_holds_example :
  exists entries root',
    crear_zip empty_zip
      [ (str_of "B85536134",
         Dir [(str_of "invoice1.pdf", File (str_of "%PDF B85536134"));
              (str_of "invoice1.xlsx", File (str_of "cells"))]);
        (str_of "notes.txt", File (str_of "n")) ]
    = Ok (entries, root') /\
    (forall p c,
        lookup p (Dir [ (str_of "B85536134",
                         Dir [(str_of "invoice1.pdf", File (str_of "%PDF B85536134"));
                              (str_of "invoice1.xlsx", File (str_of "cells"))]);
                        (str_of "notes.txt", File (str_of "n")) ])
        = Some (File c) ->
        last p [] <> ZIP_NAME -> In (relpath p, c) entries) /\
    (forall a c, In (a, c) entries ->
       exists p, a = relpath p /\
         lookup p (Dir [ (str_of "B85536134",
                          Dir [(str_of "invoice1.pdf", File (str_of "%PDF B85536134"));
                               (str_of "invoice1.xlsx", File (str_of "cells"))]);
                         (str_of "notes.txt", File (str_of "n")) ])
         = Some (File c) /\
         last p [] <> ZIP_NAME).
Proof.
  apply archive_holds_files_not_named_like_it.
  - reflexivity.
  - intros d. vm_compute. discriminate.
Defined.

(** ** Runs of the program *)

(** C9: the archive does not hold every file that remains in the
    working directory.  Line 154 is meant to keep the archive out of
    itself, but it compares the bare file name at every depth of the
    walk: every file named like the archive is left out, wherever it
    lies.  A file uploaded under the archive's name beside a PDF of its
    base name is moved with the PDF into the folder of its code, is
    still in the tree when the archive is written, and is not in the
    archive, which holds the PDF alone. *)
Theorem C9_file_named_like_the_archive_is_left_out :
  exists s,
    main lector dedup empty_zip
      [ (str_of "facturas_clasificadas.pdf", str_of "%PDF CIF B85536134");
        (str_of "facturas_clasificadas.zip", str_of "PK") ]
    = Ok s /\
    lookup [str_of "B85536134"; ZIP_NAME] (Dir (final_tree s))
    = Some (File (str_of "PK")) /\
    zip_entries s
    = [ (str_of "B85536134/facturas_clasificadas.pdf",
         str_of "%PDF CIF B85536134") ] /\
    ~ archive_complete (zip_entries s) (final_tree s).
Proof.
  eexists. split; [vm_compute; reflexivity|].
  split; [vm_compute; reflexivity|].
  split; [vm_compute; reflexivity|].
  intros H.
  specialize (H [str_of "B85536134"; ZIP_NAME] (str_of "PK")).
  vm_compute in H.
  destruct (H eq_refl) as [E|[]]; discriminate.
Qed.

(** C7: Normalize does not keep the file whose name another file's
    trimmed name equals.  With [" a.pdf"] and ["a.pdf"] in the working
    directory, the rename puts the first in the place of the second,
    whose content is in no file afterwards; the run goes on and the
    archive holds the one file. *)
Theorem C7_rename_overwrites_existing_file :
  limpiar_nombres
    (Estado [ (str_of " a.pdf", File (str_of "%PDF first B85536134"));
              (str_of "a.pdf", File (str_of "%PDF second A80652928")) ] [])
  = Ok (tt, Estado [ (str_of "a.pdf", File (str_of "%PDF first B85536134")) ]
                   [ LogRenombrado (str_of " a.pdf") (str_of "a.pdf") ]) /\
  exists s,
    main lector dedup empty_zip
      [ (str_of " a.pdf", str_of "%PDF first B85536134");
        (str_of "a.pdf", str_of "%PDF second A80652928") ]
    = Ok s /\
    zip_entries s
    = [ (str_of "B85536134/a.pdf", str_of "%PDF first B85536134") ].
Proof.
  split; [vm_compute; reflexivity|].
  eexists. split; vm_compute; reflexivity.
Qed.

(** C2: a file of the PDF's base name is not always put beside the PDF.
    [x.pdf] names the codes A80652928 and B99999999 and goes to
    [A80652928/B99999999]; [B99999999.pdf] names A80652928 alone and
    goes to [A80652928]; the file [B99999999], of the second PDF's base
    name, meets the folder [A80652928/B99999999] at its target and is
    put inside that folder.  When the listing gives the second PDF
    first, the folder cannot be made and the run raises. *)
Theorem C2_sidecar_not_beside_its_pdf :
  (exists s,
     main lector dedup empty_zip
       [ (str_of "x.pdf", str_of "%PDF A80652928 B99999999");
         (str_of "B99999999.pdf", str_of "%PDF A80652928");
         (str_of "B99999999", str_of "notes") ]
     = Ok s /\
     zip_entries s
     = [ (str_of "A80652928/B99999999.pdf", str_of "%PDF A80652928");
         (str_of "A80652928/B99999999/x.pdf", str_of "%PDF A80652928 B99999999");
         (str_of "A80652928/B99999999/B99999999", str_of "notes") ]) /\
  main lector dedup empty_zip
    [ (str_of "B99999999.pdf", str_of "%PDF A80652928");
      (str_of "B99999999", str_of "notes");
      (str_of "x.pdf", str_of "%PDF A80652928 B99999999") ]
  = Raise FileExistsError.
Proof.
  split; [|vm_compute; reflexivity].
  eexists. split; vm_compute; reflexivity.
Qed.

(* ------------------------------------------------------------------ *)
(** * Further properties of the code *)

(** ** The matcher, in full *)

Lemma findall_from_occurs (s : str) :
  forall skip m, In m (findall_from skip s) -> occurs m s.
Proof.
  induction s as [|c r IH]; intros skip m Hin; [destruct Hin|].
  assert (Later : forall k, In m (findall_from k r) -> occurs m (c :: r)).
  { intros k H. destruct (IH k m H) as [pre [post ->]].
    exists (c :: pre), post. reflexivity. }
  destruct skip as [|k].
  - rewrite findall_from_O in Hin.
    destruct (match_at (c :: r)); [|now apply (Later 0)].
    destruct Hin as [<-|Hin]; [|now apply (Later 8)].
    exists [], (skipn 9 (c :: r)). symmetry. apply firstn_skipn.
  - rewrite findall_from_S in Hin. now apply (Later k).
Qed.

(** What [findall] returns: the codes that stand in the text. *)
Lemma findall_iff (s m : str) :
  In m (findall s) <-> is_cif m = true /\ occurs m s.
Proof.
  split.
  - intros H. split.
    + now apply (findall_from_sound s 0).
    + now apply (findall_from_occurs s 0).
  - intros [C [pre [post ->]]]. now apply findall_complete.
Qed.

Lemma buscar_sound (set_order : list str -> list str) (texto x : str) :
  set_order_spec set_order ->
  In x (buscar_cif_en_texto set_order texto) ->
  exists m, is_cif m = true /\ occurs m (limpiar texto) /\ x = upper m.
Proof.
  intros Hset. unfold buscar_cif_en_texto.
  destruct (Hset (map upper (findall (limpiar texto)))) as [_ Hiff].
  rewrite Hiff, in_map_iff.
  intros [m [<- Hm]]. apply findall_iff in Hm. exists m. tauto.
Qed.

Lemma buscar_complete (set_order : list str -> list str) (texto m : str) :
  set_order_spec set_order ->
  is_cif m = true -> occurs m (limpiar texto) ->
  In (upper m) (buscar_cif_en_texto set_order texto).
Proof.
  intros Hset C O. unfold buscar_cif_en_texto.
  destruct (Hset (map upper (findall (limpiar texto)))) as [_ Hiff].
  apply Hiff, in_map, findall_iff. tauto.
Qed.

(** X1: the matcher returns exactly the upper-case forms of the codes
    (a letter of A, B, G in either case and eight digits) that stand in
    the text once whitespace, dots, underscores and hyphens are taken
    out: nothing else, whatever the iteration order of the set. *)
Theorem X1_matcher_returns_exactly_the_codes
  (set_order : list str -> list str) (texto x : str) :
  set_order_spec set_order ->
  In x (buscar_cif_en_texto set_order texto)
  <-> exists m, is_cif m = true /\ occurs m (limpiar texto) /\ x = upper m.
Proof.
  intros Hset. split.
  - now apply buscar_sound.
  - intros [m [C [O ->]]]. now apply buscar_complete.
Qed.

Lemma X1_witness :
  In (str_of "G83844316")
     (buscar_cif_en_texto dedup (str_of "ref 12.g8_3844-316/x"))
  <-> exists m, is_cif m = true /\
                occurs m (limpiar (str_of "ref 12.g8_3844-316/x")) /\
                str_of "G83844316" = upper m.
Proof.
  apply X1_matcher_returns_exactly_the_codes. exact dedup_spec.
Defined.

(** X2: the matcher returns the empty list exactly when no code stands
    in the cleaned text. *)
Theorem X2_matcher_empty_iff_no_code
  (set_order : list str -> list str) (texto : str) :
  set_order_spec set_order ->
  buscar_cif_en_texto set_order texto = []
  <-> forall m, occurs m (limpiar texto) -> is_cif m = false.
Proof.
  intros Hset. split.
  - intros E m O. destruct (is_cif m) eqn:C; [|reflexivity].
    assert (H : In (upper m) (buscar_cif_en_texto set_order texto))
      by now apply buscar_complete.
    rewrite E in H. destruct H.
  - intros H.
    destruct (buscar_cif_en_texto set_order texto) as [|x l] eqn:E;
      [reflexivity|].
    assert (Hx : In x (buscar_cif_en_texto set_order texto))
      by (rewrite E; now left).
    apply (buscar_sound _ _ _ Hset) in Hx. destruct Hx as [m [C [O _]]].
    rewrite (H m O) in C. discriminate.
Qed.

Lemma X2_witness :
  buscar_cif_en_texto dedup (str_of "Total: 1234.56 EUR") = []
  <-> forall m, occurs m (limpiar (str_of "Total: 1234.56 EUR")) ->
                is_cif m = false.
Proof.
  apply X2_matcher_empty_iff_no_code. exact dedup_spec.
Defined.

(** X3: a code that stands in the cleaned text, in whatever case and
    however often, is in the result exactly once, in upper case. *)
Theorem X3_matcher_keeps_one_copy
  (set_order : list str -> list str) (texto m : str) :
  set_order_spec set_order ->
  is_cif m = true ->
  occurs m (limpiar texto) ->
  count_occ str_eq_dec (buscar_cif_en_texto set_order texto) (upper m) = 1.
Proof.
  intros Hset C O.
  assert (Hin : In (upper m) (buscar_cif_en_texto set_order texto))
    by now apply buscar_complete.
  assert (Hnd : NoDup (buscar_cif_en_texto set_order texto))
    by (unfold buscar_cif_en_texto; apply Hset).
  rewrite (NoDup_count_occ str_eq_dec) in Hnd.
  specialize (Hnd (upper m)).
  apply (count_occ_In str_eq_dec) in Hin. lia.
Qed.

Lemma X3_witness :
  count_occ str_eq_dec
    (buscar_cif_en_texto dedup
       (str_of "b85536134 / B-85536134 / B 8553 6134"))
    (upper (str_of "b85536134")) = 1.
Proof.
  apply X3_matcher_keeps_one_copy.
  - exact dedup_spec.
  - reflexivity.
  - exists [], (str_of "/B85536134/B85536134"). reflexivity.
Defined.

Lemma leer_paginas_concat (pages : list page) :
  ~ In PageRaises pages ->
  forall texto_completo,
    leer_paginas pages texto_completo
    = Ok (texto_completo ++ concat (map page_text pages)).
Proof.
  induction pages as [|pg rest IH]; intros H acc.
  - simpl. now rewrite app_nil_r.
  - assert (Hrest : ~ In PageRaises rest) by (intros X; apply H; now right).
    destruct pg as [[[|c t]|]|].
    + simpl. apply (IH Hrest).
    + cbn [leer_paginas map concat page_text].
      rewrite (IH Hrest), <- app_assoc. reflexivity.
    + simpl. apply (IH Hrest).
    + elim H. now left.
Qed.

(** X4: when no page raises, the codes of a PDF are those of the texts
    of its pages put end to end in page order, nothing between them;
    pages without text add nothing.  A code cut by a page break is
    therefore found. *)
Theorem X4_pages_are_joined_without_separator
  (set_order : list str -> list str) (pages : list page) :
  ~ In PageRaises pages ->
  buscar_cif_en_pdf set_order (Pages pages)
  = buscar_cif_en_texto set_order (concat (map page_text pages)).
Proof.
  intros H. unfold buscar_cif_en_pdf, extraer_texto.
  now rewrite (leer_paginas_concat pages H).
Qed.

Lemma X4_witness :
  buscar_cif_en_pdf dedup
    (Pages [PageText (Some (str_of "CIF: B8553")); PageText None;
            PageText (Some []); PageText (Some (str_of "6134 total"))])
  = buscar_cif_en_texto dedup
      (concat (map page_text
         [PageText (Some (str_of "CIF: B8553")); PageText None;
          PageText (Some []); PageText (Some (str_of "6134 total"))])).
Proof.
  apply X4_pages_are_joined_without_separator.
  intros [H|[H|[H|[H|[]]]]]; discriminate.
Defined.

(** ** The classifier, in full *)

(** X5: what a destination tells about the codes found.  The
    unidentified folder: no found code is recognized.  One folder: its
    code was found, is recognized and is the only code found.  Two
    folders: the primary code was found and is recognized, the secondary
    code was found and differs from it. *)
Theorem X5_destination_tells_what_was_found (cifs_encontrados : list str) :
  match clasificar cifs_encontrados with
  | SinIdentificar =>
      forall cif, In cif cifs_encontrados -> ~ In cif CIFS_LIST
  | Unico p =>
      In p cifs_encontrados /\ In p CIFS_LIST /\
      forall cif, In cif cifs_encontrados -> cif = p
  | Doble p s =>
      In p cifs_encontrados /\ In p CIFS_LIST /\
      In s cifs_encontrados /\ s <> p
  end.
Proof.
  pose proof (clasificar_cases cifs_encontrados) as C.
  destruct (filter (fun cif => in_list cif CIFS_LIST) cifs_encontrados)
    as [|p ps] eqn:F.
  - rewrite C. intros cif Hin Hrec. rewrite filter_nil_iff in F.
    apply in_list_In in Hrec. rewrite (F cif Hin) in Hrec. discriminate.
  - apply filter_head_In in F. destruct F as [Hp Hrec].
    apply in_list_In in Hrec.
    destruct (filter (fun cif => negb (str_eqb cif p)) cifs_encontrados)
      as [|s ss] eqn:G; rewrite C.
    + repeat split; try assumption. intros cif Hin.
      rewrite filter_nil_iff in G. specialize (G cif Hin).
      now apply negb_false_iff, str_eqb_eq in G.
    + apply filter_head_In in G. destruct G as [Hs Hne].
      apply negb_true_iff, str_eqb_neq in Hne. repeat split; assumption.
Qed.

Lemma principal_of_first (a : str) (rest : list str) :
  In a CIFS_LIST -> principal (clasificar (a :: rest)) = Some a.
Proof.
  intros Ha. apply in_list_In in Ha.
  unfold clasificar. cbn [filter]. rewrite Ha.
  destruct (if negb (str_eqb a a) then _ else _); reflexivity.
Qed.

Lemma first_of_found (a : str) (l : list str) :
  NoDup l -> In a l ->
  Permutation l (a :: filter (fun x => negb (str_eqb x a)) l).
Proof.
  intros Hnd Ha. apply NoDup_Permutation; [assumption| |].
  - constructor; [|now apply NoDup_filter].
    rewrite filter_In. intros [_ H]. now rewrite str_eqb_refl in H.
  - intros x. simpl. rewrite filter_In, negb_true_iff, str_eqb_neq.
    destruct (str_eq_dec x a) as [->|Hx]; [tauto|].
    split; [tauto|]. intros [E|[H _]]; [congruence | exact H].
Qed.

(** X6: with two recognized codes among those found, the destination is
    not a function of the set of found codes: one iteration order of the
    set makes the first of them the primary code, another one the
    second. *)
Theorem X6_primary_code_depends_on_iteration_order
  (cifs_encontrados : list str) (a b : str) :
  NoDup cifs_encontrados ->
  In a cifs_encontrados -> In b cifs_encontrados ->
  In a CIFS_LIST -> In b CIFS_LIST -> a <> b ->
  exists l1 l2,
    Permutation cifs_encontrados l1 /\ Permutation cifs_encontrados l2 /\
    principal (clasificar l1) = Some a /\
    principal (clasificar l2) = Some b.
Proof.
  intros Hnd Ha Hb Ra Rb _.
  exists (a :: filter (fun x => negb (str_eqb x a)) cifs_encontrados),
         (b :: filter (fun x => negb (str_eqb x b)) cifs_encontrados).
  repeat split.
  - now apply first_of_found.
  - now apply first_of_found.
  - now apply principal_of_first.
  - now apply principal_of_first.
Qed.

Lemma X6_witness :
  exists l1 l2,
    Permutation [str_of "B85536134"; str_of "A80652928"] l1 /\
    Permutation [str_of "B85536134"; str_of "A80652928"] l2 /\
    principal (clasificar l1) = Some (str_of "B85536134") /\
    principal (clasificar l2) = Some (str_of "A80652928").
Proof.
  apply X6_primary_code_depends_on_iteration_order.
  - repeat constructor; simpl; intuition discriminate.
  - now left.
  - right. now left.
  - apply in_list_In. reflexivity.
  - apply in_list_In. reflexivity.
  - discriminate.
Defined.

(** X7: with one recognized code and one other, unrecognized code found
    and nothing else, the destination is the same for every iteration
    order: the folder of the other code inside that of the recognized
    one. *)
Theorem X7_one_recognized_one_other_is_order_free
  (cifs_encontrados : list str) (recognized other : str) :
  In recognized CIFS_LIST -> ~ In other CIFS_LIST ->
  (forall cif, In cif cifs_encontrados <-> cif = recognized \/ cif = other) ->
  clasificar cifs_encontrados = Doble recognized other.
Proof.
  intros Hr Ho Hl.
  assert (Hne : other <> recognized) by (intros ->; contradiction).
  pose proof (clasificar_cases cifs_encontrados) as C.
  destruct (filter (fun cif => in_list cif CIFS_LIST) cifs_encontrados)
    as [|p ps] eqn:F.
  - rewrite filter_nil_iff in F. apply in_list_In in Hr.
    rewrite (F recognized) in Hr; [discriminate|]. apply Hl. now left.
  - apply filter_head_In in F. destruct F as [Hp Hrec].
    apply in_list_In in Hrec. apply Hl in Hp.
    destruct Hp as [->| ->]; [|contradiction].
    destruct (filter (fun cif => negb (str_eqb cif recognized)) cifs_encontrados)
      as [|s ss] eqn:G.
    + rewrite filter_nil_iff in G. specialize (G other).
      rewrite (proj2 (str_eqb_neq other recognized) Hne) in G.
      discriminate G. apply Hl. now right.
    + apply filter_head_In in G. destruct G as [Hs Hsne].
      apply negb_true_iff, str_eqb_neq in Hsne. apply Hl in Hs.
      destruct Hs as [->| ->]; [congruence | exact C].
Qed.

Lemma X7_witness :
  clasificar [str_of "B99999999"; str_of "A80652928"]
  = Doble (str_of "A80652928") (str_of "B99999999").
Proof.
  apply X7_one_recognized_one_other_is_order_free.
  - apply in_list_In. reflexivity.
  - intros H. apply in_list_In in H. discriminate.
  - intros cif. simpl. intuition.
Defined.

(** ** The access gate *)

Section GateFacts.

Variable content : Type.
Variable pdfplumber_open : content -> pdf.
Variable set_order : list str -> list str.
Variable zip_bytes : list (str * content) -> content.

Local Abbreviation the_script := (script pdfplumber_open set_order zip_bytes).
Local Abbreviation the_run := (main pdfplumber_open set_order zip_bytes).

Lemma check_password_true (PASSWORD : option str) (password : str) :
  fst (check_password PASSWORD password) = true <-> PASSWORD = Some password.
Proof.
  unfold check_password. destruct PASSWORD as [p|].
  - destruct (str_eqb password p) eqn:E.
    + apply str_eqb_eq in E. subst. simpl. tauto.
    + apply str_eqb_neq in E.
      destruct password; simpl; split; try discriminate; intros [= ->];
        congruence.
  - destruct password; simpl; split; discriminate.
Qed.

(** X8: a run of the script classifies the uploaded files exactly when
    [APP_PASSWORD] is set, the typed password equals it, files were
    uploaded and the button was pressed; what it shows is then the
    outcome of the run on those files. *)
Theorem X8_files_are_processed_only_behind_the_password
  (env : environ) (password : str) (uploaded_files : list (str * content))
  (pressed : bool) (r : result (salida content)) :
  the_script env password uploaded_files pressed = Resultado r
  <-> os_getenv env (str_of "APP_PASSWORD") = Some password /\
      pressed = true /\ uploaded_files <> [] /\
      r = the_run uploaded_files.
Proof.
  unfold script.
  pose proof (check_password_true
                (os_getenv env (str_of "APP_PASSWORD")) password) as G.
  destruct (check_password (os_getenv env (str_of "APP_PASSWORD")) password)
    as [ok error].
  cbn [fst] in G. destruct ok; cbn [negb].
  - destruct (proj1 G eq_refl). unfold st_button.
    destruct pressed, uploaded_files as [|u us]; cbn [andb negb]; split;
      try discriminate; try (intros [_ [? [? _]]]; congruence).
    + intros [= <-]. repeat split. discriminate.
    + intros [_ [_ [_ ->]]]. reflexivity.
  - split; [discriminate|]. intros [E _]. apply G in E. discriminate.
Qed.

(** X9: with [APP_PASSWORD] not set every typed password is refused and
    the script stops, with the error message as soon as something was
    typed; with [APP_PASSWORD] set to the empty string the gate is open
    before anything is typed. *)
Theorem X9_gate_with_unset_or_empty_password
  (env : environ) (password : str) (uploaded_files : list (str * content))
  (pressed : bool) :
  (os_getenv env (str_of "APP_PASSWORD") = None ->
   the_script env password uploaded_files pressed
   = Detenido content (match password with [] => false | _ => true end)) /\
  (os_getenv env (str_of "APP_PASSWORD") = Some [] ->
   forall error,
     the_script env [] uploaded_files pressed <> Detenido content error).
Proof.
  unfold script. split.
  - intros ->. destruct password; reflexivity.
  - intros -> error. cbn.
    destruct (st_button _ pressed); discriminate.
Qed.

End GateFacts.

(** ** What every phase of a run keeps *)

Lemma componentes_head (l : list str) :
  In (hd [] (componentes (clasificar l))) carpetas.
Proof.
  unfold carpetas. apply in_or_app.
  pose proof (clasificar_cases l) as C.
  destruct (filter (fun cif => in_list cif CIFS_LIST) l) as [|p ps] eqn:F.
  - rewrite C. right. now left.
  - apply filter_head_In in F. destruct F as [_ Hrec].
    apply in_list_In in Hrec. left.
    destruct (filter (fun cif => negb (str_eqb cif p)) l); now rewrite C.
Qed.

Section RunInvariant.

Variable content : Type.
Variable pdfplumber_open : content -> pdf.
Variable set_order : list str -> list str.

Local Abbreviation estado := (estado content).
Local Abbreviation M := (M content).

(** A relation between the states of a run that every primitive step,
    called the way the organizer calls it, respects. *)
Variable R : estado -> estado -> Prop.

Hypothesis R_refl : forall st, R st st.
Hypothesis R_trans : forall a b c, R a b -> R b c -> R a c.
Hypothesis R_append :
  forall st e, R st (Estado (fs st) (log_messages st ++ [e])).
Hypothesis R_makedirs :
  forall st p d,
    In (hd [] p) carpetas -> os_makedirs p (fs st) = Ok d ->
    R st (Estado d (log_messages st)).
Hypothesis R_rename :
  forall st src dst d,
    os_path_isfile [src] (fs st) = true -> os_rename src dst (fs st) = Ok d ->
    R st (Estado d (log_messages st)).
Hypothesis R_move :
  forall st name dest d,
    os_path_isfile [name] (fs st) = true -> In (hd [] dest) carpetas ->
    shutil_move name dest (fs st) = Ok d ->
    R st (Estado d (log_messages st)).
Hypothesis R_rmdir :
  forall st p d,
    os_rmdir p (fs st) = Ok d -> R st (Estado d (log_messages st)).

Lemma estado_eta (st : estado) : Estado (fs st) (log_messages st) = st.
Proof. now destruct st. Qed.

Lemma keeps_ret {A} (a : A) : keeps always R (ret (content := content) a).
Proof. intros st x st' _ [= _ <-]. apply R_refl. Qed.

Lemma keeps_bind {A B} (m : M A) (k : A -> M B) :
  keeps always R m -> (forall a, keeps always R (k a)) ->
  keeps always R (bind m k).
Proof.
  intros Hm Hk st b st' _ H. unfold bind in H.
  destruct (m st) as [[a st1]|e] eqn:E; [|discriminate].
  eapply R_trans; [eapply Hm | eapply Hk]; eauto; exact I.
Qed.

Lemma keeps_for_each {X} (l : list X) (body : X -> M unit) :
  (forall x, keeps always R (body x)) -> keeps always R (for_each l body).
Proof.
  intros Hb. induction l as [|x l IH]; [apply keeps_ret|].
  cbn [for_each]. apply keeps_bind; [apply Hb | intros _; exact IH].
Qed.

Lemma keeps_read {A} (f : directory content -> A) : keeps always R (read f).
Proof. intros st a st' _ [= _ <-]. apply R_refl. Qed.

Lemma keeps_try_read {A} (f : directory content -> result A) :
  keeps always R (try_read f).
Proof.
  intros st a st' _ H. unfold try_read in H.
  destruct (f (fs st)); [|discriminate]. injection H as _ <-. apply R_refl.
Qed.

Lemma keeps_append (e : log_entry) :
  keeps always R (append (content := content) e).
Proof. intros st a st' _ [= _ <-]. apply R_append. Qed.

Lemma keeps_update (P : estado -> Prop)
  (f : directory content -> result (directory content)) :
  (forall st d, P st -> f (fs st) = Ok d -> R st (Estado d (log_messages st))) ->
  keeps P R (update f).
Proof.
  intros Hf st a st' HP H. unfold update in H.
  destruct (f (fs st)) as [d|e] eqn:E; [|discriminate].
  injection H as _ <-. now apply Hf.
Qed.

(** The test [os.path.isfile] before a step passes its result on. *)
Lemma keeps_if_isfile (name : str) (k : M unit) :
  keeps (fun st => os_path_isfile [name] (fs st) = true) R k ->
  keeps always R
    (bind (read (os_path_isfile [name]))
          (fun isfile => if isfile then k else ret tt)).
Proof.
  intros Hk st a st' _ H. unfold bind, read in H.
  destruct (os_path_isfile [name] (fs st)) eqn:F.
  - now apply (Hk st a st' F).
  - injection H as _ <-. apply R_refl.
Qed.

Lemma keeps_crear_carpetas : keeps always R (crear_carpetas (content := content)).
Proof.
  unfold crear_carpetas. intros st a st' _ H.
  assert (G : forall l, incl l carpetas ->
                keeps always R
                  (for_each l (fun folder_name =>
                     update (content := content) (os_makedirs [folder_name])))).
  { induction l as [|x l IH]; intros Hl; [apply keeps_ret|].
    cbn [for_each]. apply keeps_bind.
    - apply keeps_update. intros s d _. apply R_makedirs.
      apply Hl. now left.
    - intros _. apply IH. intros y Hy. apply Hl. now right. }
  apply (G carpetas (incl_refl _) st a st' I H).
Qed.

Lemma keeps_limpiar_nombres :
  keeps always R (limpiar_nombres (content := content)).
Proof.
  unfold limpiar_nombres. apply keeps_bind; [apply keeps_try_read|].
  intros listing. apply keeps_for_each. intros filename.
  apply keeps_if_isfile.
  destruct (str_eqb filename (strip filename)).
  - intros st a st' _ H. now apply (keeps_ret tt st a st' I).
  - intros st a st' F H. unfold bind in H.
    destruct (update (os_rename filename (strip filename)) st)
      as [[[] st1]|e] eqn:U; [|discriminate].
    eapply R_trans.
    + apply (keeps_update _ (os_rename filename (strip filename))
               (fun s d Hs => R_rename s filename (strip filename) d Hs)
               st tt st1 F U).
    + apply (keeps_append _ st1 a st' I H).
Qed.

Lemma keeps_mover_asociados (pdf_basename : str) (destination : path) :
  In (hd [] destination) carpetas ->
  keeps always R (mover_asociados (content := content) pdf_basename destination).
Proof.
  intros Hd. unfold mover_asociados.
  apply keeps_bind; [apply keeps_try_read|].
  intros listing. apply keeps_for_each. intros file_to_move.
  destruct (str_eqb (fst (splitext file_to_move)) pdf_basename);
    [|apply keeps_ret].
  apply keeps_if_isfile. apply keeps_update.
  intros st d F. now apply R_move.
Qed.

Lemma keeps_procesar_pdfs :
  keeps always R (procesar_pdfs pdfplumber_open set_order).
Proof.
  unfold procesar_pdfs. apply keeps_bind; [apply keeps_try_read|].
  intros listing. apply keeps_for_each. intros filename.
  destruct (endswith (lower filename) (str_of ".pdf")); [|apply keeps_ret].
  apply keeps_bind; [apply keeps_read|]. intros doc.
  apply keeps_bind; [apply keeps_append|]. intros _.
  apply keeps_bind.
  - apply keeps_update. intros st d _. apply R_makedirs, componentes_head.
  - intros _. apply keeps_mover_asociados, componentes_head.
Qed.

Lemma keeps_podar : keeps always R (podar (content := content)).
Proof.
  unfold podar. apply keeps_bind; [apply keeps_read|].
  intros dirpaths. apply keeps_for_each. intros dirpath.
  unfold podar_paso. destruct dirpath as [|n q]; [apply keeps_ret|].
  apply keeps_bind; [apply keeps_try_read|].
  intros [|x l]; [|apply keeps_ret].
  apply keeps_bind; [|intros _; apply keeps_append].
  apply keeps_update. intros st d _. apply R_rmdir.
Qed.

(** Whatever the primitive steps respect, the run respects. *)
Lemma keeps_procesar_y_clasificar :
  keeps always R (procesar_y_clasificar pdfplumber_open set_order).
Proof.
  unfold procesar_y_clasificar.
  apply keeps_bind; [apply keeps_crear_carpetas|]. intros _.
  apply keeps_bind; [apply keeps_limpiar_nombres|]. intros _.
  apply keeps_bind; [apply keeps_procesar_pdfs|]. intros _.
  apply keeps_podar.
Qed.

End RunInvariant.

(** X10: the log only grows during a run: what was logged before is
    still there, in its order, before what the run has added. *)
Theorem X10_log_only_grows
  (content : Type) (pdfplumber_open : content -> pdf)
  (set_order : list str -> list str) (st st' : estado content) :
  procesar_y_clasificar pdfplumber_open set_order st = Ok (tt, st') ->
  exists added, log_messages st' = log_messages st ++ added.
Proof.
  intros H.
  apply (keeps_procesar_y_clasificar content pdfplumber_open set_order
           (fun a b => exists added,
                log_messages b = log_messages a ++ added))
    with (a := tt); try exact I; try exact H.
  - intros s. exists []. now rewrite app_nil_r.
  - intros a b c [l1 E1] [l2 E2]. exists (l1 ++ l2).
    now rewrite E2, E1, app_assoc.
  - intros s e. now exists [e].
  - intros s p d _ _. exists []. simpl. now rewrite app_nil_r.
  - intros s src dst d _ _. exists []. simpl. now rewrite app_nil_r.
  - intros s name dest d _ _ _. exists []. simpl. now rewrite app_nil_r.
  - intros s p d _. exists []. simpl. now rewrite app_nil_r.
Qed.

Lemma X10_witness :
  exists st',
    procesar_y_clasificar lector dedup
      (Estado [ (str_of " invoice1.pdf ", File (str_of "%PDF B85536134")) ]
              [ LogEliminada (str_of "earlier") ])
    = Ok (tt, st') /\
    exists added,
      log_messages st'
      = log_messages
          (Estado [ (str_of " invoice1.pdf ", File (str_of "%PDF B85536134")) ]
                  [ LogEliminada (str_of "earlier") ]) ++ added.
Proof.
  eexists. split; [vm_compute; reflexivity|].
  apply (X10_log_only_grows str lector dedup).
  vm_compute. reflexivity.
Defined.

(** ** Where the contents of files come from *)

Section ContentsFacts.

Variable content : Type.

Local Abbreviation node := (node content).
Local Abbreviation directory := (directory content).

Lemma In_contents_Dir (c : content) (d : directory) :
  In c (contents (Dir d))
  <-> exists n v, In (n, v) d /\ In c (contents v).
Proof.
  cbn [contents]. rewrite in_flat_map. split.
  - intros [[n v] [H1 H2]]. now exists n, v.
  - intros [n [v [H1 H2]]]. now exists (n, v).
Qed.

Lemma In_dir_put (e : str * node) (n : str) (v : node) (d : directory) :
  In e (dir_put n v d) -> e = (n, v) \/ In e d.
Proof.
  induction d as [|[m u] d IH]; cbn [dir_put].
  - intros [<-|[]]. now left.
  - destruct (str_eqb m n) eqn:E.
    + apply str_eqb_eq in E. subst m. intros [<-|H]; [now left|].
      right. now right.
    + intros [<-|H]; [right; now left|].
      destruct (IH H); [now left | right; now right].
Qed.

Lemma contents_dir_get (n : str) (v : node) (d : directory) :
  dir_get n d = Some v -> incl (contents v) (contents (Dir d)).
Proof.
  intros G c Hc. apply In_contents_Dir. exists n, v. split; [|exact Hc].
  now apply dir_get_In.
Qed.

Lemma contents_dir_put (n : str) (v : node) (d : directory) :
  incl (contents (Dir (dir_put n v d))) (contents v ++ contents (Dir d)).
Proof.
  intros c Hc. apply In_contents_Dir in Hc. destruct Hc as [m [u [Hin Hc]]].
  apply in_or_app. apply In_dir_put in Hin. destruct Hin as [[= -> ->]|Hin].
  - now left.
  - right. apply In_contents_Dir. now exists m, u.
Qed.

Lemma contents_dir_remove (n : str) (d : directory) :
  incl (contents (Dir (dir_remove n d))) (contents (Dir d)).
Proof.
  intros c Hc. apply In_contents_Dir in Hc. destruct Hc as [m [u [Hin Hc]]].
  apply In_contents_Dir. exists m, u. split; [|exact Hc].
  unfold dir_remove in Hin. now apply filter_In in Hin.
Qed.

Lemma contents_rename_entry (src dst : str) (d : directory) :
  incl (contents (Dir (rename_entry src dst d))) (contents (Dir d)).
Proof.
  intros c Hc. apply In_contents_Dir in Hc. destruct Hc as [m [u [Hin Hc]]].
  unfold rename_entry in Hin. apply in_map_iff in Hin.
  destruct Hin as [[k w] [E Hin]]. cbn [fst snd] in E.
  apply In_contents_Dir. exists k, w. split; [exact Hin|].
  destruct (str_eqb k src); injection E as _ <-; exact Hc.
Qed.

Lemma contents_makedirs (p : path) :
  forall t t' : node,
    makedirs p t = Ok t' -> incl (contents t') (contents t).
Proof.
  induction p as [|n p IH]; intros t t' H.
  - destruct t; [discriminate|]. injection H as <-. apply incl_refl.
  - destruct t as [c|d]; [discriminate|]. cbn [makedirs] in H.
    destruct (makedirs p match dir_get n d with
                         | Some child => child
                         | None => Dir []
                         end) as [child'|e] eqn:E; [|discriminate].
    injection H as <-. apply IH in E.
    intros c Hc. apply contents_dir_put in Hc. apply in_app_or in Hc.
    destruct Hc as [Hc|Hc]; [|exact Hc]. apply E in Hc.
    destruct (dir_get n d) as [child|] eqn:G; [|destruct Hc].
    now apply (contents_dir_get n child d G).
Qed.

Lemma store_cons (n m : str) (q : path) (v : node) (d : directory) :
  store (n :: m :: q) v (Dir d)
  = match dir_get n d with
    | None => Raise FileNotFoundError
    | Some child =>
        match store (m :: q) v child with
        | Ok child' => Ok (Dir (dir_put n child' d))
        | Raise e => Raise e
        end
    end.
Proof. reflexivity. Qed.

Lemma unlink_cons (n m : str) (q : path) (d : directory) :
  unlink (n :: m :: q) (Dir d)
  = match dir_get n d with
    | None => Raise FileNotFoundError
    | Some child =>
        match unlink (m :: q) child with
        | Ok child' => Ok (Dir (dir_put n child' d))
        | Raise e => Raise e
        end
    end.
Proof. reflexivity. Qed.

Lemma contents_store (v : node) (p : path) :
  forall t t' : node,
    store p v t = Ok t' -> incl (contents t') (contents v ++ contents t).
Proof.
  induction p as [|n q IH]; intros t t' H;
    (destruct t as [c|d]; [discriminate|]); [discriminate|].
  destruct q as [|m q].
  - injection H as <-. apply contents_dir_put.
  - rewrite store_cons in H.
    destruct (dir_get n d) as [child|] eqn:G; [|discriminate].
    destruct (store (m :: q) v child) as [child'|e] eqn:E; [|discriminate].
    injection H as <-. apply IH in E.
    intros c Hc. apply contents_dir_put in Hc. apply in_app_or in Hc.
    destruct Hc as [Hc|Hc]; [|apply in_or_app; now right].
    apply E in Hc. apply in_app_or in Hc. apply in_or_app.
    destruct Hc as [Hc|Hc]; [now left | right].
    now apply (contents_dir_get n child d G).
Qed.

Lemma contents_unlink (p : path) :
  forall t t' : node,
    unlink p t = Ok t' -> incl (contents t') (contents t).
Proof.
  induction p as [|n q IH]; intros t t' H;
    (destruct t as [c|d]; [discriminate|]); [discriminate|].
  destruct q as [|m q].
  - cbn [unlink] in H. destruct (dir_get n d); [|discriminate].
    injection H as <-. apply contents_dir_remove.
  - rewrite unlink_cons in H.
    destruct (dir_get n d) as [child|] eqn:G; [|discriminate].
    destruct (unlink (m :: q) child) as [child'|e] eqn:E; [|discriminate].
    injection H as <-. apply IH in E.
    intros c Hc. apply contents_dir_put in Hc. apply in_app_or in Hc.
    destruct Hc as [Hc|Hc]; [|exact Hc].
    apply E in Hc. now apply (contents_dir_get n child d G).
Qed.

Lemma as_directory_Ok (r : result node) (d : directory) :
  as_directory r = Ok d -> r = Ok (Dir d).
Proof.
  destruct r as [[c|d']|e]; try discriminate. now intros [= ->].
Qed.

Lemma os_makedirs_Ok (p : path) (root d : directory) :
  os_makedirs p root = Ok d -> makedirs p (Dir root) = Ok (Dir d).
Proof.
  unfold os_makedirs. destruct (makedirs p (Dir root)) as [[c|d']|e];
    try discriminate. now intros [= ->].
Qed.

Lemma os_rename_Ok (src dst : str) (root d : directory) :
  os_rename src dst root = Ok d ->
  d = root \/ d = rename_entry src dst (dir_remove dst root).
Proof.
  unfold os_rename. destruct (dir_get src root) as [v|]; [|discriminate].
  destruct (str_eqb src dst); [intros [= ->]; now left|].
  destruct (str_eqb dst []); [discriminate|].
  destruct (special_name dst); [discriminate|].
  destruct v as [c|l], (dir_get dst root) as [[c'|[|e l']]|];
    try discriminate; intros [= <-]; now right.
Qed.

Lemma shutil_move_Ok (name : str) (dest : path) (root d : directory) :
  shutil_move name dest root = Ok d ->
  exists src p,
    dir_get name root = Some src /\
    (p = dest ++ [name] \/ p = (dest ++ [name]) ++ [name]) /\
    store p src (Dir (dir_remove name root)) = Ok (Dir d).
Proof.
  unfold shutil_move. destruct (dir_get name root) as [src|]; [|discriminate].
  intros H. exists src.
  destruct (lookup (dest ++ [name]) (Dir root)) as [[c|l]|].
  - exists (dest ++ [name]). apply as_directory_Ok in H. auto.
  - destruct (lookup ((dest ++ [name]) ++ [name]) (Dir root));
      [discriminate|].
    exists ((dest ++ [name]) ++ [name]). apply as_directory_Ok in H. auto.
  - exists (dest ++ [name]). apply as_directory_Ok in H. auto.
Qed.

Lemma os_rmdir_Ok (p : path) (root d : directory) :
  os_rmdir p root = Ok d -> unlink p (Dir root) = Ok (Dir d).
Proof.
  unfold os_rmdir. destruct (lookup p (Dir root)) as [[c|[|e l]]|];
    try discriminate. apply as_directory_Ok.
Qed.

End ContentsFacts.

Section Provenance.

Variable content : Type.
Variable pdfplumber_open : content -> pdf.
Variable set_order : list str -> list str.
Variable zip_bytes : list (str * content) -> content.

Local Abbreviation node := (node content).
Local Abbreviation directory := (directory content).

(** No phase of a run makes up or copies a content: the contents of the
    files after the run are among those before it. *)
Lemma run_contents (st st' : estado content) :
  procesar_y_clasificar pdfplumber_open set_order st = Ok (tt, st') ->
  incl (contents (Dir (fs st'))) (contents (Dir (fs st))).
Proof.
  intros H.
  apply (keeps_procesar_y_clasificar content pdfplumber_open set_order
           (fun a b => incl (contents (Dir (fs b))) (contents (Dir (fs a)))))
    with (a := tt); try exact I; try exact H.
  - intros s. apply incl_refl.
  - intros a b c Hab Hbc. eapply incl_tran; eassumption.
  - intros s e. apply incl_refl.
  - intros s p d _ E. apply os_makedirs_Ok in E.
    now apply contents_makedirs in E.
  - intros s src dst d _ E. apply os_rename_Ok in E.
    destruct E as [->| ->]; [apply incl_refl|]. cbn [fs].
    eapply incl_tran; [apply contents_rename_entry|].
    apply contents_dir_remove.
  - intros s name dest d _ _ E. apply shutil_move_Ok in E.
    destruct E as [src [p [G [_ E]]]]. apply contents_store in E.
    cbn [fs]. intros c Hc. apply E in Hc. apply in_app_or in Hc.
    destruct Hc as [Hc|Hc].
    + now apply (contents_dir_get _ name src (fs s) G).
    + now apply contents_dir_remove in Hc.
  - intros s p d E. apply os_rmdir_Ok in E. now apply contents_unlink in E.
Qed.

Lemma zip_walk_contents (t : node) :
  forall (root : path) (a : str) (c : content),
    In (a, c) (zip_walk root t) -> In c (contents t).
Proof.
  induction t as [x|d IH] using (node_induction (content := content));
    intros root a c Hin; [destruct Hin|].
  rewrite zip_walk_Dir in Hin. apply In_contents_Dir.
  apply in_app_or in Hin. destruct Hin as [Hin|Hin].
  - apply files_of_sound in Hin. destruct Hin as [n [Hn _]].
    exists n, (File c). split; [exact Hn | now left].
  - apply in_flat_map in Hin. destruct Hin as [[n v] [He Hin]].
    exists n, v. split; [exact He|].
    rewrite Forall_forall in IH. exact (IH _ He _ _ _ Hin).
Qed.

Lemma crear_zip_contents (root root' : directory)
  (entries : list (str * content)) :
  crear_zip zip_bytes root = Ok (entries, root') ->
  forall a c, In (a, c) entries -> In c (contents (Dir root)).
Proof.
  unfold crear_zip. intros H a c Hin.
  assert (E : entries
              = zip_walk [] (Dir (dir_put ZIP_NAME (File (zip_bytes [])) root)))
    by (destruct (dir_get ZIP_NAME root) as [[x|d]|]; congruence).
  subst entries. clear H. rewrite zip_walk_Dir in Hin.
  apply In_contents_Dir. apply in_app_or in Hin. destruct Hin as [Hin|Hin].
  - apply files_of_sound in Hin. destruct Hin as [n [Hn [Hz _]]].
    apply In_dir_put in Hn. destruct Hn as [[= -> _]|Hn]; [congruence|].
    exists n, (File c). split; [exact Hn | now left].
  - apply in_flat_map in Hin. destruct Hin as [[n v] [He Hin]].
    apply In_dir_put in He. destruct He as [[= -> ->]|He]; [destruct Hin|].
    exists n, v. split; [exact He|]. now apply zip_walk_contents in Hin.
Qed.

Lemma guardar_contents (uploaded_files : list (str * content)) :
  forall root,
    incl (contents (Dir (fold_left (@guardar content) uploaded_files root)))
         (map snd uploaded_files ++ contents (Dir root)).
Proof.
  induction uploaded_files as [|u us IH]; intros root; [apply incl_refl|].
  cbn [fold_left]. intros c Hc. apply IH in Hc. apply in_app_or in Hc.
  cbn [map]. destruct Hc as [Hc|Hc].
  - right. apply in_or_app. now left.
  - unfold guardar in Hc. apply contents_dir_put in Hc.
    destruct Hc as [<-|Hc]; [now left|].
    right. apply in_or_app. now right.
Qed.

(** X11: nothing is put into the archive but what was uploaded: the
    content of every entry of the archive of a run is the content of one
    of the uploaded files. *)
Theorem X11_archive_holds_only_uploaded_contents
  (uploaded_files : list (str * content)) (s : salida content) :
  main pdfplumber_open set_order zip_bytes uploaded_files = Ok s ->
  forall a c, In (a, c) (zip_entries s) -> In c (map snd uploaded_files).
Proof.
  unfold main. intros H a c Hin.
  destruct (procesar_y_clasificar pdfplumber_open set_order _)
    as [[[] st]|e] eqn:P; [|discriminate].
  destruct (crear_zip zip_bytes (fs st)) as [[entries root]|e] eqn:Z;
    [|discriminate].
  injection H as <-. cbn [zip_entries] in Hin.
  apply (crear_zip_contents _ _ _ Z) in Hin.
  apply run_contents in P. apply P in Hin. cbn [fs] in Hin.
  apply guardar_contents in Hin. now rewrite app_nil_r in Hin.
Qed.

End Provenance.

Lemma X11_witness :
  exists s,
    main lector dedup empty_zip
      [ (str_of "invoice1.pdf", str_of "%PDF B85536134");
        (str_of "invoice1.xlsx", str_of "cells");
        (str_of "notes.txt", str_of "n") ] = Ok s /\
    forall a c, In (a, c) (zip_entries s) ->
      In c (map snd [ (str_of "invoice1.pdf", str_of "%PDF B85536134");
                      (str_of "invoice1.xlsx", str_of "cells");
                      (str_of "notes.txt", str_of "n") ]).
Proof.
  eexists. split; [vm_compute; reflexivity|].
  apply (X11_archive_holds_only_uploaded_contents str lector dedup empty_zip).
  vm_compute. reflexivity.
Defined.

(** ** Setup *)

Section SetupFacts.

Variable content : Type.

Local Abbreviation node := (node content).
Local Abbreviation directory := (directory content).
Local Abbreviation estado := (estado content).

(** [os.makedirs] of one folder of the working directory. *)
Lemma os_makedirs_one (n : str) (root : directory) :
  os_makedirs [n] root
  = match dir_get n root with
    | Some (File _) => Raise FileExistsError
    | Some (Dir _) => Ok root
    | None => Ok (dir_put n (Dir []) root)
    end.
Proof.
  unfold os_makedirs. cbn [makedirs].
  destruct (dir_get n root) as [[c|d]|] eqn:G; try reflexivity.
  now rewrite (dir_put_same _ _ _ _ G).
Qed.

Lemma dir_get_put_eq (n m : str) (v : node) (d : directory) :
  dir_get n (dir_put m v d) = if str_eqb n m then Some v else dir_get n d.
Proof.
  destruct (str_eqb n m) eqn:E.
  - apply str_eqb_eq in E. subst. apply dir_get_put.
  - apply str_eqb_neq in E. now apply dir_get_put_other.
Qed.

Local Abbreviation make_all :=
  (fun l : list str =>
     for_each l (fun folder_name =>
       update (content := content) (os_makedirs [folder_name]))).

Lemma in_list_cons (n x : str) (l : list str) :
  in_list n (x :: l) = str_eqb n x || in_list n l.
Proof. reflexivity. Qed.

(** The loop of Setup when no folder name is taken by a regular file. *)
Lemma setup_loop (l : list str) :
  forall (root : directory) (log : list log_entry),
    (forall n c, In n l -> dir_get n root <> Some (File c)) ->
    exists root',
      make_all l (Estado root log) = Ok (tt, Estado root' log) /\
      forall n,
        dir_get n root'
        = match dir_get n root with
          | Some v => Some v
          | None => if in_list n l then Some (Dir []) else None
          end.
Proof.
  induction l as [|x l IH]; intros root log Hfree.
  - exists root. split; [reflexivity|]. intros n.
    now destruct (dir_get n root).
  - rewrite for_each_cons. unfold update at 1. cbn [fs log_messages].
    rewrite os_makedirs_one.
    destruct (dir_get x root) as [[c|d]|] eqn:G.
    + now elim (Hfree x c (or_introl eq_refl)).
    + destruct (IH root log) as [root' [E Hget]].
      { intros n c Hn. apply Hfree. now right. }
      exists root'. split; [exact E|]. intros n. rewrite Hget.
      destruct (dir_get n root) eqn:Gn; [reflexivity|].
      rewrite in_list_cons. destruct (str_eqb n x) eqn:Enx; [|reflexivity].
      apply str_eqb_eq in Enx. congruence.
    + destruct (IH (dir_put x (Dir []) root) log) as [root' [E Hget]].
      { intros n c Hn. rewrite dir_get_put_eq.
        destruct (str_eqb n x); [discriminate|]. apply Hfree. now right. }
      exists root'. split; [exact E|]. intros n.
      rewrite Hget, dir_get_put_eq, in_list_cons.
      destruct (str_eqb n x) eqn:Enx.
      * apply str_eqb_eq in Enx. subst. now rewrite G.
      * reflexivity.
Qed.

(** The loop of Setup when a folder name is taken by a regular file. *)
Lemma setup_fails (l : list str) :
  forall (root : directory) (log : list log_entry) (n : str) (c : content),
    In n l -> dir_get n root = Some (File c) ->
    make_all l (Estado root log) = Raise FileExistsError.
Proof.
  induction l as [|x l IH]; intros root log n c Hin G; [destruct Hin|].
  rewrite for_each_cons. unfold update at 1. cbn [fs log_messages].
  rewrite os_makedirs_one.
  destruct (dir_get x root) as [[cx|d]|] eqn:Gx; [reflexivity| |].
  - destruct Hin as [->|Hin]; [congruence|]. now apply (IH root log n c).
  - destruct Hin as [->|Hin]; [congruence|].
    apply (IH _ log n c Hin). rewrite dir_get_put_eq.
    destruct (str_eqb n x) eqn:E; [|exact G].
    apply str_eqb_eq in E. congruence.
Qed.

(** X12: when no regular file of the working directory bears the name
    of a folder, Setup succeeds, logs nothing, leaves every entry as it
    was and adds, empty, exactly the folders that were missing. *)
Theorem X12_setup_adds_the_missing_folders
  (root : directory) (log : list log_entry) :
  (forall n c, In n carpetas -> dir_get n root <> Some (File c)) ->
  exists root',
    crear_carpetas (Estado root log) = Ok (tt, Estado root' log) /\
    (forall n, In n carpetas -> exists d, dir_get n root' = Some (Dir d)) /\
    (forall n,
        dir_get n root'
        = match dir_get n root with
          | Some v => Some v
          | None => if in_list n carpetas then Some (Dir []) else None
          end).
Proof.
  intros Hfree. destruct (setup_loop carpetas root log Hfree) as [root' [E H]].
  exists root'. split; [exact E|]. split; [|exact H].
  intros n Hn. rewrite H. apply in_list_In in Hn. rewrite Hn.
  destruct (dir_get n root) as [[c|d]|] eqn:G; eauto.
  apply in_list_In in Hn. now elim (Hfree n c Hn).
Qed.

Lemma setup_noop (l : list str) (root : directory) (log : list log_entry) :
  (forall n, In n l -> exists d, dir_get n root = Some (Dir d)) ->
  make_all l (Estado root log) = Ok (tt, Estado root log).
Proof.
  induction l as [|x l IH]; intros H; [reflexivity|].
  rewrite for_each_cons. unfold update at 1. cbn [fs log_messages].
  rewrite os_makedirs_one.
  destruct (H x (or_introl eq_refl)) as [d ->].
  apply IH. intros n Hn. apply H. now right.
Qed.

(** X13: Setup is idempotent: run on the state it returned, it succeeds
    and returns that state. *)
Theorem X13_setup_idempotent (st st' : estado) :
  crear_carpetas st = Ok (tt, st') -> crear_carpetas st' = Ok (tt, st').
Proof.
  destruct st as [root log]. intros H.
  unfold crear_carpetas in *. fold carpetas in *.
  assert (Hfree : forall n c, In n carpetas -> dir_get n root <> Some (File c)).
  { intros n c Hn G.
    rewrite (setup_fails carpetas root log n c Hn G) in H. discriminate. }
  destruct (setup_loop carpetas root log Hfree) as [root1 [E1 H1]].
  rewrite E1 in H. injection H as <-.
  apply setup_noop. intros n Hn. rewrite H1.
  apply in_list_In in Hn. rewrite Hn.
  destruct (dir_get n root) as [[c|d]|] eqn:G; eauto.
  apply in_list_In in Hn. now elim (Hfree n c Hn).
Qed.

End SetupFacts.

Lemma X12_witness :
  exists root',
    crear_carpetas
      (Estado [ (str_of "B85536134", Dir [(str_of "old.pdf", File (str_of "o"))]);
                (str_of "invoice1.pdf", File (str_of "%PDF")) ] [])
    = Ok (tt, Estado root' []) /\
    (forall n, In n carpetas -> exists d, dir_get n root' = Some (Dir d)) /\
    (forall n,
        dir_get n root'
        = match dir_get n
                  [ (str_of "B85536134",
                     Dir [(str_of "old.pdf", File (str_of "o"))]);
                    (str_of "invoice1.pdf", File (str_of "%PDF")) ] with
          | Some v => Some v
          | None => if in_list n carpetas then Some (Dir []) else None
          end).
Proof.
  apply X12_setup_adds_the_missing_folders.
  intros n c Hn. cbn [dir_get].
  destruct (str_eqb (str_of "B85536134") n); [discriminate|].
  destruct (str_eqb (str_of "invoice1.pdf") n) eqn:E; [|discriminate].
  apply str_eqb_eq in E. subst n. apply in_list_In in Hn. discriminate.
Defined.

Lemma X13_witness :
  exists st',
    crear_carpetas
      (Estado [ (str_of "invoice1.pdf", File (str_of "%PDF")) ] [])
    = Ok (tt, st') /\
    crear_carpetas st' = Ok (tt, st').
Proof.
  eexists. split; [vm_compute; reflexivity|].
  apply (X13_setup_idempotent str
           (Estado [ (str_of "invoice1.pdf", File (str_of "%PDF")) ] [])).
  vm_compute. reflexivity.
Defined.

(** ** The uploaded files *)

Section UploadFacts.

Variable content : Type.
Variable pdfplumber_open : content -> pdf.
Variable set_order : list str -> list str.
Variable zip_bytes : list (str * content) -> content.

Local Abbreviation node := (node content).
Local Abbreviation directory := (directory content).
Local Abbreviation save_all :=
  (fun (ups : list (str * content)) (root : directory) =>
     fold_left (@guardar content) ups root).

Lemma save_all_snoc (ups : list (str * content)) (u : str * content)
  (root : directory) :
  save_all (ups ++ [u]) root = guardar (save_all ups root) u.
Proof. cbn beta. now rewrite fold_left_app. Qed.


Lemma save_all_file (uploaded_files : list (str * content)) (n : str)
  (c : content) :
  In (n, c) uploaded_files ->
  exists c', dir_get n (save_all uploaded_files []) = Some (File c').
Proof.
  induction uploaded_files as [|u ups IH] using rev_ind; [intros []|].
  intros Hin. rewrite save_all_snoc. unfold guardar.
  rewrite dir_get_put_eq. destruct (str_eqb n (fst u)) eqn:E; [eauto|].
  apply in_app_or in Hin. destruct Hin as [Hin|[->|[]]]; [now apply IH|].
  cbn [fst] in E. now rewrite str_eqb_refl in E.
Qed.


End UploadFacts.


(** ** Normalize *)

Lemma lstrip_idem (s : str) : lstrip (lstrip s) = lstrip s.
Proof.
  induction s as [|c s IH]; [reflexivity|]. cbn [lstrip].
  destruct (is_space c) eqn:E; [exact IH|]. cbn [lstrip]. now rewrite E.
Qed.

Lemma lstrip_snoc (s : str) (c : ascii) :
  is_space c = false -> lstrip (s ++ [c]) = lstrip s ++ [c].
Proof.
  intros Hc. induction s as [|x s IH]; cbn [app lstrip].
  - now rewrite Hc.
  - destruct (is_space x); [exact IH | reflexivity].
Qed.

Lemma rstrip_idem (s : str) : rstrip (rstrip s) = rstrip s.
Proof.
  unfold rstrip. now rewrite rev_involutive, lstrip_idem.
Qed.

Lemma rstrip_cons (c : ascii) (s : str) :
  is_space c = false -> rstrip (c :: s) = c :: rstrip s.
Proof.
  intros Hc. unfold rstrip. cbn [rev].
  now rewrite (lstrip_snoc _ _ Hc), rev_app_distr.
Qed.

Lemma lstrip_cases (s : str) :
  lstrip s = [] \/ exists c t, lstrip s = c :: t /\ is_space c = false.
Proof.
  induction s as [|c s IH]; [now left|]. cbn [lstrip].
  destruct (is_space c) eqn:E; [exact IH|]. right. now exists c, s.
Qed.

(** [strip] leaves nothing for a second [strip] to take. *)
Lemma strip_idem (s : str) : strip (strip s) = strip s.
Proof.
  unfold strip. destruct (lstrip_cases s) as [->|[c [t [-> Hc]]]];
    [reflexivity|].
  rewrite (rstrip_cons _ _ Hc). cbn [lstrip]. rewrite Hc.
  now rewrite (rstrip_cons _ _ Hc), rstrip_idem.
Qed.

Section NormalizeFacts.

Variable content : Type.

Local Abbreviation node := (node content).
Local Abbreviation directory := (directory content).
Local Abbreviation estado := (estado content).

Lemma dir_get_remove (n m : str) (d : directory) :
  dir_get n (dir_remove m d)
  = if str_eq_dec n m then None else dir_get n d.
Proof.
  induction d as [|[k u] d IH]; [now destruct (str_eq_dec n m)|].
  unfold dir_remove in *. cbn [filter fst dir_get].
  destruct (str_eqb k m) eqn:Ekm; cbn [negb].
  - apply str_eqb_eq in Ekm. subst k. rewrite IH.
    destruct (str_eq_dec n m) as [->|Hn]; [reflexivity|].
    destruct (str_eqb m n) eqn:E; [|reflexivity].
    apply str_eqb_eq in E. congruence.
  - cbn [dir_get]. destruct (str_eqb k n) eqn:Ekn.
    + apply str_eqb_eq in Ekn. subst k. apply str_eqb_neq in Ekm.
      now destruct (str_eq_dec n m).
    + exact IH.
Qed.

Lemma dir_get_next (n k : str) (u : node) (d : directory) :
  k <> n -> dir_get n ((k, u) :: d) = dir_get n d.
Proof.
  intros H. cbn [dir_get]. apply str_eqb_neq in H. now rewrite H.
Qed.

(** The listing after a rename that took place. *)
Lemma dir_get_renamed (src dst n : str) (d : directory) :
  src <> dst ->
  dir_get n (rename_entry src dst (dir_remove dst d))
  = if str_eq_dec n dst then dir_get src d
    else if str_eq_dec n src then None
    else dir_get n d.
Proof.
  intros Hsd. induction d as [|[k u] d IH].
  - cbn. now destruct (str_eq_dec n dst), (str_eq_dec n src).
  - unfold dir_remove, rename_entry in *. cbn [filter fst].
    destruct (str_eq_dec k dst) as [->|Hkd].
    + rewrite str_eqb_refl. cbn [negb]. rewrite IH.
      rewrite (dir_get_next src dst u d) by congruence.
      destruct (str_eq_dec n dst) as [->|Hnd]; [reflexivity|].
      now rewrite (dir_get_next n dst u d) by congruence.
    + rewrite (proj2 (str_eqb_neq k dst) Hkd). cbn [negb map fst snd].
      destruct (str_eq_dec k src) as [->|Hks].
      * rewrite str_eqb_refl, dir_get_here.
        destruct (str_eq_dec n dst) as [->|Hnd]; [apply dir_get_here|].
        rewrite dir_get_next by congruence. rewrite IH.
        destruct (str_eq_dec n dst); [congruence|].
        destruct (str_eq_dec n src) as [->|Hns]; [reflexivity|].
        now rewrite dir_get_next by congruence.
      * rewrite (proj2 (str_eqb_neq k src) Hks).
        rewrite (dir_get_next src k u d) by assumption.
        destruct (str_eq_dec k n) as [->|Hkn].
        -- rewrite !dir_get_here.
           destruct (str_eq_dec n dst); [congruence|].
           now destruct (str_eq_dec n src).
        -- rewrite !(dir_get_next n k) by assumption. exact IH.
Qed.

Local Abbreviation clean_one :=
  (fun filename : str =>
     bind (read (content := content) (os_path_isfile [filename]))
       (fun isfile : bool =>
          if isfile
          then if str_eqb filename (strip filename)
               then ret tt
               else bind (update (os_rename filename (strip filename)))
                         (fun _ => append
                            (LogRenombrado filename (strip filename)))
          else ret tt)).

(** One turn of the loop of Normalize. *)
Lemma clean_one_step (filename : str) (root : directory)
  (log : list log_entry) :
  clean_one filename (Estado root log)
  = if os_path_isfile [filename] root && negb (str_eqb filename (strip filename))
    then match os_rename filename (strip filename) root with
         | Ok d => Ok (tt, Estado d
                             (log ++ [LogRenombrado filename (strip filename)]))
         | Raise e => Raise e
         end
    else Ok (tt, Estado root log).
Proof.
  unfold bind, read. cbn [fs].
  destruct (os_path_isfile [filename] root); [|reflexivity].
  destruct (str_eqb filename (strip filename)); [reflexivity|].
  cbn [andb negb]. unfold update. cbn [fs log_messages].
  destruct (os_rename filename (strip filename) root); reflexivity.
Qed.

Lemma limpiar_nombres_unfold (root : directory) (log : list log_entry) :
  limpiar_nombres (Estado root log)
  = for_each (dir_names root) clean_one (Estado root log).
Proof. reflexivity. Qed.

Lemma isfile_dir_get (n : str) (root : directory) :
  os_path_isfile [n] root = true <-> exists c, dir_get n root = Some (File c).
Proof.
  unfold os_path_isfile. cbn [lookup].
  destruct (dir_get n root) as [[c|d]|]; split;
    try discriminate; try (intros [c' [=]]); eauto.
Qed.

(** X16: when no regular file of the working directory has a name with
    whitespace at an end, Normalize renames nothing and logs nothing. *)
Theorem X16_normalize_leaves_clean_names_alone
  (root : directory) (log : list log_entry) :
  (forall n c, dir_get n root = Some (File c) -> strip n = n) ->
  limpiar_nombres (Estado root log) = Ok (tt, Estado root log).
Proof.
  intros Hclean. rewrite limpiar_nombres_unfold.
  induction (dir_names root) as [|x l IH]; [reflexivity|].
  rewrite for_each_cons, clean_one_step.
  destruct (os_path_isfile [x] root) eqn:F; [|exact IH].
  apply isfile_dir_get in F. destruct F as [c G].
  rewrite (Hclean x c G), str_eqb_refl. exact IH.
Qed.

Lemma os_rename_file (src dst : str) (root d : directory) :
  os_path_isfile [src] root = true -> src <> dst ->
  os_rename src dst root = Ok d ->
  d = rename_entry src dst (dir_remove dst root) /\
  dst <> [] /\ forall x, dir_get dst root <> Some (Dir x).
Proof.
  intros F Hne. apply isfile_dir_get in F. destruct F as [c G].
  unfold os_rename. rewrite G.
  rewrite (proj2 (str_eqb_neq src dst) Hne).
  destruct (str_eqb dst []) eqn:E; [discriminate|].
  apply str_eqb_neq in E.
  destruct (special_name dst); [discriminate|].
  destruct (dir_get dst root) as [[c'|l]|]; try discriminate;
    intros [= <-]; repeat split; try assumption; discriminate.
Qed.

Lemma normalize_loop (l : list str) :
  forall (root : directory) (log : list log_entry) (st' : estado),
    for_each l clean_one (Estado root log) = Ok (tt, st') ->
    (forall n c, dir_get n root = Some (File c) -> strip n = n \/ In n l) ->
    (forall n c, dir_get n (fs st') = Some (File c) -> strip n = n) /\
    (forall n d, dir_get n (fs st') = Some (Dir d)
                 <-> dir_get n root = Some (Dir d)).
Proof.
  induction l as [|x l IH]; intros root log st' H Hinv.
  - injection H as <-. cbn [fs]. split; [|tauto].
    intros n c G. destruct (Hinv n c G) as [E|[]]. exact E.
  - rewrite for_each_cons, clean_one_step in H.
    destruct (os_path_isfile [x] root) eqn:F; cbn [andb] in H.
    + destruct (str_eqb x (strip x)) eqn:E; cbn [negb] in H.
      * apply str_eqb_eq in E. apply (IH root log st' H).
        intros n c G. destruct (Hinv n c G) as [S|[<-|Hin]]; auto.
      * apply str_eqb_neq in E.
        destruct (os_rename x (strip x) root) as [d|e] eqn:Ren;
          [|discriminate].
        destruct (os_rename_file _ _ _ _ F E Ren) as [-> [_ Hdst]].
        apply isfile_dir_get in F. destruct F as [cx Gx].
        apply IH in H.
        -- destruct H as [H1 H2]. split; [exact H1|].
           intros n d. rewrite H2, (dir_get_renamed _ _ _ _ E).
           destruct (str_eq_dec n (strip x)) as [->|Hn].
           ++ rewrite Gx. split; [discriminate|].
              intros G. now elim (Hdst d).
           ++ destruct (str_eq_dec n x) as [->|Hnx]; [|tauto].
              rewrite Gx. split; discriminate.
        -- intros n c. rewrite (dir_get_renamed _ _ _ _ E).
           destruct (str_eq_dec n (strip x)) as [->|Hn];
             [intros _; left; apply strip_idem|].
           destruct (str_eq_dec n x) as [->|Hnx]; [discriminate|].
           intros G. destruct (Hinv n c G) as [S|[<-|Hin]]; tauto.
    + apply (IH root log st' H). intros n c G.
      destruct (Hinv n c G) as [S|[<-|Hin]]; auto.
      assert (X : os_path_isfile [x] root = true)
        by (apply isfile_dir_get; eauto).
      congruence.
Qed.

(** X17: after Normalize has succeeded, no regular file of the working
    directory has a name with whitespace at an end, and the directories
    of the working directory are those it had, under their names and
    with what they held. *)
Theorem X17_normalize_makes_every_file_name_clean
  (root : directory) (log : list log_entry) (st' : estado) :
  limpiar_nombres (Estado root log) = Ok (tt, st') ->
  (forall n c, dir_get n (fs st') = Some (File c) -> strip n = n) /\
  (forall n d, dir_get n (fs st') = Some (Dir d)
               <-> dir_get n root = Some (Dir d)).
Proof.
  rewrite limpiar_nombres_unfold. intros H.
  apply (normalize_loop _ _ _ _ H).
  intros n c G. right. apply dir_get_In in G.
  change n with (fst (n, File c)). now apply in_map.
Qed.

(** A regular file whose name is made of whitespace only stops the
    loop of Normalize: the rename to the empty name raises, unless an
    earlier rename has raised. *)
Lemma blank_name_stops_the_loop (n : str) :
  n <> [] -> strip n = [] ->
  forall (l : list str) (root : directory) (log : list log_entry) (c : content),
    In n l -> dir_get n root = Some (File c) ->
    exists e, for_each l clean_one (Estado root log) = Raise e.
Proof.
  intros Hn Hs. induction l as [|x l IH]; intros root log c Hin G;
    [destruct Hin|].
  assert (Fn : os_path_isfile [n] root = true)
    by (apply isfile_dir_get; eauto).
  rewrite for_each_cons, clean_one_step.
  destruct (str_eq_dec x n) as [->|Hxn].
  - rewrite Fn, Hs. rewrite (proj2 (str_eqb_neq n []) Hn). cbn [andb negb].
    unfold os_rename. rewrite G, (proj2 (str_eqb_neq n []) Hn).
    cbn. eauto.
  - destruct Hin as [->|Hin]; [congruence|].
    destruct (os_path_isfile [x] root && negb (str_eqb x (strip x))) eqn:Cond;
      [|now apply (IH root log c)].
    apply andb_true_iff in Cond. destruct Cond as [F E].
    apply negb_true_iff, str_eqb_neq in E.
    destruct (os_rename x (strip x) root) as [d|e] eqn:Ren; [|eauto].
    destruct (os_rename_file _ _ _ _ F E Ren) as [-> _].
    apply (IH _ _ c Hin). rewrite (dir_get_renamed _ _ _ _ E).
    destruct (str_eq_dec n (strip x)) as [->|Hns].
    + rewrite strip_idem in Hs. congruence.
    + destruct (str_eq_dec n x); [congruence | exact G].
Qed.

End NormalizeFacts.

Lemma X16_witness :
  limpiar_nombres
    (Estado [ (str_of "invoice 1.pdf", File (str_of "%PDF"));
              (str_of " folder ", Dir []) ] [])
  = Ok (tt, Estado [ (str_of "invoice 1.pdf", File (str_of "%PDF"));
                     (str_of " folder ", Dir []) ] []).
Proof.
  apply X16_normalize_leaves_clean_names_alone.
  intros n c. cbn [dir_get].
  destruct (str_eqb (str_of "invoice 1.pdf") n) eqn:E.
  - apply str_eqb_eq in E. subst n. reflexivity.
  - destruct (str_eqb (str_of " folder ") n); discriminate.
Defined.

Lemma X17_witness :
  exists st',
    limpiar_nombres
      (Estado [ (str_of "  invoice1.pdf", File (str_of "%PDF"));
                (str_of "notes.txt ", File (str_of "n"));
                (str_of "B85536134", Dir []) ] [])
    = Ok (tt, st') /\
    (forall n c, dir_get n (fs st') = Some (File c) -> strip n = n) /\
    (forall n d,
        dir_get n (fs st') = Some (Dir d)
        <-> dir_get n [ (str_of "  invoice1.pdf", File (str_of "%PDF"));
                        (str_of "notes.txt ", File (str_of "n"));
                        (str_of "B85536134", Dir []) ] = Some (Dir d)).
Proof.
  eexists. split; [vm_compute; reflexivity|].
  apply (X17_normalize_makes_every_file_name_clean str _ []).
  vm_compute. reflexivity.
Defined.

Section BlankName.

Variable content : Type.
Variable pdfplumber_open : content -> pdf.
Variable set_order : list str -> list str.
Variable zip_bytes : list (str * content) -> content.

Local Abbreviation directory := (directory content).

Lemma file_among (l : list str) (root : directory) :
  (exists n c, In n l /\ dir_get n root = Some (File c)) \/
  (forall n c, In n l -> dir_get n root <> Some (File c)).
Proof.
  induction l as [|x l [[n [c [Hin G]]]|IH]].
  - right. intros n c [].
  - left. exists n, c. split; [now right | exact G].
  - destruct (dir_get x root) as [[c|d]|] eqn:G.
    + left. exists x, c. split; [now left | exact G].
    + right. intros n c [<-|Hin]; [congruence | now apply IH].
    + right. intros n c [<-|Hin]; [congruence | now apply IH].
Qed.

(** Setup raises, or succeeds and keeps every entry it found. *)
Lemma setup_outcome (root : directory) (log : list log_entry) :
  crear_carpetas (Estado root log) = Raise FileExistsError \/
  exists root',
    crear_carpetas (Estado root log) = Ok (tt, Estado root' log) /\
    forall n v, dir_get n root = Some v -> dir_get n root' = Some v.
Proof.
  unfold crear_carpetas. fold carpetas.
  destruct (file_among carpetas root) as [[n [c [Hin G]]]|Hfree].
  - left. now apply (setup_fails content carpetas root log n c).
  - right. destruct (setup_loop content carpetas root log Hfree)
      as [root' [E H]].
    exists root'. split; [exact E|]. intros n v G. now rewrite H, G.
Qed.

(** X18: a file uploaded under a name made of whitespace only aborts the
    run: Normalize asks for a rename to the empty name, which raises,
    unless the run has raised before; nothing is classified and no
    archive is made. *)
Theorem X18_upload_with_a_blank_name_aborts_the_run
  (uploaded_files : list (str * content)) (n : str) (c : content) :
  In (n, c) uploaded_files -> n <> [] -> strip n = [] ->
  exists e,
    main pdfplumber_open set_order zip_bytes uploaded_files = Raise e.
Proof.
  intros Hin Hn Hs.
  destruct (save_all_file content _ _ _ Hin) as [c' G].
  unfold main, procesar_y_clasificar, bind at 1.
  destruct (setup_outcome (fold_left (@guardar content) uploaded_files []) [])
    as [->|[root' [-> Hkeep]]]; [eauto|].
  apply Hkeep in G. unfold bind at 1.
  rewrite limpiar_nombres_unfold.
  destruct (blank_name_stops_the_loop content n Hn Hs
              (dir_names root') root' [] c') as [e ->]; [|exact G|eauto].
  apply dir_get_In in G. change n with (fst (n, File c')). now apply in_map.
Qed.

End BlankName.

Lemma X18_witness :
  exists e,
    main lector dedup empty_zip
      [ (str_of "invoice1.pdf", str_of "%PDF B85536134");
        (str_of "  ", str_of "x") ] = Raise e.
Proof.
  apply (X18_upload_with_a_blank_name_aborts_the_run
           str lector dedup empty_zip _ (str_of "  ") (str_of "x")).
  - right. now left.
  - discriminate.
  - reflexivity.
Defined.

(** ** Classify&Move *)

Section MoveFacts.

Variable content : Type.
Variable pdfplumber_open : content -> pdf.
Variable set_order : list str -> list str.

Local Abbreviation node := (node content).
Local Abbreviation directory := (directory content).
Local Abbreviation estado := (estado content).

Lemma procesar_pdfs_unfold (root : directory) (log : list log_entry) :
  procesar_pdfs pdfplumber_open set_order (Estado root log)
  = for_each (dir_names root)
      (fun filename =>
         if endswith (lower filename) (str_of ".pdf")
         then
           bind (read (abrir pdfplumber_open filename))
             (fun doc =>
                bind (append
                        (log_de filename
                           (clasificar (buscar_cif_en_pdf set_order doc))))
                  (fun _ =>
                     bind (update
                             (os_makedirs
                                (componentes
                                   (clasificar
                                      (buscar_cif_en_pdf set_order doc)))))
                       (fun _ =>
                          mover_asociados (fst (splitext filename))
                            (componentes
                               (clasificar
                                  (buscar_cif_en_pdf set_order doc))))))
         else ret tt)
      (Estado root log).
Proof. reflexivity. Qed.

(** X19: when no name in the working directory ends in [.pdf], in
    whatever case, Classify&Move moves nothing, makes no folder and logs
    nothing: files without a PDF stay where they are. *)
Theorem X19_without_pdf_nothing_moves
  (root : directory) (log : list log_entry) :
  (forall n, In n (dir_names root) ->
             endswith (lower n) (str_of ".pdf") = false) ->
  procesar_pdfs pdfplumber_open set_order (Estado root log)
  = Ok (tt, Estado root log).
Proof.
  intros H. rewrite procesar_pdfs_unfold.
  induction (dir_names root) as [|x l IH]; [reflexivity|].
  rewrite for_each_cons, (H x (or_introl eq_refl)).
  apply IH. intros n Hn. apply H. now right.
Qed.

End MoveFacts.

Section MoveBeside.

Variable content : Type.

Local Abbreviation node := (node content).
Local Abbreviation directory := (directory content).
Local Abbreviation estado := (estado content).

Lemma lookup_app (p q : path) :
  forall t : node,
    lookup (p ++ q) t
    = match lookup p t with
      | Some t' => lookup q t'
      | None => None
      end.
Proof.
  induction p as [|n p IH]; intros t; [reflexivity|].
  cbn [app lookup]. destruct t as [c|d]; [reflexivity|].
  destruct (dir_get n d); [apply IH | reflexivity].
Qed.

Lemma lookup_head_is_dir (h : str) (tl : path) (d dd : directory)
  (c : content) :
  lookup (h :: tl) (Dir d) = Some (Dir dd) -> dir_get h d <> Some (File c).
Proof.
  cbn [lookup]. intros L G. rewrite G in L.
  destruct tl; discriminate.
Qed.

(** A node stored in a directory that is there. *)
Lemma store_in (n : str) (v : node) (p : path) :
  forall (t : node) (dd : directory),
    lookup p t = Some (Dir dd) ->
    exists t',
      store (p ++ [n]) v t = Ok t' /\
      lookup p t' = Some (Dir (dir_put n v dd)) /\
      forall h tl d, p = h :: tl -> t = Dir d ->
                     exists child', t' = Dir (dir_put h child' d).
Proof.
  induction p as [|h tl IH]; intros t dd L.
  - injection L as ->. exists (Dir (dir_put n v dd)).
    repeat split. intros h tl d [=].
  - destruct t as [c|d]; [discriminate|]. cbn [lookup] in L.
    destruct (dir_get h d) as [child|] eqn:G; [|discriminate].
    destruct (IH child dd L) as [child' [S [L' _]]].
    exists (Dir (dir_put h child' d)). split; [|split].
    + cbn [app]. destruct (tl ++ [n]) as [|m q] eqn:E.
      * destruct tl; discriminate.
      * rewrite store_cons, G, S. reflexivity.
    + cbn [lookup]. now rewrite dir_get_put.
    + intros h' tl' d' [= <- <-] [= <-]. now exists child'.
Qed.

Lemma lookup_after_remove (x h : str) (tl : path) (d : directory) :
  h <> x ->
  lookup (h :: tl) (Dir (dir_remove x d)) = lookup (h :: tl) (Dir d).
Proof.
  intros H. cbn [lookup]. rewrite dir_get_remove.
  now destruct (str_eq_dec h x).
Qed.

(** [shutil.move] of a regular file into a folder that holds no folder
    of the file's name. *)
Lemma shutil_move_beside (x h : str) (tl : path) (root dd : directory)
  (c : content) :
  dir_get x root = Some (File c) ->
  lookup (h :: tl) (Dir root) = Some (Dir dd) ->
  (forall y, dir_get x dd <> Some (Dir y)) ->
  exists child',
    shutil_move x (h :: tl) root
    = Ok (dir_put h child' (dir_remove x root)) /\
    lookup (h :: tl) (Dir (dir_put h child' (dir_remove x root)))
    = Some (Dir (dir_put x (File c) dd)).
Proof.
  intros G L Hfree.
  assert (Hhx : h <> x).
  { intros ->. now apply (lookup_head_is_dir x tl root dd c L). }
  assert (Ldst : lookup ((h :: tl) ++ [x]) (Dir root) = dir_get x dd).
  { rewrite lookup_app, L. cbn [lookup]. now destruct (dir_get x dd). }
  destruct (store_in x (File c) (h :: tl) (Dir (dir_remove x root)) dd)
    as [t' [S [L' Shape]]].
  { now rewrite lookup_after_remove. }
  destruct (Shape h tl _ eq_refl eq_refl) as [child' ->].
  exists child'. split; [|exact L'].
  unfold shutil_move. rewrite G. cbv zeta. rewrite Ldst.
  destruct (dir_get x dd) as [[c'|y]|] eqn:Gx.
  - cbv iota. rewrite ?Ldst, S. reflexivity.
  - now elim (Hfree y).
  - cbv iota. rewrite ?Ldst, S. reflexivity.
Qed.

Lemma lookup_in_dest (n : str) (p : path) (t : node) (dd : directory) :
  lookup p t = Some (Dir dd) -> lookup (p ++ [n]) t = dir_get n dd.
Proof.
  intros L. rewrite lookup_app, L. cbn [lookup].
  now destruct (dir_get n dd).
Qed.

Local Abbreviation move_one :=
  (fun (pdf_basename : str) (destination : path) (file_to_move : str) =>
     if str_eqb (fst (splitext file_to_move)) pdf_basename
     then bind (read (content := content) (os_path_isfile [file_to_move]))
            (fun isfile : bool =>
               if isfile
               then update (shutil_move file_to_move destination)
               else ret tt)
     else ret tt).

Lemma mover_asociados_unfold (b : str) (dest : path) (root : directory)
  (log : list log_entry) :
  mover_asociados b dest (Estado root log)
  = for_each (dir_names root) (move_one b dest) (Estado root log).
Proof. reflexivity. Qed.

(** One turn of the loop that moves the files. *)
Lemma move_one_step (b : str) (dest : path) (x : str) (root : directory)
  (log : list log_entry) :
  move_one b dest x (Estado root log)
  = if str_eqb (fst (splitext x)) b && os_path_isfile [x] root
    then match shutil_move x dest root with
         | Ok d => Ok (tt, Estado d log)
         | Raise e => Raise e
         end
    else Ok (tt, Estado root log).
Proof.
  cbv beta. destruct (str_eqb (fst (splitext x)) b); [|reflexivity].
  unfold bind, read. cbn [fs andb].
  destruct (os_path_isfile [x] root); [|reflexivity].
  unfold update. cbn [fs log_messages].
  destruct (shutil_move x dest root); reflexivity.
Qed.

Section MoveLoop.

Variable root0 : directory.
Variable b h : str.
Variable tl : path.
Variable dd0 : directory.

Hypothesis no_folder_in_the_way :
  forall n c y,
    dir_get n root0 = Some (File c) -> fst (splitext n) = b ->
    dir_get n dd0 <> Some (Dir y).

Lemma move_loop (l : list str) :
  forall (root : directory) (log : list log_entry),
    (exists dd,
        lookup (h :: tl) (Dir root) = Some (Dir dd) /\
        forall n y, dir_get n dd = Some (Dir y) -> dir_get n dd0 = Some (Dir y)) ->
    (forall n c,
        dir_get n root0 = Some (File c) -> fst (splitext n) = b ->
        (In n l /\ dir_get n root = Some (File c)) \/
        (lookup ((h :: tl) ++ [n]) (Dir root) = Some (File c) /\
         dir_get n root = None)) ->
    (forall n,
        n <> h ->
        (forall c, dir_get n root0 = Some (File c) -> fst (splitext n) <> b) ->
        dir_get n root = dir_get n root0) ->
    exists root',
      for_each l (move_one b (h :: tl)) (Estado root log)
      = Ok (tt, Estado root' log) /\
      (forall n c,
          dir_get n root0 = Some (File c) -> fst (splitext n) = b ->
          lookup ((h :: tl) ++ [n]) (Dir root') = Some (File c) /\
          dir_get n root' = None) /\
      (forall n,
          n <> h ->
          (forall c, dir_get n root0 = Some (File c) -> fst (splitext n) <> b) ->
          dir_get n root' = dir_get n root0).
Proof.
  induction l as [|x l IH]; intros root log Ha Hb Hc.
  - exists root. split; [reflexivity|]. split; [|exact Hc].
    intros n c G E. destruct (Hb n c G E) as [[[] _]|H]. exact H.
  - rewrite for_each_cons, move_one_step.
    destruct (str_eqb (fst (splitext x)) b && os_path_isfile [x] root)
      eqn:Cond.
    + apply andb_true_iff in Cond. destruct Cond as [E F].
      apply str_eqb_eq in E. apply isfile_dir_get in F.
      destruct F as [cx Gx]. destruct Ha as [dd [L Hdirs]].
      assert (Hxh : x <> h).
      { intros ->. now apply (lookup_head_is_dir h tl root dd cx L). }
      assert (G0 : dir_get x root0 = Some (File cx)).
      { destruct (dir_get x root0) as [[c0|y]|] eqn:G0.
        - destruct (Hb x c0 G0 E) as [[_ G]|[_ G]]; congruence.
        - rewrite (Hc x Hxh) in Gx; [congruence|].
          intros c G. congruence.
        - rewrite (Hc x Hxh) in Gx; [congruence|].
          intros c G. congruence. }
      destruct (shutil_move_beside x h tl root dd cx Gx L)
        as [child' [-> L1]].
      { intros y G. apply Hdirs in G.
        now apply (no_folder_in_the_way x cx y G0 E). }
      assert (Hget : forall n, n <> h ->
                dir_get n (dir_put h child' (dir_remove x root))
                = if str_eq_dec n x then None else dir_get n root).
      { intros n Hn. rewrite dir_get_put_other by assumption.
        apply dir_get_remove. }
      apply IH.
      * exists (dir_put x (File cx) dd). split; [exact L1|].
        intros n y. rewrite dir_get_put_eq.
        destruct (str_eqb n x); [discriminate | apply Hdirs].
      * intros n c G En. rewrite (lookup_in_dest n _ _ _ L1).
        destruct (str_eq_dec n x) as [->|Hnx].
        -- right. assert (c = cx) by congruence. subst c.
           rewrite dir_get_put, (Hget x Hxh).
           now destruct (str_eq_dec x x).
        -- rewrite (dir_get_put_other _ n x) by assumption.
           destruct (Hb n c G En) as [[[<-|Hin] Gn]|[Ln Gn]];
             [congruence| |].
           ++ left. split; [exact Hin|].
              assert (Hnh : n <> h).
              { intros ->.
                now apply (lookup_head_is_dir h tl root dd c L). }
              rewrite (Hget n Hnh). now destruct (str_eq_dec n x).
           ++ right. rewrite (lookup_in_dest n _ _ _ L) in Ln.
              split; [exact Ln|].
              assert (Hnh : n <> h).
              { intros ->. cbn [lookup] in L. rewrite Gn in L.
                discriminate. }
              rewrite (Hget n Hnh). now destruct (str_eq_dec n x).
      * intros n Hnh Hn. rewrite (Hget n Hnh).
        destruct (str_eq_dec n x) as [->|Hnx]; [|now apply Hc].
        now elim (Hn cx G0).
    + apply IH; [exact Ha| |exact Hc].
      intros n c G En. destruct (Hb n c G En) as [[[<-|Hin] Gn]|H]; auto.
      apply andb_false_iff in Cond. destruct Cond as [E|F].
      * apply str_eqb_neq in E. contradiction.
      * assert (X : os_path_isfile [x] root = true)
          by (apply isfile_dir_get; eauto).
        congruence.
Qed.

End MoveLoop.

(** X20: the files that go with a PDF are put beside it.  When the
    destination folder is there and holds no folder named like a
    regular file of the PDF's base name, the move succeeds: every
    regular file of that base name is then in the destination folder,
    under its name and with its content, and no longer in the working
    directory; the other entries of the working directory, the folder
    the destination begins with apart, are as before. *)
Theorem X20_files_of_the_base_name_go_to_the_destination
  (root : directory) (log : list log_entry) (pdf_basename : str)
  (destination : path) (dd : directory) :
  destination <> [] ->
  lookup destination (Dir root) = Some (Dir dd) ->
  (forall n c y,
      dir_get n root = Some (File c) -> fst (splitext n) = pdf_basename ->
      dir_get n dd <> Some (Dir y)) ->
  exists root',
    mover_asociados pdf_basename destination (Estado root log)
    = Ok (tt, Estado root' log) /\
    (forall n c,
        dir_get n root = Some (File c) -> fst (splitext n) = pdf_basename ->
        lookup (destination ++ [n]) (Dir root') = Some (File c) /\
        dir_get n root' = None) /\
    (forall n,
        n <> hd [] destination ->
        (forall c, dir_get n root = Some (File c) ->
                   fst (splitext n) <> pdf_basename) ->
        dir_get n root' = dir_get n root).
Proof.
  intros Hne L Hfree. destruct destination as [|h tl]; [congruence|].
  rewrite mover_asociados_unfold. cbn [hd].
  apply (move_loop root pdf_basename h tl dd Hfree).
  - exists dd. split; [exact L | tauto].
  - intros n c G _. left. split; [|exact G].
    apply dir_get_In in G. change n with (fst (n, File c)).
    now apply in_map.
  - reflexivity.
Qed.

End MoveBeside.

Lemma X19_witness :
  procesar_pdfs lector dedup
    (Estado [ (str_of "notes.txt", File (str_of "n"));
              (str_of "pdf", File (str_of "%PDF B85536134"));
              (str_of "B85536134", Dir []) ] [])
  = Ok (tt, Estado [ (str_of "notes.txt", File (str_of "n"));
                     (str_of "pdf", File (str_of "%PDF B85536134"));
                     (str_of "B85536134", Dir []) ] []).
Proof.
  apply X19_without_pdf_nothing_moves.
  intros n [<-|[<-|[<-|[]]]]; reflexivity.
Defined.

Lemma X20_witness :
  exists root',
    mover_asociados (str_of "invoice1") [str_of "B85536134"]
      (Estado [ (str_of "invoice1.pdf", File (str_of "%PDF B85536134"));
                (str_of "invoice1.xlsx", File (str_of "cells"));
                (str_of "other.txt", File (str_of "o"));
                (str_of "B85536134", Dir []) ] [])
    = Ok (tt, Estado root' []) /\
    (forall n c,
        dir_get n [ (str_of "invoice1.pdf", File (str_of "%PDF B85536134"));
                    (str_of "invoice1.xlsx", File (str_of "cells"));
                    (str_of "other.txt", File (str_of "o"));
                    (str_of "B85536134", Dir []) ] = Some (File c) ->
        fst (splitext n) = str_of "invoice1" ->
        lookup ([str_of "B85536134"] ++ [n]) (Dir root') = Some (File c) /\
        dir_get n root' = None) /\
    (forall n,
        n <> hd [] [str_of "B85536134"] ->
        (forall c,
            dir_get n [ (str_of "invoice1.pdf", File (str_of "%PDF B85536134"));
                        (str_of "invoice1.xlsx", File (str_of "cells"));
                        (str_of "other.txt", File (str_of "o"));
                        (str_of "B85536134", Dir []) ] = Some (File c) ->
            fst (splitext n) <> str_of "invoice1") ->
        dir_get n root'
        = dir_get n [ (str_of "invoice1.pdf", File (str_of "%PDF B85536134"));
                      (str_of "invoice1.xlsx", File (str_of "cells"));
                      (str_of "other.txt", File (str_of "o"));
                      (str_of "B85536134", Dir []) ]).
Proof.
  apply X20_files_of_the_base_name_go_to_the_destination with (dd := []).
  - discriminate.
  - reflexivity.
  - intros n c y _ _. discriminate.
Defined.

(** ** Prune, in full *)

Section PruneResult.

Variable content : Type.

Local Abbreviation node := (node content).
Local Abbreviation directory := (directory content).
Local Abbreviation estado := (estado content).

Lemma dir_get_absent (n : str) (d : directory) :
  ~ In n (dir_names d) -> dir_get n d = None.
Proof.
  induction d as [|[k u] d IH]; [reflexivity|]. cbn [dir_names map fst].
  intros H. rewrite dir_get_next by (intros ->; apply H; now left).
  apply IH. intros X. apply H. now right.
Qed.

Lemma well_formed_child (n : str) (child : node) (d : directory) :
  well_formed (Dir d) = true -> dir_get n d = Some child ->
  well_formed child = true.
Proof.
  cbn [well_formed]. rewrite andb_true_iff, forallb_forall.
  intros [_ W] G. apply dir_get_In in G. exact (W _ G).
Qed.

(** The entry of a name after Prune. *)
Lemma dir_get_podado (n : str) (d : directory) :
  unique (dir_names d) = true ->
  dir_get n (podado_entries d)
  = match dir_get n d with
    | Some child => match podado child with
                    | Dir [] => None
                    | t' => Some t'
                    end
    | None => None
    end.
Proof.
  induction d as [|[k c] d IH]; intros U; [reflexivity|].
  cbn [dir_names map fst] in U. apply unique_cons in U.
  destruct U as [Hk U]. rewrite podado_entries_cons.
  destruct (str_eq_dec k n) as [->|Hkn].
  - rewrite dir_get_here.
    assert (Hn : dir_get n (podado_entries d) = None).
    { apply dir_get_absent. intros H. apply Hk.
      now apply podado_entries_names. }
    destruct (podado c) as [x|[|e l]]; cbn [app];
      rewrite ?dir_get_here; auto.
  - rewrite (dir_get_next _ n k c d Hkn), <- (IH U).
    destruct (podado c) as [x|[|e l]]; cbn [app];
      rewrite ?dir_get_next by assumption; reflexivity.
Qed.

Lemma lookup_Dir_nil (p : path) (t : node) :
  lookup p (Dir []) = Some t -> p = [] /\ t = Dir [].
Proof.
  destruct p; [intros [= <-]; now split | discriminate].
Qed.

(** Prune keeps the files where they are. *)
Lemma lookup_podado_file (c : content) (p : path) :
  forall t : node,
    well_formed t = true ->
    (lookup p (podado t) = Some (File c) <-> lookup p t = Some (File c)).
Proof.
  induction p as [|n q IH]; intros t W.
  - destruct t; cbn; split; congruence.
  - destruct t as [x|d]; [tauto|].
    rewrite podado_Dir. cbn [lookup].
    pose proof W as W'. cbn [well_formed] in W'.
    apply andb_true_iff in W'. destruct W' as [U _].
    rewrite (dir_get_podado n d U).
    destruct (dir_get n d) as [child|] eqn:G; [|tauto].
    pose proof (IH child (well_formed_child _ _ _ W G)) as IHc.
    destruct (podado child) as [x|[|e l]] eqn:P; try exact IHc.
    split; [discriminate|]. intros L. apply IHc in L.
    apply lookup_Dir_nil in L. destruct L as [_ L]. discriminate.
Qed.

Lemma In_podado_entries (n : str) (t' : node) (d : directory) :
  In (n, t') (podado_entries d) ->
  exists child, In (n, child) d /\ t' = podado child /\ t' <> Dir [].
Proof.
  induction d as [|[k c] d IH]; [intros []|].
  rewrite podado_entries_cons. intros H. apply in_app_or in H.
  destruct H as [H|H].
  - exists c. destruct (podado c) as [x|[|e l]] eqn:P; [|destruct H|];
      destruct H as [[= <- <-]|[]]; repeat split; (now left) || discriminate.
  - destruct (IH H) as [child [Hin Ht]]. exists child. split; [now right|].
    exact Ht.
Qed.

(** Prune leaves no empty folder behind. *)
Lemma lookup_podado_not_empty (p : path) :
  forall t : node, p <> [] -> lookup p (podado t) <> Some (Dir []).
Proof.
  induction p as [|n q IH]; intros t Hp L; [congruence|].
  destruct t as [x|d]; [discriminate|].
  rewrite podado_Dir in L. cbn [lookup] in L.
  destruct (dir_get n (podado_entries d)) as [t'|] eqn:G; [|discriminate].
  apply dir_get_In, In_podado_entries in G.
  destruct G as [child [_ [-> Ht]]].
  destruct q as [|m q]; [now injection L|].
  now apply (IH child) in L.
Qed.

(** X21: Prune, on a tree whose directories hold no two entries of one
    name, succeeds and removes, moves or changes no file: the files of
    the tree after Prune are those before it, at their paths and with
    their contents. *)
Theorem X21_prune_keeps_every_file
  (root : directory) (log : list log_entry) :
  well_formed (Dir root) = true ->
  exists st',
    podar (Estado root log) = Ok (tt, st') /\
    forall p c,
      lookup p (Dir (fs st')) = Some (File c)
      <-> lookup p (Dir root) = Some (File c).
Proof.
  intros W. eexists. split; [now apply podar_refines|].
  intros p c. cbn [fs]. rewrite <- podado_Dir.
  now apply lookup_podado_file.
Qed.

(** X22: after Prune no folder below the working directory is empty,
    at any depth: a folder whose only entries were empty folders is
    removed with them. *)
Theorem X22_prune_leaves_no_empty_folder
  (root : directory) (log : list log_entry) :
  well_formed (Dir root) = true ->
  exists st',
    podar (Estado root log) = Ok (tt, st') /\
    forall p, p <> [] -> lookup p (Dir (fs st')) <> Some (Dir []).
Proof.
  intros W. eexists. split; [now apply podar_refines|].
  intros p Hp. cbn [fs]. rewrite <- podado_Dir.
  now apply lookup_podado_not_empty.
Qed.

End PruneResult.

Lemma X21_witness :
  exists st',
    podar (Estado [ (str_of "B85536134",
                     Dir [(str_of "invoice1.pdf", File (str_of "%PDF"))]);
                    (str_of "A80652928", Dir [(str_of "G83844316", Dir [])]);
                    (str_of "notes.txt", File (str_of "n")) ] [])
    = Ok (tt, st') /\
    forall p c,
      lookup p (Dir (fs st')) = Some (File c)
      <-> lookup p (Dir [ (str_of "B85536134",
                           Dir [(str_of "invoice1.pdf", File (str_of "%PDF"))]);
                          (str_of "A80652928",
                           Dir [(str_of "G83844316", Dir [])]);
                          (str_of "notes.txt", File (str_of "n")) ])
          = Some (File c).
Proof.
  apply X21_prune_keeps_every_file. reflexivity.
Defined.

Lemma X22_witness :
  exists st',
    podar (Estado [ (str_of "B85536134",
                     Dir [(str_of "invoice1.pdf", File (str_of "%PDF"))]);
                    (str_of "A80652928", Dir [(str_of "G83844316", Dir [])]);
                    (str_of "notes.txt", File (str_of "n")) ] [])
    = Ok (tt, st') /\
    forall p, p <> [] -> lookup p (Dir (fs st')) <> Some (Dir []).
Proof.
  apply X22_prune_leaves_no_empty_folder. reflexivity.
Defined.

Section PruneFolders.

Variable content : Type.

Local Abbreviation node := (node content).
Local Abbreviation directory := (directory content).

Lemma contents_lookup (q : path) :
  forall t t' : node,
    lookup q t = Some t' -> incl (contents t') (contents t).
Proof.
  induction q as [|n q IH]; intros t t' L.
  - injection L as <-. apply incl_refl.
  - destruct t as [x|d]; [discriminate|]. cbn [lookup] in L.
    destruct (dir_get n d) as [child|] eqn:G; [|discriminate].
    eapply incl_tran; [exact (IH _ _ L)|].
    now apply (contents_dir_get content n child d).
Qed.

Lemma contents_Dir_cons (k : str) (c : node) (d : directory) :
  contents (Dir ((k, c) :: d)) = contents c ++ contents (Dir d).
Proof. reflexivity. Qed.

(** Prune empties a directory exactly when it holds no file at any
    depth. *)
Lemma podado_empty_iff (t : node) :
  forall d, t = Dir d -> (podado_entries d = [] <-> contents t = []).
Proof.
  induction t as [x|d0 IH] using (node_induction (content := content));
    intros d E; [discriminate|].
  injection E as <-.
  induction IH as [|[k c] rest Hc _ IHrest]; [tauto|].
  rewrite podado_entries_cons, contents_Dir_cons. cbn [snd] in Hc.
  destruct c as [x|dc].
  - cbn. split; discriminate.
  - specialize (Hc dc eq_refl). rewrite podado_Dir.
    destruct (podado_entries dc) as [|e l] eqn:P.
    + rewrite (proj1 Hc eq_refl). exact IHrest.
    + split; [discriminate|]. intros H. apply app_eq_nil in H.
      destruct H as [H _]. apply Hc in H. discriminate.
Qed.

(** A folder is there after Prune exactly when it holds a file. *)
Lemma lookup_podado_dir (p : path) :
  forall (t : node) (d : directory),
    well_formed t = true -> p <> [] ->
    lookup p t = Some (Dir d) ->
    ((exists d', lookup p (podado t) = Some (Dir d'))
     <-> contents (Dir d) <> []).
Proof.
  induction p as [|n q IH]; intros t d W Hp L; [congruence|].
  destruct t as [x|d0]; [discriminate|].
  rewrite podado_Dir. cbn [lookup] in *.
  pose proof W as W'. cbn [well_formed] in W'.
  apply andb_true_iff in W'. destruct W' as [U _].
  rewrite (dir_get_podado content n d0 U).
  destruct (dir_get n d0) as [child|] eqn:G; [|discriminate].
  pose proof (well_formed_child content _ _ _ W G) as Wc.
  destruct child as [x|dc]; [destruct q; discriminate|].
  rewrite podado_Dir.
  destruct (podado_entries dc) as [|e l] eqn:P.
  - split; [intros [d' X]; discriminate|]. intros H. elim H.
    apply (podado_empty_iff (Dir dc) dc eq_refl) in P.
    apply contents_lookup in L. rewrite P in L.
    destruct (contents (Dir d)) as [|y ys]; [reflexivity|].
    destruct (L y (or_introl eq_refl)).
  - destruct q as [|m q].
    + injection L as <-. cbn [lookup]. split; [|eauto].
      intros _ H. apply (podado_empty_iff (Dir dc) dc eq_refl) in H.
      congruence.
    + rewrite <- P, <- podado_Dir. apply IH; [exact Wc|discriminate|exact L].
Qed.

(** X23: Prune removes exactly the folders that hold no file at any
    depth: a folder below the working directory is still there after
    Prune if and only if some file lies in it or below it. *)
Theorem X23_prune_removes_exactly_the_folders_without_files
  (root : directory) (log : list log_entry) :
  well_formed (Dir root) = true ->
  exists st',
    podar (Estado root log) = Ok (tt, st') /\
    forall p d,
      p <> [] -> lookup p (Dir root) = Some (Dir d) ->
      ((exists d', lookup p (Dir (fs st')) = Some (Dir d'))
       <-> contents (Dir d) <> []).
Proof.
  intros W. eexists. split; [now apply podar_refines|].
  intros p d Hp L. cbn [fs]. rewrite <- podado_Dir.
  now apply lookup_podado_dir.
Qed.

End PruneFolders.

Lemma X23_witness :
  exists st',
    podar (Estado [ (str_of "B85536134",
                     Dir [(str_of "invoice1.pdf", File (str_of "%PDF"))]);
                    (str_of "A80652928", Dir [(str_of "G83844316", Dir [])]);
                    (str_of "notes.txt", File (str_of "n")) ] [])
    = Ok (tt, st') /\
    forall p d,
      p <> [] ->
      lookup p (Dir [ (str_of "B85536134",
                       Dir [(str_of "invoice1.pdf", File (str_of "%PDF"))]);
                      (str_of "A80652928", Dir [(str_of "G83844316", Dir [])]);
                      (str_of "notes.txt", File (str_of "n")) ])
      = Some (Dir d) ->
      ((exists d', lookup p (Dir (fs st')) = Some (Dir d'))
       <-> contents (Dir d) <> []).
Proof.
  apply X23_prune_removes_exactly_the_folders_without_files. reflexivity.
Defined.

(** ** Names stay unique *)

Section UniqueNames.

Variable content : Type.

Local Abbreviation node := (node content).
Local Abbreviation directory := (directory content).

Lemma well_formed_Dir (d : directory) :
  well_formed (Dir d) = true
  <-> unique (dir_names d) = true /\
      forall e, In e d -> well_formed (snd e) = true.
Proof.
  cbn [well_formed]. now rewrite andb_true_iff, forallb_forall.
Qed.

Lemma well_formed_dir_put (m : str) (v : node) (d : directory) :
  well_formed (Dir d) = true -> well_formed v = true ->
  well_formed (Dir (dir_put m v d)) = true.
Proof.
  rewrite !well_formed_Dir. intros [U W] Wv. split.
  - clear W. induction d as [|[k u] d IH]; [reflexivity|].
    cbn [dir_names map fst] in U. apply unique_cons in U.
    destruct U as [Hk U]. cbn [dir_put].
    destruct (str_eqb k m) eqn:E.
    + cbn [dir_names map fst]. apply unique_cons. now split.
    + cbn [dir_names map fst]. apply unique_cons. split; [|now apply IH].
      fold (dir_names (dir_put m v d)). rewrite dir_put_names.
      intros [->|H]; [|contradiction]. now rewrite str_eqb_refl in E.
  - intros e He. apply In_dir_put in He.
    destruct He as [->|He]; [exact Wv | now apply W].
Qed.

Lemma unique_filter (f : str * node -> bool) (d : directory) :
  unique (dir_names d) = true -> unique (dir_names (filter f d)) = true.
Proof.
  induction d as [|[k u] d IH]; [reflexivity|].
  cbn [dir_names map fst]. intros U. apply unique_cons in U.
  destruct U as [Hk U]. cbn [filter].
  destruct (f (k, u)); [|now apply IH].
  cbn [dir_names map fst]. apply unique_cons. split; [|now apply IH].
  intros H. apply Hk. unfold dir_names in *. apply in_map_iff in H.
  destruct H as [e [E He]]. apply filter_In in He. destruct He as [He _].
  apply in_map_iff. now exists e.
Qed.

Lemma well_formed_dir_remove (n : str) (d : directory) :
  well_formed (Dir d) = true -> well_formed (Dir (dir_remove n d)) = true.
Proof.
  rewrite !well_formed_Dir. intros [U W]. split.
  - now apply unique_filter.
  - intros e He. apply filter_In in He. now apply W.
Qed.

Lemma dir_remove_names (n m : str) (d : directory) :
  In m (dir_names (dir_remove n d)) <-> m <> n /\ In m (dir_names d).
Proof.
  unfold dir_names, dir_remove. rewrite !in_map_iff. split.
  - intros [e [<- He]]. apply filter_In in He. destruct He as [He Hn].
    apply negb_true_iff, str_eqb_neq in Hn. split; [exact Hn|]. now exists e.
  - intros [Hn [e [<- He]]]. exists e. split; [reflexivity|].
    apply filter_In. split; [exact He|].
    now apply negb_true_iff, str_eqb_neq.
Qed.

Lemma rename_entry_names (src dst m : str) (d : directory) :
  In m (dir_names (rename_entry src dst d)) ->
  (m = dst /\ In src (dir_names d)) \/ (m <> src /\ In m (dir_names d)).
Proof.
  unfold dir_names, rename_entry. rewrite map_map, in_map_iff.
  intros [[k u] [E He]]. cbn [fst snd] in E.
  destruct (str_eqb k src) eqn:Eks; cbn [fst] in E; subst m.
  - apply str_eqb_eq in Eks. subst k. left. split; [reflexivity|].
    apply in_map_iff. now exists (src, u).
  - right. apply str_eqb_neq in Eks. split; [exact Eks|].
    apply in_map_iff. now exists (k, u).
Qed.

Lemma well_formed_rename_entry (src dst : str) (d : directory) :
  well_formed (Dir d) = true -> ~ In dst (dir_names d) ->
  well_formed (Dir (rename_entry src dst d)) = true.
Proof.
  rewrite !well_formed_Dir. intros [U W] Hdst. split.
  - clear W. induction d as [|[k u] d IH]; [reflexivity|].
    cbn [dir_names map fst] in U, Hdst. apply unique_cons in U.
    destruct U as [Hk U].
    assert (Hd : ~ In dst (dir_names d)) by (intros X; apply Hdst; now right).
    assert (Hkd : k <> dst) by (intros X; apply Hdst; now left).
    specialize (IH U Hd).
    change (rename_entry src dst ((k, u) :: d))
      with ((if str_eqb k src then (dst, u) else (k, u))
            :: rename_entry src dst d).
    destruct (str_eqb k src) eqn:E; cbn [dir_names map fst];
      fold (dir_names (rename_entry src dst d));
      apply unique_cons; (split; [|exact IH]); intros H;
      apply rename_entry_names in H.
    + apply str_eqb_eq in E. subst k. tauto.
    + destruct H as [[H _]|[_ H]]; [congruence | contradiction].
  - intros e He. unfold rename_entry in He. apply in_map_iff in He.
    destruct He as [[k u] [E He]]. specialize (W _ He).
    destruct (str_eqb (fst (k, u)) src); subst e; exact W.
Qed.

Lemma well_formed_makedirs (p : path) :
  forall t t' : node,
    well_formed t = true -> makedirs p t = Ok t' -> well_formed t' = true.
Proof.
  induction p as [|n p IH]; intros t t' W H.
  - destruct t; [discriminate|]. now injection H as <-.
  - destruct t as [c|d]; [discriminate|]. cbn [makedirs] in H.
    destruct (makedirs p match dir_get n d with
                         | Some child => child
                         | None => Dir []
                         end) as [child'|e] eqn:E; [|discriminate].
    injection H as <-. apply well_formed_dir_put; [exact W|].
    refine (IH _ child' _ E).
    destruct (dir_get n d) as [child|] eqn:G; [|reflexivity].
    now apply (well_formed_child content n child d).
Qed.

Lemma well_formed_store (v : node) (p : path) :
  well_formed v = true ->
  forall t t' : node,
    well_formed t = true -> store p v t = Ok t' -> well_formed t' = true.
Proof.
  intros Wv. induction p as [|n q IH]; intros t t' W H;
    (destruct t as [c|d]; [discriminate|]); [discriminate|].
  destruct q as [|m q].
  - injection H as <-. now apply well_formed_dir_put.
  - rewrite store_cons in H.
    destruct (dir_get n d) as [child|] eqn:G; [|discriminate].
    destruct (store (m :: q) v child) as [child'|e] eqn:E; [|discriminate].
    injection H as <-. apply well_formed_dir_put; [exact W|].
    apply (IH child child'); [|exact E].
    now apply (well_formed_child content n child d).
Qed.

Lemma well_formed_unlink (p : path) :
  forall t t' : node,
    well_formed t = true -> unlink p t = Ok t' -> well_formed t' = true.
Proof.
  induction p as [|n q IH]; intros t t' W H;
    (destruct t as [c|d]; [discriminate|]); [discriminate|].
  destruct q as [|m q].
  - cbn [unlink] in H. destruct (dir_get n d); [|discriminate].
    injection H as <-. now apply well_formed_dir_remove.
  - rewrite unlink_cons in H.
    destruct (dir_get n d) as [child|] eqn:G; [|discriminate].
    destruct (unlink (m :: q) child) as [child'|e] eqn:E; [|discriminate].
    injection H as <-. apply well_formed_dir_put; [exact W|].
    apply (IH child child'); [|exact E].
    now apply (well_formed_child content n child d).
Qed.

End UniqueNames.

(** ** Whole runs *)

Section RunFacts.

Variable content : Type.
Variable pdfplumber_open : content -> pdf.
Variable set_order : list str -> list str.
Variable zip_bytes : list (str * content) -> content.

Local Abbreviation node := (node content).
Local Abbreviation directory := (directory content).
Local Abbreviation estado := (estado content).

(** A run keeps the names of every directory distinct. *)
Lemma run_well_formed (st st' : estado) :
  procesar_y_clasificar pdfplumber_open set_order st = Ok (tt, st') ->
  well_formed (Dir (fs st)) = true -> well_formed (Dir (fs st')) = true.
Proof.
  intros H.
  apply (keeps_procesar_y_clasificar content pdfplumber_open set_order
           (fun a b => well_formed (Dir (fs a)) = true ->
                       well_formed (Dir (fs b)) = true))
    with (a := tt); try exact I; try exact H.
  - tauto.
  - tauto.
  - intros s e W. exact W.
  - intros s p d _ E W. apply os_makedirs_Ok in E.
    now apply (well_formed_makedirs content p _ _ W E).
  - intros s src dst d _ E W. apply os_rename_Ok in E.
    destruct E as [->| ->]; [exact W|]. cbn [fs].
    apply well_formed_rename_entry; [now apply well_formed_dir_remove|].
    rewrite dir_remove_names. tauto.
  - intros s name dest d _ _ E W. apply shutil_move_Ok in E.
    destruct E as [src [p [G [_ E]]]]. cbn [fs].
    apply (well_formed_store content src p) in E; [exact E| |].
    + now apply (well_formed_child content name src (fs s)).
    + now apply well_formed_dir_remove.
  - intros s p d E W. apply os_rmdir_Ok in E.
    now apply (well_formed_unlink content p _ _ W E).
Qed.

Lemma guardar_well_formed (uploaded_files : list (str * content)) :
  forall root : directory,
    well_formed (Dir root) = true ->
    well_formed (Dir (fold_left (@guardar content) uploaded_files root)) = true.
Proof.
  induction uploaded_files as [|u us IH]; intros root W; [exact W|].
  cbn [fold_left]. apply IH. unfold guardar.
  now apply well_formed_dir_put.
Qed.

(** X24: in every run that ends well the archive holds the files of the
    final tree whose name is not the archive's, each under its path
    relative to the working directory, and nothing else: what the
    hypotheses on the tree ask for holds in every run. *)
Theorem X24_archive_of_a_run
  (uploaded_files : list (str * content)) (s : salida content) :
  main pdfplumber_open set_order zip_bytes uploaded_files = Ok s ->
  (forall p c,
      lookup p (Dir (final_tree s)) = Some (File c) ->
      last p [] <> ZIP_NAME -> In (relpath p, c) (zip_entries s)) /\
  (forall a c,
      In (a, c) (zip_entries s) ->
      exists p, a = relpath p /\
                lookup p (Dir (final_tree s)) = Some (File c) /\
                last p [] <> ZIP_NAME).
Proof.
  unfold main. intros H.
  destruct (procesar_y_clasificar pdfplumber_open set_order _)
    as [[[] st]|e] eqn:P; [|discriminate].
  destruct (crear_zip zip_bytes (fs st)) as [[entries root]|e] eqn:Z;
    [|discriminate].
  injection H as <-. cbn [zip_entries final_tree].
  apply run_well_formed in P; [|now apply guardar_well_formed].
  unfold crear_zip in Z.
  set (root1 := dir_put ZIP_NAME (File (zip_bytes [])) (fs st)) in *.
  assert (E : entries = zip_walk [] (Dir root1) /\
              root = dir_put ZIP_NAME (File (zip_bytes entries)) root1).
  { destruct (dir_get ZIP_NAME (fs st)) as [[x|d]|];
      try discriminate; injection Z as <- <-; now split. }
  destruct E as [-> ->]. clear Z.
  assert (Hz : forall d, dir_get ZIP_NAME root1 <> Some (Dir d)).
  { intros d. unfold root1. rewrite dir_get_put. discriminate. }
  assert (W1 : well_formed (Dir root1) = true)
    by now apply well_formed_put.
  split.
  - intros p c L N. apply (lookup_put_zip content _ root1 p c Hz N) in L.
    now apply (zip_walk_complete content p root1 [] c).
  - intros a c Hin. apply (zip_walk_sound content _ W1) in Hin.
    destruct Hin as [p [_ [-> [L N]]]]. exists p.
    repeat split; [|exact N].
    now apply (lookup_put_zip content _ root1 p c Hz N).
Qed.

End RunFacts.

Lemma X24_witness :
  exists s,
    main lector dedup empty_zip
      [ (str_of "invoice1.pdf", str_of "%PDF B85536134");
        (str_of "invoice1.xlsx", str_of "cells");
        (str_of "notes.txt", str_of "n") ] = Ok s /\
    (forall p c,
        lookup p (Dir (final_tree s)) = Some (File c) ->
        last p [] <> ZIP_NAME -> In (relpath p, c) (zip_entries s)) /\
    (forall a c,
        In (a, c) (zip_entries s) ->
        exists p, a = relpath p /\
                  lookup p (Dir (final_tree s)) = Some (File c) /\
                  last p [] <> ZIP_NAME).
Proof.
  eexists. split; [vm_compute; reflexivity|].
  apply (X24_archive_of_a_run str lector dedup empty_zip
           [ (str_of "invoice1.pdf", str_of "%PDF B85536134");
             (str_of "invoice1.xlsx", str_of "cells");
             (str_of "notes.txt", str_of "n") ]).
  vm_compute. reflexivity.
Defined.

(** ** The archive step after a run *)

Section ArchiveStep.

Variable content : Type.
Variable pdfplumber_open : content -> pdf.
Variable set_order : list str -> list str.
Variable zip_bytes : list (str * content) -> content.

Local Abbreviation node := (node content).
Local Abbreviation directory := (directory content).
Local Abbreviation estado := (estado content).

Lemma carpetas_not_empty_name : ~ In [] carpetas.
Proof. intros H. repeat (destruct H as [H|H]; [discriminate|]). exact H. Qed.

Lemma carpetas_not_zip : ~ In ZIP_NAME carpetas.
Proof. intros H. repeat (destruct H as [H|H]; [discriminate|]). exact H. Qed.

Lemma solo_carpetas_put (n : str) (v : node) (root : directory) :
  (forall d, v = Dir d -> In n carpetas) ->
  solo_carpetas root -> solo_carpetas (dir_put n v root).
Proof.
  intros Hv J m d. rewrite dir_get_put_eq.
  destruct (str_eqb m n) eqn:E.
  - apply str_eqb_eq in E. subst m. intros [= ->]. now apply (Hv d).
  - apply J.
Qed.

Lemma solo_carpetas_remove (n : str) (root : directory) :
  solo_carpetas root -> solo_carpetas (dir_remove n root).
Proof.
  intros J m d. rewrite dir_get_remove.
  destruct (str_eq_dec m n); [discriminate|apply J].
Qed.

Lemma solo_carpetas_makedirs (p : path) (root d : directory) :
  In (hd [] p) carpetas -> makedirs p (Dir root) = Ok (Dir d) ->
  solo_carpetas root -> solo_carpetas d.
Proof.
  destruct p as [|n p]; cbn [hd].
  - intros H. now apply carpetas_not_empty_name in H.
  - intros Hn E J. cbn [makedirs] in E.
    destruct (makedirs p _) as [child'|e]; [|discriminate].
    injection E as <-. now apply solo_carpetas_put.
Qed.

Lemma solo_carpetas_store (v : node) (h : str) (q : path)
  (root d : directory) :
  In h carpetas -> q <> [] -> store (h :: q) v (Dir root) = Ok (Dir d) ->
  solo_carpetas root -> solo_carpetas d.
Proof.
  intros Hh Hq E J. destruct q as [|m q]; [congruence|].
  rewrite store_cons in E.
  destruct (dir_get h root) as [child|]; [|discriminate].
  destruct (store (m :: q) v child) as [child'|e]; [|discriminate].
  injection E as <-. now apply solo_carpetas_put.
Qed.

Lemma solo_carpetas_unlink (p : path) (root d : directory) :
  unlink p (Dir root) = Ok (Dir d) ->
  solo_carpetas root -> solo_carpetas d.
Proof.
  intros E J. destruct p as [|n [|m q]].
  - discriminate.
  - cbn in E. destruct (dir_get n root); [|discriminate].
    injection E as <-. now apply solo_carpetas_remove.
  - rewrite unlink_cons in E.
    destruct (dir_get n root) as [[c|l]|] eqn:G; try discriminate.
    destruct (unlink (m :: q) (Dir l)) as [child'|e]; [|discriminate].
    injection E as <-. apply solo_carpetas_put; [|exact J].
    intros _ _. now apply (J n l).
Qed.

Lemma solo_carpetas_rename (src dst : str) (root d : directory) :
  os_path_isfile [src] root = true -> os_rename src dst root = Ok d ->
  solo_carpetas root -> solo_carpetas d.
Proof.
  intros F E J. destruct (str_eq_dec src dst) as [->|Hne].
  - unfold os_rename in E. rewrite str_eqb_refl in E.
    destruct (dir_get dst root); [|discriminate]. now injection E as <-.
  - destruct (os_rename_file content src dst root d F Hne E) as [-> _].
    apply isfile_dir_get in F. destruct F as [c G].
    intros m x. rewrite dir_get_renamed by exact Hne.
    destruct (str_eq_dec m dst); [rewrite G; discriminate|].
    destruct (str_eq_dec m src); [discriminate|apply J].
Qed.

Lemma solo_carpetas_move (name : str) (dest : path) (root d : directory) :
  In (hd [] dest) carpetas -> shutil_move name dest root = Ok d ->
  solo_carpetas root -> solo_carpetas d.
Proof.
  intros Hh E J. apply shutil_move_Ok in E.
  destruct E as [src [p [_ [Hp E]]]].
  destruct dest as [|h q]; cbn [hd] in Hh;
    [now apply carpetas_not_empty_name in Hh|].
  assert (exists q', q' <> [] /\ p = h :: q') as [q' [Hq' ->]].
  { destruct Hp as [->| ->].
    - exists (q ++ [name]). split; [now destruct q|reflexivity].
    - exists ((q ++ [name]) ++ [name]). split; [|reflexivity].
      now destruct (q ++ [name]). }
  apply (solo_carpetas_store src h q' _ d Hh Hq' E).
  now apply solo_carpetas_remove.
Qed.

(** The run makes no folder in the working directory besides those of
    [carpetas]. *)
Lemma run_solo_carpetas (st st' : estado) :
  procesar_y_clasificar pdfplumber_open set_order st = Ok (tt, st') ->
  solo_carpetas (fs st) -> solo_carpetas (fs st').
Proof.
  intros H.
  apply (keeps_procesar_y_clasificar content pdfplumber_open set_order
           (fun a b => solo_carpetas (fs a) -> solo_carpetas (fs b)))
    with (a := tt); try exact I; try exact H.
  - tauto.
  - tauto.
  - intros s e J. exact J.
  - intros s p d Hp E. apply os_makedirs_Ok in E.
    now apply (solo_carpetas_makedirs p (fs s) d).
  - intros s src dst d F E. now apply (solo_carpetas_rename src dst (fs s) d).
  - intros s name dest d _ Hd E.
    now apply (solo_carpetas_move name dest (fs s) d).
  - intros s p d E. apply os_rmdir_Ok in E.
    now apply (solo_carpetas_unlink p (fs s) d).
Qed.

Lemma guardar_solo_carpetas (uploaded_files : list (str * content)) :
  forall root : directory,
    solo_carpetas root ->
    solo_carpetas (fold_left (@guardar content) uploaded_files root).
Proof.
  induction uploaded_files as [|u us IH]; intros root J; [exact J|].
  cbn [fold_left]. apply IH. unfold guardar.
  apply solo_carpetas_put; [discriminate|exact J].
Qed.

(** X25: when the classification of the uploaded files ends without an
    error, the archive is made: its creation cannot fail, because no
    folder of the working directory bears the archive's name.  The run
    reports the log of the classification. *)
Theorem X25_archive_is_made_when_classification_ends_well
  (uploaded_files : list (str * content)) (st : estado) :
  procesar_y_clasificar pdfplumber_open set_order
    (Estado (fold_left (@guardar content) uploaded_files []) [])
  = Ok (tt, st) ->
  exists entries,
    main pdfplumber_open set_order zip_bytes uploaded_files
    = Ok (Salida entries
            (dir_put ZIP_NAME (File (zip_bytes entries))
               (dir_put ZIP_NAME (File (zip_bytes [])) (fs st)))
            (log_messages st)).
Proof.
  intros P. unfold main. rewrite P.
  apply run_solo_carpetas in P.
  2:{ cbn [fs]. apply guardar_solo_carpetas. intros n d. discriminate. }
  unfold crear_zip.
  destruct (dir_get ZIP_NAME (fs st)) as [[c|d]|] eqn:G;
    try (eexists; reflexivity).
  apply P in G. now apply carpetas_not_zip in G.
Qed.

End ArchiveStep.

Lemma X25_witness :
  exists st entries,
    procesar_y_clasificar lector dedup
      (Estado (fold_left (@guardar str)
                 [ (str_of "invoice1.pdf", str_of "%PDF B85536134");
                   (str_of "facturas_clasificadas.zip", str_of "old") ] [])
         [])
    = Ok (tt, st) /\
    main lector dedup empty_zip
      [ (str_of "invoice1.pdf", str_of "%PDF B85536134");
        (str_of "facturas_clasificadas.zip", str_of "old") ]
    = Ok (Salida entries
            (dir_put ZIP_NAME (File (empty_zip entries))
               (dir_put ZIP_NAME (File (empty_zip [])) (fs st)))
            (log_messages st)).
Proof.
  eexists. 
  assert (H : procesar_y_clasificar lector dedup
      (Estado (fold_left (@guardar str)
                 [ (str_of "invoice1.pdf", str_of "%PDF B85536134");
                   (str_of "facturas_clasificadas.zip", str_of "old") ] [])
         [])
    = Ok (tt, _)) by (vm_compute; reflexivity).
  destruct (X25_archive_is_made_when_classification_ends_well
              str lector dedup empty_zip _ _ H) as [entries E].
  exists entries. split; [exact H | exact E].
Defined.

(** ** A lone PDF, from the upload to the archive *)

Section LonePdf.

Variable content : Type.
Variable pdfplumber_open : content -> pdf.
Variable set_order : list str -> list str.
Variable zip_bytes : list (str * content) -> content.

Local Abbreviation node := (node content).
Local Abbreviation directory := (directory content).
Local Abbreviation estado := (estado content).

Lemma str_eqb_sym (a b : str) : str_eqb a b = str_eqb b a.
Proof.
  destruct (str_eqb b a) eqn:E.
  - apply str_eqb_eq in E. subst. apply str_eqb_refl.
  - apply str_eqb_neq. apply str_eqb_neq in E. congruence.
Qed.

Lemma in_list_false (x : str) (l : list str) :
  in_list x l = false <-> ~ In x l.
Proof.
  rewrite <- in_list_In. now destruct (in_list x l).
Qed.

Lemma dir_get_entradas (f : str -> node) (ks : list str) (k : str) :
  dir_get k (entradas f ks) = if in_list k ks then Some (f k) else None.
Proof.
  induction ks as [|a ks IH]; [reflexivity|].
  cbn [entradas map dir_get]. rewrite in_list_cons, (str_eqb_sym k a).
  destruct (str_eqb a k) eqn:E; [|exact IH].
  apply str_eqb_eq in E. now subst.
Qed.

Lemma entradas_ext (f g : str -> node) (ks : list str) :
  (forall k, In k ks -> f k = g k) -> entradas f ks = entradas g ks.
Proof.
  intros H. apply map_ext_in. intros k Hk. now rewrite (H k Hk).
Qed.

Lemma dir_put_entradas (f : str -> node) (h : str) (v : node)
  (ks : list str) :
  unique ks = true -> in_list h ks = true ->
  dir_put h v (entradas f ks)
  = entradas (fun k => if str_eqb k h then v else f k) ks.
Proof.
  induction ks as [|a ks IH]; [discriminate|].
  cbn [unique]. intros U Hin. apply andb_prop in U. destruct U as [Ua U].
  apply negb_true_iff in Ua.
  cbn [entradas map dir_put]. destruct (str_eqb a h) eqn:E.
  - apply str_eqb_eq in E. subst a. f_equal.
    apply map_ext_in. intros k Hk.
    destruct (str_eqb k h) eqn:Ek; [|reflexivity].
    apply str_eqb_eq in Ek. subst k.
    apply in_list_In in Hk. congruence.
  - f_equal. apply IH; [exact U|].
    rewrite in_list_cons, (str_eqb_sym h a), E in Hin. exact Hin.
Qed.

Lemma dir_remove_entradas (f : str -> node) (n : str) (ks : list str) :
  in_list n ks = false -> dir_remove n (entradas f ks) = entradas f ks.
Proof.
  induction ks as [|a ks IH]; [reflexivity|].
  rewrite in_list_cons. intros H. apply orb_false_elim in H.
  destruct H as [Ha H]. unfold dir_remove in *.
  cbn [entradas map filter fst]. rewrite (str_eqb_sym a n), Ha. cbn [negb].
  f_equal. now apply IH.
Qed.

Lemma rename_entry_entradas (f : str -> node) (src dst : str)
  (ks : list str) :
  in_list src ks = false ->
  rename_entry src dst (entradas f ks) = entradas f ks.
Proof.
  induction ks as [|a ks IH]; [reflexivity|].
  rewrite in_list_cons. intros H. apply orb_false_elim in H.
  destruct H as [Ha H]. unfold rename_entry in *.
  cbn [entradas map fst]. rewrite (str_eqb_sym a src), Ha.
  f_equal. now apply IH.
Qed.

Lemma dir_put_new (n : str) (v : node) (d : directory) :
  dir_get n d = None -> dir_put n v d = d ++ [(n, v)].
Proof.
  induction d as [|[k u] d IH]; [reflexivity|].
  cbn [dir_get dir_put]. destruct (str_eqb k n); [discriminate|].
  intros G. cbn [app]. f_equal. now apply IH.
Qed.

Lemma dir_get_snoc (k n : str) (v : node) (d : directory) :
  k <> n -> dir_get k (d ++ [(n, v)]) = dir_get k d.
Proof.
  intros Hne. induction d as [|[a u] d IH].
  - cbn. now rewrite (proj2 (str_eqb_neq n k)) by congruence.
  - cbn [app dir_get]. now destruct (str_eqb a k).
Qed.

(** Setup on a directory that holds none of the names. *)
Lemma setup_fresh (ks : list str) :
  forall (root : directory) (log : list log_entry),
    unique ks = true ->
    (forall k, In k ks -> dir_get k root = None) ->
    for_each ks (fun folder_name => update (os_makedirs [folder_name]))
      (Estado root log)
    = Ok (tt, Estado (root ++ entradas (fun _ => Dir []) ks) log).
Proof.
  induction ks as [|a ks IH]; intros root log U Hfree.
  - cbn. now rewrite app_nil_r.
  - cbn [unique] in U. apply andb_prop in U. destruct U as [Ua U].
    apply negb_true_iff, in_list_false in Ua.
    rewrite for_each_cons. unfold update at 1. cbn [fs log_messages].
    rewrite os_makedirs_one, (Hfree a (or_introl eq_refl)).
    rewrite (dir_put_new _ _ _ (Hfree a (or_introl eq_refl))).
    rewrite IH; [|exact U|].
    + cbn [entradas map]. now rewrite <- app_assoc.
    + intros k Hk. rewrite dir_get_snoc by (intros ->; contradiction).
      apply Hfree. now right.
Qed.

Lemma dir_names_entradas (f : str -> node) (ks : list str) :
  dir_names (entradas f ks) = ks.
Proof.
  unfold dir_names, entradas. rewrite map_map. cbn [fst]. apply map_id.
Qed.

Lemma isfile_entradas (f : str -> node) (ks : list str) (x : str) :
  (forall k, exists l, f k = Dir l) ->
  os_path_isfile [x] (entradas f ks) = false.
Proof.
  intros Hf. unfold os_path_isfile. cbn [lookup].
  rewrite dir_get_entradas. destruct (in_list x ks); [|reflexivity].
  now destruct (Hf x) as [l ->].
Qed.

Lemma solo_en_Dir (h : str) (l : directory) (k : str) :
  exists l', solo_en h (Dir l) k = Dir l'.
Proof. unfold solo_en. destruct (str_eqb k h); eauto. Qed.

Lemma os_rename_fresh (src dst : str) (root : directory) (c : content) :
  dir_get src root = Some (File c) -> str_eqb src dst = false ->
  str_eqb dst [] = false -> special_name dst = false ->
  dir_get dst root = None ->
  os_rename src dst root = Ok (rename_entry src dst (dir_remove dst root)).
Proof. unfold os_rename. now intros -> -> -> -> ->. Qed.

Lemma dir_remove_head (x k : str) (v : node) (d : directory) :
  str_eqb x k = false ->
  dir_remove k ((x, v) :: d) = (x, v) :: dir_remove k d.
Proof. intros E. unfold dir_remove. cbn [filter fst]. now rewrite E. Qed.

Lemma dir_remove_here (x : str) (v : node) (d : directory) :
  dir_remove x ((x, v) :: d) = dir_remove x d.
Proof. unfold dir_remove. cbn [filter fst]. now rewrite str_eqb_refl. Qed.

Lemma rename_entry_head (x y : str) (v : node) (d : directory) :
  rename_entry x y ((x, v) :: d) = (y, v) :: rename_entry x y d.
Proof. unfold rename_entry. cbn [map fst snd]. now rewrite str_eqb_refl. Qed.

Lemma well_formed_entradas (f : str -> node) (ks : list str) :
  unique ks = true -> (forall k, well_formed (f k) = true) ->
  well_formed (Dir (entradas f ks)) = true.
Proof.
  intros U Hf. cbn [well_formed]. rewrite dir_names_entradas, U.
  apply forallb_forall. intros [k v] Hin. apply in_map_iff in Hin.
  destruct Hin as [x [[= <- <-] _]]. apply Hf.
Qed.

Lemma filter_none (h : str) (ks : list str) :
  in_list h ks = false -> filter (fun k => str_eqb k h) ks = [].
Proof.
  induction ks as [|a ks IH]; [reflexivity|].
  rewrite in_list_cons. intros H. apply orb_false_elim in H.
  destruct H as [Ha H]. cbn [filter]. rewrite (str_eqb_sym a h), Ha.
  now apply IH.
Qed.

Lemma filter_unique (h : str) (ks : list str) :
  unique ks = true -> in_list h ks = true ->
  filter (fun k => str_eqb k h) ks = [h].
Proof.
  induction ks as [|a ks IH]; [discriminate|].
  cbn [unique]. intros U Hin. apply andb_prop in U. destruct U as [Ua U].
  apply negb_true_iff in Ua. cbn [filter]. destruct (str_eqb a h) eqn:E.
  - apply str_eqb_eq in E. subst a. now rewrite filter_none.
  - rewrite in_list_cons, (str_eqb_sym h a), E in Hin. now apply IH.
Qed.

(** Prune on folders all empty but one. *)
Lemma podado_solo_en (h : str) (e : str * node) (l : directory)
  (ks : list str) :
  podado (Dir (e :: l)) = Dir (e :: l) -> podado_log (Dir (e :: l)) = [] ->
  podado_entries (entradas (solo_en h (Dir (e :: l))) ks)
  = entradas (fun _ => Dir (e :: l)) (filter (fun k => str_eqb k h) ks) /\
  podado_log (Dir (entradas (solo_en h (Dir (e :: l))) ks))
  = map LogEliminada (filter (fun k => negb (str_eqb k h)) ks).
Proof.
  intros Hv Hl. induction ks as [|a ks [IH1 IH2]]; [now split|].
  cbn [entradas map filter].
  rewrite podado_entries_cons, podado_log_cons.
  fold (entradas (solo_en h (Dir (e :: l))) ks). rewrite IH1, IH2.
  unfold solo_en at 1 2 3. destruct (str_eqb a h); cbn [negb].
  - rewrite Hv, Hl. now split.
  - now split.
Qed.

(** ** The names of the folders *)

Lemma carpetas_unique : unique carpetas = true.
Proof. vm_compute. reflexivity. Qed.

Lemma not_a_pdf_name (k : str) :
  In k ([] :: str_of "." :: str_of ".." :: ZIP_NAME :: carpetas) ->
  endswith (lower k) (str_of ".pdf") = false.
Proof.
  revert k. apply Forall_forall.
  repeat (constructor; [vm_compute; reflexivity|]). constructor.
Qed.

Lemma carpetas_clean (k : str) : In k carpetas -> strip k = k.
Proof.
  revert k. apply Forall_forall.
  repeat (constructor; [vm_compute; reflexivity|]). constructor.
Qed.

Section OneFile.

(** The uploaded file, and its name once it is clean. *)
Variable n : str.
Variable c : content.

Local Abbreviation m := (strip n).

Hypothesis is_pdf : endswith (lower m) (str_of ".pdf") = true.

Lemma m_not_folder : in_list m carpetas = false.
Proof.
  apply in_list_false. intros H.
  rewrite (not_a_pdf_name m) in is_pdf; [discriminate|].
  now do 4 right.
Qed.

Lemma n_not_folder : in_list n carpetas = false.
Proof.
  apply in_list_false. intros H.
  pose proof m_not_folder as F. apply in_list_false in F.
  apply F. now rewrite (carpetas_clean n H).
Qed.

Lemma m_not_special :
  str_eqb m [] = false /\ special_name m = false /\
  str_eqb m ZIP_NAME = false.
Proof.
  assert (H : forall k,
             In k ([] :: str_of "." :: str_of ".." :: ZIP_NAME :: carpetas) ->
             str_eqb m k = false).
  { intros k Hk. apply str_eqb_neq. intros E.
    rewrite E, (not_a_pdf_name k Hk) in is_pdf. discriminate. }
  unfold special_name.
  rewrite !H; [auto| | | |]; cbn; auto.
Qed.

Lemma folder_is_not (x k : str) :
  in_list x carpetas = false -> In k carpetas -> str_eqb x k = false.
Proof.
  intros F Hk. apply str_eqb_neq. intros ->.
  apply in_list_false in F. contradiction.
Qed.

Local Abbreviation vacias := (entradas (fun _ : str => Dir (content := content) []) carpetas).

(** Setup *)
Lemma lone_setup (log : list log_entry) :
  crear_carpetas (Estado [(n, File c)] log)
  = Ok (tt, Estado ((n, File c) :: vacias) log).
Proof.
  unfold crear_carpetas. fold carpetas.
  rewrite setup_fresh; [reflexivity|apply carpetas_unique|].
  intros k Hk. cbn [dir_get].
  now rewrite (folder_is_not n k n_not_folder Hk).
Qed.

Local Abbreviation clean_one :=
  (fun filename : str =>
     bind (read (content := content) (os_path_isfile [filename]))
       (fun isfile : bool =>
          if isfile
          then if str_eqb filename (strip filename)
               then ret tt
               else bind (update (os_rename filename (strip filename)))
                         (fun _ => append
                            (LogRenombrado filename (strip filename)))
          else ret tt)).

Lemma clean_folders (l : list str) (root : directory)
  (log : list log_entry) :
  (forall x, In x l -> os_path_isfile [x] root = false) ->
  for_each l clean_one (Estado root log) = Ok (tt, Estado root log).
Proof.
  intros H. induction l as [|x l IH]; [reflexivity|].
  rewrite for_each_cons, clean_one_step, (H x (or_introl eq_refl)).
  cbn [andb]. apply IH. intros y Hy. apply H. now right.
Qed.

Lemma isfile_beside (x k : str) (f : str -> node) :
  in_list x carpetas = false -> In k carpetas ->
  (forall k, exists l, f k = Dir l) ->
  os_path_isfile [k] ((x, File c) :: entradas f carpetas) = false.
Proof.
  intros F Hk Hf. unfold os_path_isfile. cbn [lookup dir_get].
  rewrite (folder_is_not x k F Hk), dir_get_entradas.
  destruct (in_list k carpetas); [|reflexivity].
  now destruct (Hf k) as [l ->].
Qed.

Lemma isfile_head (x : str) (rest : directory) :
  os_path_isfile [x] ((x, File c) :: rest) = true.
Proof.
  unfold os_path_isfile. cbn [lookup]. now rewrite dir_get_here.
Qed.

(** Normalize *)
Lemma lone_normalize (log : list log_entry) :
  limpiar_nombres (Estado ((n, File c) :: vacias) log)
  = Ok (tt, Estado ((m, File c) :: vacias)
              (log ++ if str_eqb n m then [] else [LogRenombrado n m])).
Proof.
  rewrite limpiar_nombres_unfold. unfold dir_names at 1. cbn [map fst].
  fold (dir_names vacias). rewrite dir_names_entradas.
  rewrite for_each_cons, clean_one_step, isfile_head. cbn [andb].
  destruct (str_eqb n m) eqn:E; cbn [negb].
  - apply str_eqb_eq in E. rewrite <- E, app_nil_r.
    apply clean_folders. intros x Hx.
    apply (isfile_beside n x _ n_not_folder Hx). eauto.
  - destruct m_not_special as [M1 [M2 _]].
    rewrite (os_rename_fresh n m _ c); auto using dir_get_here.
    2:{ cbn [dir_get]. now rewrite E, dir_get_entradas, m_not_folder. }
    cbv beta iota. rewrite (dir_remove_head _ _ _ _ E).
    rewrite (dir_remove_entradas _ _ _ m_not_folder), rename_entry_head.
    rewrite (rename_entry_entradas _ _ _ _ n_not_folder).
    apply clean_folders. intros x Hx.
    apply (isfile_beside m x _ m_not_folder Hx). eauto.
Qed.

Lemma for_each_skip {X} (l : list X) (body : X -> M content unit)
  (st : estado) :
  (forall x, In x l -> body x st = Ok (tt, st)) ->
  for_each l body st = Ok (tt, st).
Proof.
  intros H. induction l as [|x l IH]; [reflexivity|].
  rewrite for_each_cons, (H x (or_introl eq_refl)).
  apply IH. intros y Hy. apply H. now right.
Qed.

Lemma clasificado_Dir (d : destino) (x : str) :
  exists l, clasificado d x c = Dir l.
Proof. destruct d; cbn; eauto. Qed.

Lemma solo_en_is_Dir (h : str) (v : node) (k : str) :
  (exists l, v = Dir l) -> exists l, solo_en h v k = Dir l.
Proof. intros [l ->]. apply solo_en_Dir. Qed.

Section Destination.

Variable d : destino.

Local Abbreviation h := (hd [] (componentes d)).

Hypothesis h_folder : In h carpetas.

Lemma h_in_list : in_list h carpetas = true.
Proof. now apply in_list_In. Qed.

Lemma m_not_h : str_eqb m h = false.
Proof. apply (folder_is_not m h m_not_folder h_folder). Qed.

(** [os.makedirs(destination_folder, exist_ok=True)] *)
Lemma makedirs_destino :
  os_makedirs (componentes d) ((m, File c) :: vacias)
  = Ok ((m, File c) :: entradas (solo_en h (preparado (content := content) d)) carpetas).
Proof.
  pose proof h_in_list as Hin. pose proof m_not_h as Hm.
  assert (G : dir_get h ((m, File c) :: vacias) = Some (Dir [])).
  { cbn [dir_get]. now rewrite Hm, dir_get_entradas, Hin. }
  assert (V : forall x, entradas (solo_en x (Dir [])) carpetas = vacias).
  { intros x. apply entradas_ext. intros k _. unfold solo_en.
    now destruct (str_eqb k x). }
  destruct d as [|p|p s]; cbn [componentes hd preparado] in *.
  - now rewrite os_makedirs_one, G, V.
  - now rewrite os_makedirs_one, G, V.
  - unfold os_makedirs. cbn [makedirs]. rewrite G. cbn [dir_get dir_put].
    rewrite Hm. do 2 f_equal.
    now rewrite (dir_put_entradas _ _ _ _ carpetas_unique Hin).
Qed.

Lemma store_destino :
  store (componentes d ++ [m]) (File c)
    (Dir (entradas (solo_en h (preparado (content := content) d)) carpetas))
  = Ok (Dir (entradas (solo_en h (clasificado d m c)) carpetas)).
Proof.
  pose proof h_in_list as Hin.
  assert (G : dir_get h (entradas (solo_en h (preparado (content := content) d)) carpetas)
              = Some (preparado (content := content) d)).
  { rewrite dir_get_entradas, Hin. unfold solo_en. now rewrite str_eqb_refl. }
  assert (P : forall v,
             dir_put h v (entradas (solo_en h (preparado (content := content) d)) carpetas)
             = entradas (solo_en h v) carpetas).
  { intros v. rewrite (dir_put_entradas _ _ _ _ carpetas_unique Hin).
    apply entradas_ext. intros k _. unfold solo_en.
    now destruct (str_eqb k _). }
  destruct d as [|p|p s]; cbn [componentes hd preparado clasificado app] in *.
  - rewrite store_cons, G. cbn [store dir_put]. now rewrite P.
  - rewrite store_cons, G. cbn [store dir_put]. now rewrite P.
  - rewrite store_cons, G, store_cons, dir_get_here.
    cbn [store dir_put]. rewrite str_eqb_refl. now rewrite P.
Qed.

(** [shutil.move] of the PDF: nothing of its name is in the
    destination. *)
Lemma move_destino :
  shutil_move m (componentes d)
    ((m, File c) :: entradas (solo_en h (preparado (content := content) d)) carpetas)
  = Ok (entradas (solo_en h (clasificado d m c)) carpetas).
Proof.
  pose proof h_in_list as Hin. pose proof m_not_h as Hm.
  assert (L : lookup (componentes d ++ [m])
                (Dir ((m, File c)
                      :: entradas (solo_en h (preparado (content := content) d)) carpetas))
              = None).
  { assert (G : dir_get h ((m, File c)
                           :: entradas (solo_en h (preparado (content := content) d)) carpetas)
                = Some (preparado (content := content) d)).
    { cbn [dir_get]. rewrite Hm, dir_get_entradas, Hin.
      unfold solo_en. now rewrite str_eqb_refl. }
    destruct d as [|p|p s]; cbn [componentes hd preparado app lookup] in *.
    - now rewrite G.
    - now rewrite G.
    - rewrite G, dir_get_here. reflexivity. }
  unfold shutil_move. rewrite dir_get_here. cbv zeta. rewrite L.
  rewrite dir_remove_here, (dir_remove_entradas _ _ _ m_not_folder).
  now rewrite store_destino.
Qed.

Local Abbreviation move_one :=
  (fun (pdf_basename : str) (destination : path) (file_to_move : str) =>
     if str_eqb (fst (splitext file_to_move)) pdf_basename
     then bind (read (content := content) (os_path_isfile [file_to_move]))
            (fun isfile : bool =>
               if isfile
               then update (shutil_move file_to_move destination)
               else ret tt)
     else ret tt).

(** The move loop: the PDF goes, the folders of its base name stay. *)
Lemma lone_move (log : list log_entry) :
  mover_asociados (fst (splitext m)) (componentes d)
    (Estado ((m, File c) :: entradas (solo_en h (preparado (content := content) d)) carpetas) log)
  = Ok (tt, Estado (entradas (solo_en h (clasificado d m c)) carpetas) log).
Proof.
  rewrite mover_asociados_unfold. unfold dir_names at 1. cbn [map fst].
  fold (dir_names (entradas (solo_en h (preparado (content := content) d)) carpetas)).
  rewrite dir_names_entradas, for_each_cons, move_one_step.
  rewrite str_eqb_refl, isfile_head. cbn [andb]. rewrite move_destino.
  apply for_each_skip. intros x _. rewrite move_one_step.
  rewrite isfile_entradas, andb_false_r; [reflexivity|].
  intros k. apply solo_en_is_Dir, clasificado_Dir.
Qed.

Lemma clasificado_podado :
  exists e l,
    clasificado d m c = Dir (e :: l) /\
    podado (Dir (e :: l)) = Dir (e :: l) /\
    podado_log (Dir (e :: l)) = [] /\
    well_formed (Dir (e :: l)) = true.
Proof. destruct d; cbn [clasificado]; do 2 eexists; now repeat split. Qed.

(** Prune: only the destination folder stays. *)
Lemma lone_prune (log : list log_entry) :
  podar (Estado (entradas (solo_en h (clasificado d m c)) carpetas) log)
  = Ok (tt, Estado [(h, clasificado d m c)]
              (log ++ map LogEliminada
                        (filter (fun k => negb (str_eqb k h)) carpetas))).
Proof.
  destruct clasificado_podado as [e [l [-> [Hv [Hl W]]]]].
  rewrite podar_refines.
  - destruct (podado_solo_en h e l carpetas Hv Hl) as [-> ->].
    now rewrite (filter_unique h _ carpetas_unique h_in_list).
  - apply well_formed_entradas; [apply carpetas_unique|].
    intros k. unfold solo_en. now destruct (str_eqb k h).
Qed.

(** The archive of the pruned tree. *)
Lemma lone_zip :
  crear_zip zip_bytes [(h, clasificado d m c)]
  = Ok ([(relpath (componentes d ++ [m]), c)],
        [(h, clasificado d m c);
         (ZIP_NAME,
          File (zip_bytes [(relpath (componentes d ++ [m]), c)]))]).
Proof.
  assert (Hz : str_eqb h ZIP_NAME = false).
  { apply str_eqb_neq. intros E. apply carpetas_not_zip.
    rewrite <- E. exact h_folder. }
  destruct m_not_special as [_ [_ Mz]].
  unfold crear_zip. cbn [dir_get dir_put]. rewrite Hz.
  cbn [dir_get dir_put]. rewrite Hz, str_eqb_refl.
  rewrite zip_walk_Dir. cbn [files_of flat_map fst snd app zip_walk].
  rewrite str_eqb_refl.
  destruct d as [|p|p s];
    cbn [clasificado componentes hd zip_walk files_of flat_map fst snd app];
    now rewrite Mz.
Qed.

End Destination.

(** The turn of the loop of Classify&Move for the PDF. *)
Lemma classify_head (log : list log_entry) :
  bind (read (abrir pdfplumber_open m))
    (fun doc =>
       bind (append (log_de m (clasificar (buscar_cif_en_pdf set_order doc))))
         (fun _ =>
            bind (update
                    (os_makedirs
                       (componentes
                          (clasificar (buscar_cif_en_pdf set_order doc)))))
              (fun _ =>
                 mover_asociados (fst (splitext m))
                   (componentes
                      (clasificar (buscar_cif_en_pdf set_order doc))))))
    (Estado ((m, File c) :: vacias) log)
  = let d := clasificar (buscar_cif_en_pdf set_order (pdfplumber_open c)) in
    Ok (tt, Estado (entradas (solo_en (hd [] (componentes d))
                                (clasificado d m c)) carpetas)
              (log ++ [log_de m d])).
Proof.
  unfold bind, read, append, update. cbn [fs log_messages].
  unfold abrir. rewrite dir_get_here.
  rewrite makedirs_destino by apply componentes_head.
  apply lone_move, componentes_head.
Qed.

Lemma lone_classify (log : list log_entry) :
  procesar_pdfs pdfplumber_open set_order
    (Estado ((m, File c) :: vacias) log)
  = let d := clasificar (buscar_cif_en_pdf set_order (pdfplumber_open c)) in
    Ok (tt, Estado (entradas (solo_en (hd [] (componentes d))
                                (clasificado d m c)) carpetas)
              (log ++ [log_de m d])).
Proof.
  rewrite procesar_pdfs_unfold. unfold dir_names at 1. cbn [map fst].
  fold (dir_names vacias). rewrite dir_names_entradas, for_each_cons.
  cbv beta. rewrite is_pdf, classify_head. cbv zeta.
  apply for_each_skip. intros x Hx. cbv beta.
  rewrite (not_a_pdf_name x); [reflexivity|]. now do 4 right.
Qed.

End OneFile.


End LonePdf.

